(** * Link resolution, appendix crawling and reporting of the PDF converter

    A shallow embedding of [py3/converters/pdf_converter.py] (class
    [PdfConverter]) and of the row-id generation of [tsv/TW2tsv.py].

    Python values are modelled as follows.
    - [str] is [string]; a non-ASCII character is the sequence of its UTF-8
      bytes, and [py_len] counts code points.
    - [dict] is an insertion-ordered association list with unique keys
      (module [Dict]): iteration order is insertion order, assignment to an
      existing key keeps its position.
    - [int] is [Z].
    - an object stored in a registry is designated by the registry key under
      which it is stored (type [ref]); mutation of the object is an update
      of the registry entry.
    - [None] / absent values are [option]; Python truthiness is written out.
    - calls into libraries and the file system (markdown rendering, HTML
      parsing, [os.path]) and the class [ResourceContainerLink], whose
      source is not at hand, are fields of the environment [env].
    - regular expressions are run by a backtracking matcher (module [Re]);
      the classes [\s] and the flag [IGNORECASE] cover the characters below
      U+0080. *)

From Stdlib Require Import List String Ascii ZArith NArith Lia Bool Arith.
From Stdlib Require Import Sorting Permutation DecimalString.
Import ListNotations.
Local Open Scope list_scope.
Local Open Scope string_scope.

(** ** Insertion-ordered dictionaries *)

Module Dict.

Section Defs.
Context {V : Type}.

Definition t := list (string * V).

Definition empty : t := [].

Fixpoint get (k : string) (d : t) : option V :=
    match d with
    | [] => None
    | (k', v) :: r => if String.eqb k k' then Some v else get k r
    end.

  (** [k in d] *)
Definition mem (k : string) (d : t) : bool :=
    match get k d with Some _ => true | None => false end.

  (** [d[k] = v]: an existing key keeps its position, a new key is appended. *)
Fixpoint set (k : string) (v : V) (d : t) : t :=
    match d with
    | [] => [(k, v)]
    | (k', v') :: r =>
        if String.eqb k k' then (k, v) :: r else (k', v') :: set k v r
    end.

  (** [d.keys()] in iteration order *)
Definition keys (d : t) : list string := map fst d.

  (** [bool(d)] *)
Definition nonempty (d : t) : bool :=
    match d with [] => false | _ => true end.

End Defs.

Arguments t : clear implicits.

End Dict.

(** ** Data model *)

(** An article record; mirrors the attributes of [ResourceContainerLink]
    that the converter reads and writes. *)
Record RC := mkRC {
  rc_link : string;
  resource : string;
  project : string;
  path : string;
  extra_information : list string;
  article_id : string;
  title : string;
  toc_title : string;
  article : string;
  linking_level : Z;
  references : list string
}.

Definition set_linking_level (l : Z) (r : RC) : RC :=
  mkRC (rc_link r) (resource r) (project r) (path r) (extra_information r)
       (article_id r) (title r) (toc_title r) (article r) l (references r).

(** Modelled from the spec: [ResourceContainerLink.set_article]
    (rc_link.py is not part of the sources); it stores the rendered body of
    the record. *)
Definition set_article (html : string) (r : RC) : RC :=
  mkRC (rc_link r) (resource r) (project r) (path r) (extra_information r)
       (article_id r) (title r) (toc_title r) html (linking_level r)
       (references r).

(** Modelled from the spec: [ResourceContainerLink.add_reference]
    (rc_link.py is not part of the sources); the source is appended as a
    back-reference, back-references accumulate and never shrink. *)
Definition add_reference (source : RC) (r : RC) : RC :=
  mkRC (rc_link r) (resource r) (project r) (path r) (extra_information r)
       (article_id r) (title r) (toc_title r) (article r) (linking_level r)
       ((references r ++ [rc_link source])%list).

(** The bad-link ledger [self.bad_links]: referencing link -> target link ->
    suggested fix ([None] when no fix is known). *)
Definition ledger := Dict.t (Dict.t (option string)).

(** Truthiness of a [fix] argument: [None] and the empty string are false. *)
Definition truthy_fix (f : option string) : bool :=
  match f with
  | Some s => negb (String.eqb s "")
  | None => false
  end.

Definition truthy_str (s : string) : bool := negb (String.eqb s "").

(** The part of [self] that link resolution reads and writes.  [fetched] is
    a ghost log (not in the source) of the records handed to the article
    loaders, in call order: the link and the linking level of each. *)
Record state := mkState {
  rcs : Dict.t RC;
  appendix_rcs : Dict.t RC;
  all_rcs : Dict.t RC;
  bad_links : ledger;
  fetched : list (string * Z)
}.

Definition with_bad_links (b : ledger) (s : state) : state :=
  mkState (rcs s) (appendix_rcs s) (all_rcs s) b (fetched s).

Definition with_rcs (d : Dict.t RC) (s : state) : state :=
  mkState d (appendix_rcs s) (all_rcs s) (bad_links s) (fetched s).

Definition with_appendix_rcs (d : Dict.t RC) (s : state) : state :=
  mkState (rcs s) d (all_rcs s) (bad_links s) (fetched s).

Definition with_fetched (l : list (string * Z)) (s : state) : state :=
  mkState (rcs s) (appendix_rcs s) (all_rcs s) (bad_links s) l.

(** ** The bad-link ledger *)

(** [bad_links[source][target]] *)
Definition ledger_get (source target : string) (b : ledger) : option (option string) :=
  match Dict.get source b with
  | Some inner => Dict.get target inner
  | None => None
  end.

(** The two statements under [if source_rc:] of [add_bad_link], on the
    ledger, for the link strings of the two records. *)
Definition record_bad_link (source target : string) (fix_ : option string)
    (b : ledger) : ledger :=
  let b1 := if Dict.mem source b then b else Dict.set source Dict.empty b in
  let inner := match Dict.get source b1 with Some i => i | None => Dict.empty end in
  if negb (Dict.mem target inner) || truthy_fix fix_
  then Dict.set source (Dict.set target fix_ inner) b1
  else b1.

(** [add_bad_link(self, source_rc, rc, fix=None)] *)
Definition add_bad_link (source_rc : option RC) (rc : RC) (fix_ : option string)
    (s : state) : state :=
  match source_rc with
  | Some src => with_bad_links (record_bad_link (rc_link src) (rc_link rc) fix_ (bad_links s)) s
  | None => s
  end.

(** The [else] branch of [get_tw_article_html] (the file was not found):
    an entry without fix is created unless one exists. *)
Definition tw_record_missing (source_rc rc : RC) (s : state) : state :=
  let b := bad_links s in
  let b1 := if Dict.mem (rc_link source_rc) b then b
            else Dict.set (rc_link source_rc) Dict.empty b in
  let inner := match Dict.get (rc_link source_rc) b1 with
               | Some i => i | None => Dict.empty end in
  if negb (Dict.mem (rc_link rc) inner)
  then with_bad_links (Dict.set (rc_link source_rc) (Dict.set (rc_link rc) None inner) b1) s
  else with_bad_links b1 s.

(** ** Python string helpers *)

Module Py.

(** [len(s)]: the number of code points of a UTF-8 encoded text, that is
    the number of bytes that are not continuation bytes (10xxxxxx). *)
Definition is_continuation (a : ascii) : bool :=
  let n := N_of_ascii a in (128 <=? n)%N && (n <? 192)%N.

Fixpoint py_len (s : string) : nat :=
  match s with
  | EmptyString => 0
  | String a r => if is_continuation a then py_len r else S (py_len r)
  end.

(** [needle in hay] *)
Fixpoint contains (needle hay : string) : bool :=
  if String.prefix needle hay then true
  else match hay with
       | EmptyString => false
       | String _ r => contains needle r
       end.

(** White space, the characters that [str.strip] removes and that the
    class [\s] matches: U+0009 to U+000D, U+001C to U+0020, U+0085, U+00A0,
    U+1680, U+2000 to U+200A, U+2028, U+2029, U+202F, U+205F and U+3000.
    A text is its UTF-8 bytes, so a white-space character is one byte, two
    bytes ([space2]) or three ([space3]). *)
Definition is_space (a : ascii) : bool :=
  let n := N_of_ascii a in
  ((9 <=? n)%N && (n <=? 13)%N) || ((28 <=? n)%N && (n <=? 32)%N).

Definition byte_is (n : N) (a : ascii) : bool := (N_of_ascii a =? n)%N.

(** U+0085 and U+00A0 *)
Definition space2_last (b : ascii) : bool := byte_is 133 b || byte_is 160 b.

Definition space2 (a b : ascii) : bool := byte_is 194 a && space2_last b.

(** U+2000 to U+200A, U+2028, U+2029 and U+202F, after the bytes E2 80 *)
Definition space3_last (c : ascii) : bool :=
  let n := N_of_ascii c in
  ((128 <=? n)%N && (n <=? 138)%N) || (n =? 168)%N || (n =? 169)%N
  || (n =? 175)%N.

Definition space3 (a b c : ascii) : bool :=
  (byte_is 225 a && byte_is 154 b && byte_is 128 c)
  || (byte_is 226 a && byte_is 128 b && space3_last c)
  || (byte_is 226 a && byte_is 129 b && byte_is 159 c)
  || (byte_is 227 a && byte_is 128 b && byte_is 128 c).

Fixpoint all_space (s : string) : bool :=
  match s with
  | EmptyString => true
  | String a r =>
      if is_space a then all_space r
      else
        match r with
        | EmptyString => false
        | String b r2 =>
            if space2 a b then all_space r2
            else
              match r2 with
              | EmptyString => false
              | String c r3 => if space3 a b c then all_space r3 else false
              end
        end
  end.

(** [bool(s.strip())] *)
Definition strip_nonempty (s : string) : bool := negb (all_space s).

Fixpoint drop (n : nat) (s : string) : string :=
  match n, s with
  | O, _ => s
  | S n', String _ r => drop n' r
  | S _, EmptyString => EmptyString
  end.

(** [s.replace(old, new, count)] for a non-empty [old]; [count = None] is
    the two-argument form.  [fuel] bounds the scan by the length of [s]. *)
Fixpoint replace_fuel (fuel : nat) (old new : string) (count : option nat)
    (s : string) : string :=
  match fuel with
  | O => s
  | S fuel' =>
      match count with
      | Some O => s
      | _ =>
          if String.prefix old s then
            new ++ replace_fuel fuel' old new
                     (match count with Some (S c) => Some c | _ => None end)
                     (drop (String.length old) s)
          else match s with
               | EmptyString => EmptyString
               | String a r => String a (replace_fuel fuel' old new count r)
               end
      end
  end.

Definition replace (old new : string) (s : string) : string :=
  replace_fuel (S (String.length s)) old new None s.

Definition replace1 (old new : string) (s : string) : string :=
  replace_fuel (S (String.length s)) old new (Some 1) s.

(** [sep.join(l)] *)
Fixpoint join (sep : string) (l : list string) : string :=
  match l with
  | [] => ""
  | [x] => x
  | x :: r => x ++ sep ++ join sep r
  end.

(** the character [a] occurs in [s] *)
Fixpoint char_in (a : ascii) (s : string) : bool :=
  match s with
  | EmptyString => false
  | String b r => Ascii.eqb a b || char_in a r
  end.

(** [x in l] for a list of texts *)
Fixpoint mem_str (x : string) (l : list string) : bool :=
  match l with
  | [] => false
  | y :: r => String.eqb x y || mem_str x r
  end.

(** Exceptions raised by the modelled code. *)
Inductive exn := TypeError | ValueError | AttributeError | KeyError | IndexError.

(** The outcome of a call that may raise. *)
Inductive res (A : Type) :=
| Ok (a : A)
| Raise (e : exn).
Arguments Ok {A} a.
Arguments Raise {A} e.

Definition bind {A B : Type} (x : res A) (f : A -> res B) : res B :=
  match x with
  | Ok a => f a
  | Raise e => Raise e
  end.

(** The double quote character and the one-character text made of it. *)
Definition dq : ascii := ascii_of_nat 34.
Definition dquote : string := String dq EmptyString.

End Py.

(** ** Regular expressions

    The patterns of the converter are written in the abstract syntax below
    and run by a backtracking matcher with the search order of Python's
    [re]: alternatives left to right, greedy repetition longest first, lazy
    repetition shortest first, numbered groups set by the last iteration
    that matched them. *)

Module Re.

Inductive re :=
| Eps
| Chr (p : ascii -> bool)
| Seq (a b : re)
| Alt (a b : re)
| Star (a : re)
| LazyStar (a : re)
| Group (n : nat) (a : re)
| NotAhead (a : re).

Definition Plus (a : re) : re := Seq a (Star a).

Definition chr_eq (c : ascii) : ascii -> bool := Ascii.eqb c.

Fixpoint Lit (s : string) : re :=
  match s with
  | EmptyString => Eps
  | String a r => Seq (Chr (chr_eq a)) (Lit r)
  end.

(** Group captures, most recent first. *)
Definition caps := list (nat * string).

Fixpoint group (n : nat) (c : caps) : option string :=
  match c with
  | [] => None
  | (i, s) :: r => if Nat.eqb i n then Some s else group n r
  end.

(** The text consumed between the suffix [s] and its suffix [s']. *)
Definition consumed (s s' : string) : string :=
  substring 0 (String.length s - String.length s') s.

Definition result := option (string * caps).

(** [run r s c k]: match [r] at the start of [s] with captures [c], then
    continue with [k] on the rest; [None] when every way of matching fails.
    A repetition stops when an iteration consumes no character. *)
Fixpoint run (r : re) (s : string) (c : caps)
    (k : string -> caps -> result) {struct r} : result :=
  match r with
  | Eps => k s c
  | Chr p =>
      match s with
      | String a s' => if p a then k s' c else None
      | EmptyString => None
      end
  | Seq a b => run a s c (fun s' c' => run b s' c' k)
  | Alt a b =>
      match run a s c k with
      | Some x => Some x
      | None => run b s c k
      end
  | Star a =>
      (fix loop (n : nat) (s : string) (c : caps) {struct n} : result :=
         match n with
         | O => k s c
         | S n' =>
             match run a s c (fun s' c' =>
                     if Nat.ltb (String.length s') (String.length s)
                     then loop n' s' c' else None) with
             | Some x => Some x
             | None => k s c
             end
         end) (String.length s) s c
  | LazyStar a =>
      (fix loop (n : nat) (s : string) (c : caps) {struct n} : result :=
         match k s c with
         | Some x => Some x
         | None =>
             match n with
             | O => None
             | S n' =>
                 run a s c (fun s' c' =>
                     if Nat.ltb (String.length s') (String.length s)
                     then loop n' s' c' else None)
             end
         end) (String.length s) s c
  | Group n a =>
      run a s c (fun s' c' => k s' ((n, consumed s s') :: c'))
  | NotAhead a =>
      match run a s c (fun s' c' => Some (s', c')) with
      | Some _ => None
      | None => k s c
      end
  end.

(** A match object: the text before it, [m.group()], the text after it and
    the numbered groups. *)
Record mtch := mkMatch {
  m_before : string;
  m_all : string;
  m_after : string;
  m_caps : caps
}.

Definition m_group (n : nat) (m : mtch) : option string := group n (m_caps m).

(** [pattern.match(s)] *)
Definition match_at (r : re) (s : string) : option (string * string * caps) :=
  match run r s [] (fun s' c' => Some (s', c')) with
  | Some (s', c') => Some (consumed s s', s', c')
  | None => None
  end.

(** [pattern.search(s)]: the leftmost match; [skipped] is the text already
    passed over, in reverse. *)
Fixpoint search_from (r : re) (skipped : string) (s : string) : option mtch :=
  match match_at r s with
  | Some (m, rest, c) => Some (mkMatch skipped m rest c)
  | None =>
      match s with
      | EmptyString => None
      | String a s' => search_from r (skipped ++ String a EmptyString) s'
      end
  end.

Definition search (r : re) (s : string) : option mtch := search_from r "" s.

(** The text cut into the pieces between matches and the matches, left to
    right, as [finditer] walks it.  The patterns of the converter match no
    empty text; an empty match advances by one character. *)
Inductive piece :=
| Text (s : string)
| Match (m : mtch).

Fixpoint pieces_fuel (fuel : nat) (r : re) (s : string) : list piece :=
  match fuel with
  | O => [Text s]
  | S fuel' =>
      match search r s with
      | None => [Text s]
      | Some m =>
          match m_all m, m_after m with
          | EmptyString, String a rest =>
              Text (m_before m) :: Match m :: Text (String a EmptyString)
                :: pieces_fuel fuel' r rest
          | EmptyString, EmptyString => [Text (m_before m); Match m]
          | _, rest => Text (m_before m) :: Match m :: pieces_fuel fuel' r rest
          end
      end
  end.

Definition pieces (r : re) (s : string) : list piece :=
  pieces_fuel (S (String.length s)) r s.

Definition matches (l : list piece) : list mtch :=
  flat_map (fun p => match p with Match m => [m] | Text _ => [] end) l.

(** [pattern.finditer(s)] *)
Definition finditer (r : re) (s : string) : list mtch := matches (pieces r s).

(** [pattern.findall(s)] for a pattern without groups *)
Definition findall (r : re) (s : string) : list string :=
  map m_all (finditer r s).

(** [pattern.sub(f, s)] with a function [f] as replacement, which may
    raise: [f] is called on the matches from left to right, the first
    exception ends the substitution, and the result is the text with every
    match replaced by what [f] returns for it. *)
Fixpoint render_all (f : mtch -> Py.res string) (l : list piece)
    : Py.res (list string) :=
  match l with
  | [] => Py.Ok []
  | Text t :: r => Py.bind (render_all f r) (fun o => Py.Ok (t :: o))
  | Match m :: r =>
      Py.bind (f m) (fun x => Py.bind (render_all f r) (fun o => Py.Ok (x :: o)))
  end.

Definition sub_res (r : re) (f : mtch -> Py.res string) (s : string)
    : Py.res string :=
  Py.bind (render_all f (pieces r s)) (fun o => Py.Ok (String.concat "" o)).

(** [re.split(pattern, s)] for a pattern without groups *)
Fixpoint split_pieces (cur : string) (l : list piece) : list string :=
  match l with
  | [] => [cur]
  | Text t :: r => split_pieces (cur ++ t) r
  | Match _ :: r => cur :: split_pieces "" r
  end.

Definition split (r : re) (s : string) : list string :=
  split_pieces "" (pieces r s).

(** [re.split(pattern, s, 1)]: [[s]] without a match, else the text before
    the match, groups [1..n] of the pattern ([None] for a group that did not
    take part) and the text after it. *)
Definition split1 (ngroups : nat) (r : re) (s : string) : list (option string) :=
  match search r s with
  | None => [Some s]
  | Some m =>
      Some (m_before m)
        :: (map (fun i => m_group i m) (seq 1 ngroups)
            ++ [Some (m_after m)])%list
  end.

End Re.

(** ** The patterns of the converter *)

Definition APPENDIX_RESOURCES : list string := ["ta"; "tw"].

Module Pat.
Import Re.

Definition not_gt (a : ascii) : bool := negb (Ascii.eqb a ">").
Definition not_lt (a : ascii) : bool := negb (Ascii.eqb a "<").
Definition newline : ascii := ascii_of_nat 10.
Definition any (a : ascii) : bool := negb (Ascii.eqb a newline).

Definition between (lo hi : string) (a : ascii) : bool :=
  match lo, hi with
  | String l _, String h _ =>
      (N_of_ascii l <=? N_of_ascii a)%N && (N_of_ascii a <=? N_of_ascii h)%N
  | _, _ => false
  end.

Definition alnum (a : ascii) : bool :=
  between "A" "Z" a || between "a" "z" a || between "0" "9" a.

(** a slash, a letter, a digit, [*], [_] or [-] *)
Definition link_char (a : ascii) : bool :=
  alnum a || Ascii.eqb a "/" || Ascii.eqb a "*" || Ascii.eqb a "_"
  || Ascii.eqb a "-".

(** The class [\s]: one white-space character, of one, two or three
    bytes *)
Definition ws : re :=
  Alt (Chr Py.is_space)
  (Alt (Seq (Chr (Py.byte_is 194)) (Chr Py.space2_last))
  (Alt (Seq (Chr (Py.byte_is 225)) (Seq (Chr (Py.byte_is 154)) (Chr (Py.byte_is 128))))
  (Alt (Seq (Chr (Py.byte_is 226)) (Seq (Chr (Py.byte_is 128)) (Chr Py.space3_last)))
  (Alt (Seq (Chr (Py.byte_is 226)) (Seq (Chr (Py.byte_is 129)) (Chr (Py.byte_is 159))))
       (Seq (Chr (Py.byte_is 227)) (Seq (Chr (Py.byte_is 128)) (Chr (Py.byte_is 128)))))))).

(** The pattern of [replace_rc_links].  Group 1, repeated: two opening
    square brackets, or an opening [a] tag up to the double quote that opens
    its [href].  Group 2: [rc://] and one or more link characters.  Group 3,
    repeated: two closing square brackets, or the double quote that closes
    the [href], the rest of the tag, the visible text (group 4, lazy) and
    the closing [a] tag. *)
Definition rc_links : re :=
  Seq (Star (Group 1 (Alt (Lit "[[")
                          (Seq (Lit "<a")
                               (Seq (Plus (Chr not_gt))
                                    (Lit ("href=" ++ Py.dquote)))))))
  (Seq (Group 2 (Seq (Lit "rc://") (Plus (Chr link_char))))
       (Star (Group 3 (Alt (Lit "]]")
                           (Seq (Lit Py.dquote)
                                (Seq (Star (Chr not_gt))
                                     (Seq (Lit ">")
                                          (Seq (Group 4 (LazyStar (Chr any)))
                                               (Lit "</a>"))))))))).

(** The pattern of [highlight_text] that cuts a phrase at an ellipsis:
    the ellipsis character or three dots, with optional white space on both
    sides. *)
Definition ellipsis : re :=
  Alt (Seq (Star ws) (Seq (Lit "…") (Star ws)))
      (Seq (Star ws) (Seq (Lit "...") (Star ws))).

(** The replacement of an escaped blank in [highlight_text]: group [g] is
    one or more white-space characters, or one or more times group [g+1];
    group [g+1] is an opening or closing [span] tag with optional white
    space on both sides. *)
Definition gap (g : nat) : re :=
  Group g (Alt (Plus ws)
               (Plus (Group (S g)
                  (Seq (Star ws)
                  (Seq (Lit "<")
                  (Seq (Star (Chr (chr_eq "/")))
                  (Seq (Lit "span")
                  (Seq (Star (Chr not_gt))
                  (Seq (Lit ">") (Star ws)))))))))).

(** [re.escape(part)] compiled: every character stands for itself. *)
Definition escaped (part : string) : re := Lit part.

(** The pattern that [highlight_text] builds with [re.sub] from
    [re.escape(part)] when the text holds a [span] tag: [re.escape] writes a
    blank as backslash-blank, so every blank of [part] is replaced by a
    [gap]; [g] is the number of the next group.  Returns the pattern and the
    number of the next free group. *)
Fixpoint spanned (g : nat) (part : string) : re * nat :=
  match part with
  | EmptyString => (Eps, g)
  | String a r =>
      if Ascii.eqb a " " then
        let (p, g') := spanned (S (S g)) r in (Seq (gap g) p, g')
      else
        let (p, g') := spanned g r in (Seq (Chr (chr_eq a)) p, g')
  end.

(** The negative look-ahead of [highlight_text]: the match is not followed
    by characters other than [<] and then [>], that is, it does not lie
    inside an HTML tag. *)
Definition not_in_tag : re :=
  NotAhead (Seq (Star (Chr not_lt)) (Chr (chr_eq ">"))).

(** [split_pattern] of [highlight_text] and the number of its groups *)
Definition split_pattern (text part : string) : re * nat :=
  if Py.contains "<span" text then
    let (p, g) := spanned 2 part in (Seq (Group 1 p) not_in_tag, g - 1)
  else (Seq (Group 1 (escaped part)) not_in_tag, 1).

(** The pattern of [crawl_ta_tw_deep_linking], with [re.IGNORECASE]:
    [rc://], a language of letters, digits, [_], [*] and [-], a slash, [ta]
    or [tw], a slash and one or more link characters. *)
Definition ci (c : string) (a : ascii) : bool :=
  match c with
  | String l _ =>
      Ascii.eqb a l
      || (between "a" "z" l
          && (N_of_ascii a =? N_of_ascii l - 32)%N)
  | EmptyString => false
  end.

Fixpoint LitCI (s : string) : re :=
  match s with
  | EmptyString => Eps
  | String a r => Seq (Chr (ci (String a EmptyString))) (LitCI r)
  end.

Definition lang_char (a : ascii) : bool :=
  alnum a || Ascii.eqb a "_" || Ascii.eqb a "*" || Ascii.eqb a "-".

(** The four characters beyond U+007F that a class with the letters A to Z
    matches under [re.IGNORECASE]: U+0130 and U+0131 (for i), U+017F (for s)
    and U+212A (for k), as their UTF-8 bytes *)
Definition folded : re :=
  Alt (Seq (Chr (Py.byte_is 196)) (Chr (Py.byte_is 176)))
  (Alt (Seq (Chr (Py.byte_is 196)) (Chr (Py.byte_is 177)))
  (Alt (Seq (Chr (Py.byte_is 197)) (Chr (Py.byte_is 191)))
       (Seq (Chr (Py.byte_is 226)) (Seq (Chr (Py.byte_is 132)) (Chr (Py.byte_is 170)))))).

Definition ta_tw_links : re :=
  Seq (LitCI "rc://")
  (Seq (Plus (Alt (Chr lang_char) folded))
  (Seq (Lit "/")
  (Seq (Alt (LitCI "ta") (LitCI "tw"))
  (Seq (Lit "/") (Plus (Alt (Chr link_char) folded)))))).

End Pat.

(** ** The environment of a build *)

(** The attributes that [ResourceContainerLink(rc_link)] derives from a link
    text once [rc.lang_code] is set (rc_link.py is not part of the
    sources). *)
Record link_fields := mkFields {
  f_rc_link : string;
  f_resource : string;
  f_project : string;
  f_path : string;
  f_extra_information : list string;
  f_article_id : string;
  f_title : string;
  f_toc_title : string
}.

(** What the converter is configured with and what it reads from outside:
    the module constant [APPENDIX_LINKING_LEVEL], [self.lang_code], the
    link class, the cloned repositories ([self.resources[name].repo_dir]),
    the file system, the markdown renderer and the locale bundle. *)
Record env := mkEnv {
  APPENDIX_LINKING_LEVEL : Z;
  lang_code : string;
  link_parse : string -> string -> link_fields;
  repo_dir : string -> string;
  exists_ : string -> bool;
  isfile : string -> bool;
  (** lines 712-733 of [get_ta_article_html]: from the file path and the
      project, the title, the top box and the body with its links fixed *)
  ta_content : string -> string -> string * string * string;
  (** lines 791-793 of [get_tw_article_html]: from the file path and the
      group, the body with headers increased and links fixed *)
  tw_content : string -> string -> string;
  translate : string -> string
}.

(** The value of [APPENDIX_LINKING_LEVEL] in the source *)
Definition DEFAULT_APPENDIX_LINKING_LEVEL : Z := 1.

(** [ResourceContainerLink(rc_link, linking_level=l)] followed by
    [rc.lang_code = self.lang_code].
    Modelled from the spec: a new record has no body and no
    back-references (rc_link.py is not part of the sources). *)
Definition new_rc (e : env) (raw : string) (l : Z) : RC :=
  let f := link_parse e raw (lang_code e) in
  mkRC (f_rc_link f) (f_resource f) (f_project f) (f_path f)
       (f_extra_information f) (f_article_id f) (f_title f) (f_toc_title f)
       "" l [].

(** ** State and exceptions *)

(** The outcome of a method: it returns, it raises, or the model gives up
    ([Stuck]: the fuel of the recursion is used up, or a reference designates
    no stored record).  The state is the one reached at that point. *)
Inductive outcome (A : Type) :=
| Done (a : A) (s : state)
| Raised (x : Py.exn) (s : state)
| Stuck (s : state).
Arguments Done {A} a s.
Arguments Raised {A} x s.
Arguments Stuck {A} s.

Definition state_of {A : Type} (o : outcome A) : state :=
  match o with
  | Done _ s => s
  | Raised _ s => s
  | Stuck s => s
  end.

Definition M (A : Type) := state -> outcome A.

Definition ret {A : Type} (a : A) : M A := fun s => Done a s.

Definition bindM {A B : Type} (m : M A) (f : A -> M B) : M B :=
  fun s =>
    match m s with
    | Done a s' => f a s'
    | Raised x s' => Raised x s'
    | Stuck s' => Stuck s'
    end.

Definition raise {A : Type} (x : Py.exn) : M A := fun s => Raised x s.
Definition stuck {A : Type} : M A := fun s => Stuck s.
Definition get_state : M state := fun s => Done s s.
Definition modify (f : state -> state) : M unit := fun s => Done tt (f s).

Notation "x <- m ;; k" := (bindM m (fun x => k))
  (at level 61, m at next level, right associativity).
Notation "m ;;; k" := (bindM m (fun _ => k))
  (at level 61, right associativity).

(** A record stored in one of the two registries, designated by its key. *)
Inductive ref :=
| InRcs (k : string)
| InAppendix (k : string).

Definition lookup_ref (r : ref) (s : state) : option RC :=
  match r with
  | InRcs k => Dict.get k (rcs s)
  | InAppendix k => Dict.get k (appendix_rcs s)
  end.

(** Reading the record behind a reference *)
Definition deref (r : ref) : M RC :=
  fun s =>
    match lookup_ref r s with
    | Some rc => Done rc s
    | None => Stuck s
    end.

(** The record behind a reference replaced by [rc] *)
Definition store (r : ref) (rc : RC) (s : state) : state :=
  match r with
  | InRcs k => with_rcs (Dict.set k rc (rcs s)) s
  | InAppendix k => with_appendix_rcs (Dict.set k rc (appendix_rcs s)) s
  end.

(** Assigning to an attribute of the record behind a reference *)
Definition update (r : ref) (f : RC -> RC) : M unit :=
  fun s =>
    match lookup_ref r s with
    | Some rc => Done tt (store r (f rc) s)
    | None => Stuck s
    end.

(** ** The article loaders *)

Definition nl : string := String (ascii_of_nat 10) EmptyString.

(** [os.path.join] of relative components *)
Definition path_join (l : list string) : string := Py.join "/" l.

Definition anchor (rc : RC) : string :=
  "<a href=" ++ Py.dquote ++ "#" ++ article_id rc ++ Py.dquote ++ ">"
    ++ title rc ++ "</a>".

(** The [for] loop of [get_go_back_to_html]; [self.rcs[rc_link]] raises
    [KeyError] for a link that is no key of the primary registry. *)
Fixpoint go_back_references (e : env) (s : state) (refs : list string)
    : Py.res (list string) :=
  match refs with
  | [] => Py.Ok []
  | l :: r =>
      match Dict.get l (rcs s) with
      | None => Py.Raise Py.KeyError
      | Some rc =>
          Py.bind (go_back_references e s r) (fun o =>
            Py.Ok (if (linking_level rc <? APPENDIX_LINKING_LEVEL e)%Z
                   then anchor rc :: o else o))
      end
  end.

(** [get_go_back_to_html(self, source_rc)] *)
Definition get_go_back_to_html (e : env) (source_rc : RC) : M string :=
  fun s =>
    match go_back_references e s (references source_rc) with
    | Py.Raise x => Raised x s
    | Py.Ok [] => Done "" s
    | Py.Ok refs =>
        Done (nl ++ "    <p class=" ++ Py.dquote ++ "go-back" ++ Py.dquote ++ ">"
              ++ nl ++ "        (<b>" ++ translate e "go_back_to" ++ ":</b> "
              ++ Py.join "; " refs ++ ")" ++ nl ++ "    </p>" ++ nl) s
    end.

(** [bad_names] of [get_ta_article_html] *)
Definition ta_bad_names : Dict.t string :=
  [("figs-abstractnoun", "translate/figs-abstractnouns")].

(** [get_ta_article_html(self, rc, source_rc)]; [rc] is a record that is
    not stored yet, the loader returns it with its body set.  A fix is a
    link object, recorded in the ledger by its link text. *)
Definition get_ta_article_html (e : env) (rc : RC) (source_rc : option RC)
    : M RC :=
  let file_path0 :=
    path_join [repo_dir e (resource rc); project rc; path rc; "01.md"] in
  let '(fix_, file_path) :=
    if negb (isfile e file_path0) then
      match Dict.get (path rc) ta_bad_names with
      | Some alt_path =>
          (Some ("rc://" ++ lang_code e ++ "/ta/man/" ++ alt_path),
           path_join [repo_dir e "ta"; alt_path; "01.md"])
      | None => (None, file_path0)
      end
    else (None, file_path0) in
  if isfile e file_path then
    (match fix_, source_rc with
     | Some _, Some _ => modify (add_bad_link source_rc rc fix_)
     | _, _ => ret tt
     end) ;;;
    let '(title_, top_box, body) := ta_content e file_path (project rc) in
    go_back <- get_go_back_to_html e rc ;;
    ret (set_article
           (nl ++ "    <article id=" ++ Py.dquote ++ article_id rc ++ Py.dquote
            ++ ">" ++ nl ++ "        <h2 class=" ++ Py.dquote ++ "section-header"
            ++ Py.dquote ++ ">" ++ title_ ++ "</h2>" ++ nl ++ "        "
            ++ top_box ++ nl ++ "        " ++ body ++ nl ++ "        "
            ++ go_back ++ nl ++ "    </article>" ++ nl) rc)
  else
    modify (add_bad_link source_rc rc None) ;;; ret rc.

(** [bad_names] of [get_tw_article_html] *)
Definition tw_bad_names : Dict.t string := [("live", "bible/kt/life")].

(** [re.sub(r'^old', new, s)] for a literal [old] *)
Definition sub_prefix (old new s : string) : string :=
  if String.prefix old s then new ++ Py.drop (String.length old) s else s.

(** [l[-1]] and [l[0]] *)
Definition last_of (l : list string) : Py.res string :=
  match l with
  | [] => Py.Raise Py.IndexError
  | x :: r => Py.Ok (last r x)
  end.

Definition first_of (l : list string) : Py.res string :=
  match l with
  | [] => Py.Raise Py.IndexError
  | x :: _ => Py.Ok x
  end.

Definition lift {A : Type} (x : Py.res A) : M A :=
  fun s => match x with Py.Ok a => Done a s | Py.Raise y => Raised y s end.

(** [get_tw_article_html(self, rc, source_rc)] *)
Definition get_tw_article_html (e : env) (rc : RC) (source_rc : option RC)
    : M RC :=
  let file_path0 :=
    path_join [repo_dir e (resource rc); project rc; path rc ++ ".md"] in
  found <-
    (if negb (exists_ e file_path0) then
       last_ <- lift (last_of (extra_information rc)) ;;
       let path2 :=
         match Dict.get last_ tw_bad_names with
         | Some p => p
         | None =>
             if String.prefix "bible/other/" (path rc)
             then sub_prefix "bible/other/" "bible/kt/" (path rc)
             else sub_prefix "bible/kt/" "bible/other/" (path rc)
         end in
       ret (Some ("rc://" ++ lang_code e ++ "/tw/dict/" ++ path2),
            path_join [repo_dir e (resource rc); project rc; path2 ++ ".md"])
     else ret (None, file_path0)) ;;
  let '(fix_, file_path) := found in
  if isfile e file_path then
    (if truthy_fix fix_ then modify (add_bad_link source_rc rc fix_)
     else ret tt) ;;;
    s <- get_state ;;
    if negb (Dict.mem (rc_link rc) (appendix_rcs s)) then
      group <- lift (first_of (extra_information rc)) ;;
      go_back <- get_go_back_to_html e rc ;;
      ret (set_article
             ("                " ++ nl ++ "    <article id=" ++ Py.dquote
              ++ article_id rc ++ Py.dquote ++ ">" ++ nl ++ "        "
              ++ tw_content e file_path group ++ nl ++ "        " ++ go_back
              ++ nl ++ "    </article>") rc)
    else ret rc
  else
    match source_rc with
    | None => raise Py.AttributeError
    | Some src => modify (tw_record_missing src rc) ;;; ret rc
    end.

(** ** The appendix crawler *)

(** The insertion [self.appendix_rcs[rc.rc_link] = rc] *)
Definition insert_appendix (rc : RC) (s : state) : state :=
  with_appendix_rcs (Dict.set (rc_link rc) rc (appendix_rcs s)) s.

(** One round of the [for rc_link in rc_links] loop of
    [crawl_ta_tw_deep_linking] for the link text [raw]; [crawl] is the
    recursive call.  The source is read through its reference each time the
    code reads an attribute of [source_rc].  Cloning a resource that is not
    among [self.resources] ([setup_resource]) touches none of the attributes
    modelled here. *)
Definition crawl_link (e : env) (crawl : ref -> M unit) (source : ref)
    (raw : string) : M unit :=
  source_rc <- deref source ;;
  let rc := new_rc e raw (linking_level source_rc + 1) in
  s <- get_state ;;
  if Dict.mem (rc_link rc) (rcs s) || Dict.mem (rc_link rc) (appendix_rcs s)
  then
    let target := if Dict.mem (rc_link rc) (rcs s) then InRcs (rc_link rc)
                  else InAppendix (rc_link rc) in
    found <- deref target ;;
    source_rc <- deref source ;;
    (if (linking_level found >? linking_level source_rc + 1)%Z
     then update target (set_linking_level (linking_level source_rc + 1))
     else ret tt) ;;;
    source_rc <- deref source ;;
    update target (add_reference source_rc)
  else if negb (Py.mem_str (resource rc) APPENDIX_RESOURCES) then ret tt
  else
    modify (fun s => with_fetched
                       (fetched s ++ [(rc_link rc, linking_level rc)])%list s) ;;;
    source_rc <- deref source ;;
    rc <- (if String.eqb (resource rc) "ta"
           then get_ta_article_html e rc (Some source_rc)
           else if String.eqb (resource rc) "tw"
           then get_tw_article_html e rc (Some source_rc)
           else ret rc) ;;
    if truthy_str (article rc) then
      modify (insert_appendix rc) ;;;
      crawl (InAppendix (rc_link rc))
    else
      source_rc <- deref source ;;
      modify (add_bad_link (Some source_rc) rc None).

(** The [for] loop over the links found in the body of the source *)
Fixpoint crawl_links (e : env) (crawl : ref -> M unit) (source : ref)
    (rc_links : list string) : M unit :=
  match rc_links with
  | [] => ret tt
  | raw :: rest =>
      crawl_link e crawl source raw ;;; crawl_links e crawl source rest
  end.

(** [crawl_ta_tw_deep_linking(self, source_rc)]; [fuel] bounds the depth of
    the recursion. *)
Fixpoint crawl (e : env) (fuel : nat) (source : ref) : M unit :=
  match fuel with
  | O => stuck
  | S fuel' =>
      source_rc <- deref source ;;
      if (linking_level source_rc >? APPENDIX_LINKING_LEVEL e + 1)%Z then ret tt
      else
        crawl_links e (crawl e fuel') source
          (Re.findall Pat.ta_tw_links (article source_rc))
  end.

(** The depth of recursion that a source of linking level [l] can reach *)
Definition crawl_fuel (e : env) (l : Z) : nat :=
  Z.to_nat (Z.max 1 (APPENDIX_LINKING_LEVEL e + 3 - l)).

Definition crawl_ta_tw_deep_linking (e : env) (source : ref) : M unit :=
  source_rc <- deref source ;;
  crawl e (crawl_fuel e (linking_level source_rc)) source.

(** The loop of [get_appendix_rcs] over the keys of the primary registry *)
Fixpoint crawl_all (e : env) (keys : list string) : M unit :=
  match keys with
  | [] => ret tt
  | k :: rest => crawl_ta_tw_deep_linking e (InRcs k) ;;; crawl_all e rest
  end.

(** [get_appendix_rcs(self)] *)
Definition get_appendix_rcs (e : env) : M unit :=
  s <- get_state ;; crawl_all e (Dict.keys (rcs s)).

(** *** The steps of a crawl

    The changes of the state that a crawl is made of, for a crawl whose
    sources have linking level [L] or more: a stored record is given a
    smaller linking level, a stored record is given a back-reference, a
    record is handed to a loader, the ledger changes, a record that is in
    neither registry is inserted into the appendix. *)
Inductive step (e : env) (L : Z) (s : state) : state -> Prop :=
| step_lower (target : ref) (found : RC) (l : Z) :
    lookup_ref target s = Some found ->
    (L <= l <= APPENDIX_LINKING_LEVEL e + 1)%Z ->
    (linking_level found > l + 1)%Z ->
    step e L s (store target (set_linking_level (l + 1) found) s)
| step_reference (target : ref) (found source_rc : RC) :
    lookup_ref target s = Some found ->
    step e L s (store target (add_reference source_rc found) s)
| step_fetch (link : string) (l : Z) :
    (L + 1 <= l <= APPENDIX_LINKING_LEVEL e + 2)%Z ->
    step e L s (with_fetched (fetched s ++ [(link, l)])%list s)
| step_ledger (b : ledger) :
    step e L s (with_bad_links b s)
| step_insert (rc : RC) :
    Dict.mem (rc_link rc) (rcs s) = false ->
    Dict.mem (rc_link rc) (appendix_rcs s) = false ->
    (L + 1 <= linking_level rc <= APPENDIX_LINKING_LEVEL e + 2)%Z ->
    references rc = [] ->
    step e L s (insert_appendix rc s).

Inductive steps (e : env) (L : Z) : state -> state -> Prop :=
| steps_refl s : steps e L s s
| steps_cons s1 s2 s3 : step e L s1 s2 -> steps e L s2 s3 -> steps e L s1 s3.

(** No link is a key of both registries. *)
Definition disjoint (s : state) : Prop :=
  forall k, Dict.mem k (rcs s) = true -> Dict.mem k (appendix_rcs s) = false.

(** Every record of the appendix and every record handed to a loader has a
    linking level of at most [APPENDIX_LINKING_LEVEL + 2]. *)
Definition within_bound (e : env) (s : state) : Prop :=
  (forall k rc, Dict.get k (appendix_rcs s) = Some rc ->
                (linking_level rc <= APPENDIX_LINKING_LEVEL e + 2)%Z)
  /\ (forall k l, In (k, l) (fetched s) ->
                  (l <= APPENDIX_LINKING_LEVEL e + 2)%Z).

(** The record [r'] is the record [r] at a later time: same link and body,
    a linking level that is not greater, the same back-references and
    possibly more. *)
Definition evolves (r r' : RC) : Prop :=
  rc_link r' = rc_link r /\ article r' = article r
  /\ (linking_level r' <= linking_level r)%Z
  /\ exists more, references r' = (references r ++ more)%list.

Definition is_stuck {A : Type} (o : outcome A) : Prop :=
  match o with Stuck _ => True | _ => False end.

(** What a loader may do with the state [s] and the record [rc] it is
    given: it changes the ledger only, it returns or raises, and the record
    it returns is [rc], with a body or as it was. *)
Definition loads (rc : RC) (o : outcome RC) (s : state) : Prop :=
  (exists b, state_of o = with_bad_links b s)
  /\ ~ is_stuck o
  /\ forall rc' s', o = Done rc' s' ->
       rc' = rc \/ exists html, rc' = set_article html rc.

(** The outcome [o] of a part of a crawl started in [s]: the state it
    reaches is reached by steps of the crawl, and under the condition [T]
    (enough fuel) the model does not give up. *)
Definition good {A : Type} (T : Prop) (e : env) (L : Z) (s : state)
    (o : outcome A) : Prop :=
  steps e L s (state_of o) /\ (T -> ~ is_stuck o).

(** What holds between the state [s] before a crawl and the state [s']
    during or after it: the keys of the primary registry are the same,
    disjointness and the bound on linking levels are kept, every stored
    record is still stored and has evolved. *)
Definition crawl_invariant (e : env) (s s' : state) : Prop :=
  Dict.keys (rcs s') = Dict.keys (rcs s)
  /\ (disjoint s -> disjoint s')
  /\ (within_bound e s -> within_bound e s')
  /\ (forall r rc, lookup_ref r s = Some rc ->
         exists rc', lookup_ref r s' = Some rc' /\ evolves rc rc').

(** *** An article that is not found *)

(** The file of a manual article is neither where the link says nor, for a
    name of [bad_names], where the right name says. *)
Definition ta_not_found (e : env) (rc : RC) : Prop :=
  isfile e (path_join [repo_dir e (resource rc); project rc; path rc; "01.md"])
  = false
  /\ forall alt_path,
       Dict.get (path rc) ta_bad_names = Some alt_path ->
       isfile e (path_join [repo_dir e "ta"; alt_path; "01.md"]) = false.

(** [path2] of [get_tw_article_html] for a record whose last component is
    [last_] *)
Definition tw_other_path (rc : RC) (last_ : string) : string :=
  match Dict.get last_ tw_bad_names with
  | Some p => p
  | None =>
      if String.prefix "bible/other/" (path rc)
      then sub_prefix "bible/other/" "bible/kt/" (path rc)
      else sub_prefix "bible/kt/" "bible/other/" (path rc)
  end.

(** The file of a word article is not found: what the link names exists
    but is no file, or it does not exist and there is no file at the other
    path either. *)
Definition tw_not_found (e : env) (rc : RC) : Prop :=
  (exists_ e (path_join [repo_dir e (resource rc); project rc; path rc ++ ".md"])
   = true
   /\ isfile e (path_join [repo_dir e (resource rc); project rc; path rc ++ ".md"])
      = false)
  \/ (exists_ e (path_join [repo_dir e (resource rc); project rc; path rc ++ ".md"])
      = false
      /\ exists x l,
           extra_information rc = x :: l
           /\ isfile e (path_join [repo_dir e (resource rc); project rc;
                                    tw_other_path rc (last l x) ++ ".md"])
              = false).

(** *** The ledger over a crawl *)

(** The link [k] is a key of one of the registries. *)
Definition stored (k : string) (s : state) : bool :=
  Dict.mem k (rcs s) || Dict.mem k (appendix_rcs s).

(** Every entry of the ledger that holds a fix is for a stored target:
    the loaders record a fix only for an article that they load, and the
    crawl inserts it right after. *)
Definition fixes_stored (s : state) : Prop :=
  forall sl tl f,
    ledger_get sl tl (bad_links s) = Some f -> truthy_fix f = true ->
    stored tl s = true.

(** The value [v'] of an entry that held [v]: the same, or a fix where
    there was none. *)
Definition entry_kept (v v' : option string) : Prop :=
  v' = v \/ (truthy_fix v = false /\ truthy_fix v' = true).

(** From the ledger [b] to the ledger [b']: no entry is removed, and every
    entry is kept. *)
Definition append_only (b b' : ledger) : Prop :=
  forall sl tl v,
    ledger_get sl tl b = Some v ->
    exists v', ledger_get sl tl b' = Some v' /\ entry_kept v v'.

(** From the state [s] to the state [s'] of a crawl: what is stored stays
    stored, and from a state whose fixes are for stored targets the ledger
    is appended to only and its fixes are again for stored targets. *)
Definition ledger_safe (s s' : state) : Prop :=
  (forall k, stored k s = true -> stored k s' = true)
  /\ (fixes_stored s ->
      append_only (bad_links s) (bad_links s') /\ fixes_stored s').

(** ** Rewriting the links *)

(** [s if s else d] for an optional text *)
Definition or_else (s : option string) (d : string) : string :=
  match s with
  | Some t => if truthy_str t then t else d
  | None => d
  end.

Definition truthy_opt (s : option string) : bool :=
  match s with Some t => truthy_str t | None => false end.

Definition opt_eqb (s : option string) (t : string) : bool :=
  match s with Some u => String.eqb u t | None => false end.

(** [left + mid + right]; adding [None] to a text raises [TypeError]. *)
Definition add3 (left : option string) (mid : string) (right : option string)
    : Py.res string :=
  match left, right with
  | Some l, Some r => Py.Ok (l ++ mid ++ r)
  | _, _ => Py.Raise Py.TypeError
  end.

(** [replace_rc(self, match)] *)
Definition replace_rc (e : env) (s : state) (m : Re.mtch) : Py.res string :=
  let left := Re.m_group 1 m in
  let rc_link := match Re.m_group 2 m with Some l => l | None => "" end in
  let right := Re.m_group 3 m in
  let title_ := Re.m_group 4 m in
  match Dict.get rc_link (all_rcs s) with
  | Some rc =>
      if (truthy_opt left && truthy_opt right
          && opt_eqb left "[[" && opt_eqb right "]]")
         || (negb (truthy_opt left) && negb (truthy_opt right))
      then
        if (linking_level rc <=? APPENDIX_LINKING_LEVEL e)%Z
        then Py.Ok ("<a href=" ++ Py.dquote ++ "#" ++ article_id rc
                      ++ Py.dquote ++ ">" ++ title rc ++ "</a>")
        else Py.Ok (title rc)
      else
        if truthy_str (article rc)
        then add3 left (article_id rc) right
        else Py.Ok (or_else title_ (title rc))
  | None => Py.Ok (or_else title_ rc_link)
  end.

(** [replace_rc_links(self, text)]; the method does not assign to any
    attribute of [self], so the state comes back as it went in. *)
Definition replace_rc_links (e : env) (s : state) (text : string)
    : Py.res string * state :=
  (Re.sub_res Pat.rc_links (replace_rc e s) text, s).

(** The delimiters of a match pair up: none on either side, square
    brackets on both sides, or an [a] tag on both sides. *)
Definition well_formed (m : Re.mtch) : bool :=
  match Re.m_group 1 m, Re.m_group 3 m with
  | None, None => true
  | Some l, Some r =>
      (String.eqb l "[[" && String.eqb r "]]")
      || (String.prefix "<a" l && String.prefix Py.dquote r)
  | _, _ => false
  end.

(** The pieces of a text with the matches replaced, in order, by the
    outputs [outs] *)
Fixpoint weave (l : list Re.piece) (outs : list string) : list string :=
  match l with
  | [] => []
  | Re.Text t :: r => t :: weave r outs
  | Re.Match _ :: r =>
      match outs with
      | o :: os => o :: weave r os
      | [] => weave r []
      end
  end.

(** ** The phrase highlighter *)

(** [splits[i]] inside an f-string or a concatenation *)
Definition item (i : nat) (splits : list (option string)) : string :=
  match nth_error splits i with
  | Some (Some s) => s
  | Some None => "None"
  | None => ""
  end.

(** [splits[-1]] *)
Definition last_item (splits : list (option string)) : string :=
  match last splits (Some "") with
  | Some s => s
  | None => "None"
  end.

Definition span_of (classes body : string) : string :=
  "<span class=" ++ Py.dquote ++ classes ++ Py.dquote ++ ">" ++ body ++ "</span>".

(** The [for] loop of [highlight_text] over the parts of the phrase;
    [nparts] is [len(parts)].  Returns [processed_text] and
    [to_process_text]. *)
Fixpoint highlight_parts (text : string) (nparts : nat) (parts : list string)
    (processed_text to_process_text : string) : string * string :=
  match parts with
  | [] => (processed_text, to_process_text)
  | part :: rest =>
      if negb (Py.strip_nonempty part)
      then highlight_parts text nparts rest processed_text to_process_text
      else
        let (split_pattern, n) := Pat.split_pattern text part in
        let splits := Re.split1 n split_pattern to_process_text in
        let processed1 := processed_text ++ item 0 splits in
        if Nat.ltb 1 (List.length splits) then
          let highlight_classes :=
            "highlight" ++ (if Nat.ltb 1 nparts then " split" else "") in
          let processed2 := processed1 ++ span_of highlight_classes (item 1 splits) in
          let to_process' :=
            if Nat.ltb 2 (List.length splits) then last_item splits
            else to_process_text in
          highlight_parts text nparts rest processed2 to_process'
        else highlight_parts text nparts rest processed1 to_process_text
  end.

(** [highlight_text(self, text, phrase)].  When a part is not found,
    [splits] is the one text [to_process_text]: it is added to
    [processed_text] in the loop and, [to_process_text] being left as it
    is, once more after the loop. *)
Definition highlight_text (text phrase : string) : string :=
  let parts := Re.split Pat.ellipsis phrase in
  let (processed_text, to_process_text) :=
    highlight_parts text (List.length parts) parts "" text in
  if truthy_str to_process_text then processed_text ++ to_process_text
  else processed_text.

(** [phrases.sort(key=len, reverse=True)]: a stable sort, phrases of equal
    length keep their order. *)
Fixpoint insert_by_len (x : string) (l : list string) : list string :=
  match l with
  | [] => [x]
  | y :: r =>
      if Nat.leb (Py.py_len y) (Py.py_len x) then x :: y :: r
      else y :: insert_by_len x r
  end.

Definition sort_by_len_desc (l : list string) : list string :=
  fold_right insert_by_len [] l.

(** A text without the characters [<] and [>] *)
Definition markup_free (s : string) : bool :=
  negb (Py.char_in "<" s) && negb (Py.char_in ">" s).

(** [split_pattern] for a text without [span] tag: the phrase as it is, not
    inside a tag *)
Definition literal (p : string) : Re.re :=
  Re.Seq (Re.Group 1 (Pat.escaped p)) Pat.not_in_tag.

(** The phrase [p] occurs in no text [a2 ++ p ++ b] for a non-empty end
    [a2] of [a]: its occurrence after [a] is the first one. *)
Fixpoint first_at (p a b : string) : bool :=
  match a with
  | EmptyString => true
  | String c a' => negb (String.prefix p (a ++ p ++ b)) && first_at p a' b
  end.

(** The first of the characters [<] and [>] in [s], if there is one, is
    [<]: a text that is followed by [s] does not lie inside a tag. *)
Fixpoint outside_tag (s : string) : bool :=
  match s with
  | EmptyString => true
  | String c r =>
      if Ascii.eqb c "<" then true
      else if Ascii.eqb c ">" then false
      else outside_tag r
  end.

(** The opening tag of [span_of] *)
Definition span_open (classes : string) : string :=
  "<span class=" ++ Py.dquote ++ classes ++ Py.dquote ++ ">".

(** Order of the phrases after the sort: not shorter than what follows *)
Definition not_shorter (a b : string) : Prop := Py.py_len b <= Py.py_len a.

(** A note [{phrase: alt}].  The highlighter keeps its notes in
    [self.bad_links], the dict that [add_bad_link] writes: under a key the
    dict holds either the links recorded for a source ([Links], target to
    fix) or [{'text': ..., 'notes': [...]}] ([Notes]). *)
Definition note := (string * option string)%type.

Inductive ledger_entry :=
| Links (inner : Dict.t (option string))
| Notes (text : string) (notes : list note).

Definition highlight_ledger := Dict.t ledger_entry.

(** The ledger of [add_bad_link] as the highlighter finds it *)
Definition of_links (b : ledger) : highlight_ledger :=
  map (fun kv => (fst kv, Links (snd kv))) b.

Definition lsq : string := "‘".
Definition rsq : string := "’".
Definition ldq : string := "“".
Definition rdq : string := "”".

(** The list [alt_phrase] of quotation-mark variants of a phrase *)
Definition alt_phrases (phrase : string) : list string :=
  let straight p :=
    Py.replace rdq Py.dquote (Py.replace ldq Py.dquote
      (Py.replace rsq "'" (Py.replace lsq "'" p))) in
  let curly p :=
    Py.replace1 rdq ldq (Py.replace Py.dquote rdq
      (Py.replace1 rsq lsq (Py.replace "'" rsq p))) in
  [ straight phrase;
    curly phrase;
    straight phrase;
    curly phrase;
    Py.replace rdq Py.dquote (Py.replace ldq Py.dquote phrase);
    Py.replace1 rdq ldq (Py.replace Py.dquote rdq phrase);
    Py.replace1 rsq lsq (Py.replace "'" rsq phrase);
    Py.replace "'" rsq phrase;
    Py.replace rsq "'" phrase;
    Py.replace lsq "'" phrase ].

(** The inner [for alt_phrase in alt_phrase] loop: the first variant that
    changes [orig_text]. *)
Fixpoint first_alt (orig_text : string) (alts : list string) : option string :=
  match alts with
  | [] => None
  | a :: r =>
      if negb (String.eqb orig_text (highlight_text orig_text a)) then Some a
      else first_alt orig_text r
  end.

(** The [for phrase in phrases] loop of [highlight_text_with_phrases].
    [self.bad_links[rc]['notes'].append(bad_note)] raises [KeyError] when
    the entry under [rc] is one of [add_bad_link] without the key [notes],
    and [AttributeError] when it has a target of that name, whose fix is
    no list.  The ledger is returned as it is when the loop ends or
    raises. *)
Fixpoint highlight_loop (orig_text rc : string) (ignore : list string)
    (phrases : list string) (highlighted_text : string) (b : highlight_ledger)
    : Py.res string * highlight_ledger :=
  match phrases with
  | [] => (Py.Ok highlighted_text, b)
  | phrase :: rest =>
      let new_highlighted_text := highlight_text highlighted_text phrase in
      if negb (String.eqb new_highlighted_text highlighted_text) then
        highlight_loop orig_text rc ignore rest new_highlighted_text b
      else if negb (match ignore with [] => false | _ => true end)
              || negb (Py.mem_str phrase ignore) then
        let b1 := if Dict.mem rc b then b else Dict.set rc (Notes orig_text []) b in
        let bad_note := (phrase, first_alt orig_text (alt_phrases phrase)) in
        match Dict.get rc b1 with
        | Some (Notes t notes) =>
            highlight_loop orig_text rc ignore rest highlighted_text
              (Dict.set rc (Notes t (notes ++ [bad_note])%list) b1)
        | Some (Links inner) =>
            (Py.Raise (if Dict.mem "notes" inner then Py.AttributeError
                       else Py.KeyError), b1)
        | None => (Py.Raise Py.KeyError, b1)
        end
      else highlight_loop orig_text rc ignore rest highlighted_text b
  end.

(** [highlight_text_with_phrases(self, orig_text, phrases, rc, ignore)] *)
Definition highlight_text_with_phrases (orig_text : string)
    (phrases : list string) (rc : string) (ignore : list string)
    (b : highlight_ledger) : Py.res string * highlight_ledger :=
  highlight_loop orig_text rc ignore (sort_by_len_desc phrases) orig_text b.

(** The key [rc] holds no entry of [add_bad_link] *)
Definition no_links_under (rc : string) (b : highlight_ledger) : Prop :=
  match Dict.get rc b with
  | Some (Links _) => False
  | _ => True
  end.

(** ** The table of contents *)

(** [for rc_link, rc in self.all_rcs: ...] of [get_rc_by_article_id]:
    iterating over a dict yields its keys, so the first round unpacks the
    first key, a text, into the two targets.  A text of another length than
    two raises [ValueError]; for a text of length two [rc] is the
    one-character text after the first, and [rc.article_id] raises
    [AttributeError].  Over an empty dict the loop body never runs and the
    method returns [None]. *)
Definition get_rc_by_article_id (s : state) (article_id : option string)
    : Py.res (option RC) :=
  match Dict.keys (all_rcs s) with
  | [] => Py.Ok None
  | k :: _ =>
      if Nat.eqb (Py.py_len k) 2 then Py.Raise Py.AttributeError
      else Py.Raise Py.ValueError
  end.

(** A heading found by [soup.find_all] with the class [section-header]:
    the digit of its tag name, its [id] attribute, and the [id] attribute of
    the nearest enclosing [section] or [article] ([None] when there is no
    such element, [Some None] when it has no [id]). *)
Record header := mkHeader {
  h_level : nat;
  h_id : option string;
  h_parent : option (option string)
}.

Fixpoint repeat_str (n : nat) (t : string) : string :=
  match n with
  | O => ""
  | S n' => t ++ repeat_str n' t
  end.

(** The statements of the [for header in ...] loop of [get_toc_html] that
    find the record of a heading *)
Definition header_rc (s : state) (h : header) : Py.res RC :=
  Py.bind
    (if truthy_opt (h_id h) then Py.Ok (h_id h)
     else match h_parent h with
          | None => Py.Raise Py.AttributeError
          | Some pid => Py.Ok pid
          end)
    (fun article_id =>
       Py.bind (get_rc_by_article_id s article_id) (fun rc =>
         match rc with
         | None => Py.Raise Py.AttributeError
         | Some r => Py.Ok r
         end)).

(** The [for header in ...] loop of [get_toc_html] *)
Fixpoint toc_loop (s : state) (headers : list header) (current_level : nat)
    (toc_html : string) : Py.res (string * nat) :=
  match headers with
  | [] => Py.Ok (toc_html, current_level)
  | h :: rest =>
      let level := h_level h in
      let toc1 :=
        if Nat.ltb current_level level then
          toc_html ++ repeat_str (level - current_level) (nl ++ "<ul>" ++ nl)
        else if Nat.ltb level current_level then
          toc_html ++ nl ++ "</li>" ++ nl
            ++ repeat_str (current_level - level) ("</ul>" ++ nl ++ "</li>" ++ nl)
        else if Nat.ltb 0 current_level then toc_html ++ nl ++ "</li>" ++ nl
        else toc_html in
      Py.bind (header_rc s h) (fun rc =>
        toc_loop s rest level
          (toc1 ++ "<li>" ++ nl ++ "<a href=" ++ Py.dquote ++ "#"
             ++ article_id rc ++ Py.dquote ++ "><span>" ++ toc_title rc
             ++ "</span></a>" ++ nl))
  end.

(** [get_toc_html(self, body_html)], on the headings that [BeautifulSoup]
    finds in [body_html] *)
Definition get_toc_html (e : env) (s : state) (headers : list header)
    : Py.res string :=
  Py.bind
    (toc_loop s headers 0
       (nl ++ "<article id=" ++ Py.dquote ++ "contents" ++ Py.dquote ++ ">"
        ++ nl ++ "    <h1>" ++ translate e "table_of_contents" ++ "</h1>" ++ nl))
    (fun '(toc_html, current_level) =>
       Py.Ok (toc_html
              ++ repeat_str current_level ("</li>" ++ nl ++ "</ul>" ++ nl)
              ++ "</article>")).

(** ** The bad-link report *)

(** [sorted(l)] for texts: insertion into a list ordered by code points
    (the order of the UTF-8 bytes). *)
Fixpoint insert_sorted (x : string) (l : list string) : list string :=
  match l with
  | [] => [x]
  | y :: r => if String.leb x y then x :: y :: r else y :: insert_sorted x r
  end.

Definition sorted (l : list string) : list string :=
  fold_right insert_sorted [] l.

(** One [<li>] line of the report *)
Definition report_line (source_rc_links rc_links : string)
    (fix_ : option string) : string :=
  "<li>" ++ source_rc_links ++ ": BAD RC - `" ++ rc_links ++ "`"
    ++ (match fix_ with
        | Some f => if truthy_str f then " - change to `" ++ f ++ "`" else ""
        | None => ""
        end)
    ++ "</li>" ++ nl.

(** The inner loop over [sorted(self.bad_links[source_rc_links].keys())] *)
Fixpoint report_targets (source_rc_links : string) (inner : Dict.t (option string))
    (targets : list string) : string :=
  match targets with
  | [] => ""
  | t :: rest =>
      report_line source_rc_links t
        (match Dict.get t inner with Some f => f | None => None end)
      ++ report_targets source_rc_links inner rest
  end.

(** The outer loop over [sorted(self.bad_links.keys())] *)
Fixpoint report_sources (b : ledger) (sources : list string) : string :=
  match sources with
  | [] => ""
  | src :: rest =>
      let inner := match Dict.get src b with Some i => i | None => Dict.empty end in
      report_targets src inner (sorted (Dict.keys inner))
      ++ report_sources b rest
  end.

(** The text [bad_links_html] that [save_bad_links_html] hands to the page
    template *)
Definition bad_links_html (b : ledger) : string :=
  if negb (Dict.nonempty b) then "NO BAD LINKS!"
  else nl ++ "<h1>BAD LINKS</h1>" ++ nl ++ "<ul>" ++ nl
       ++ report_sources b (sorted (Dict.keys b))
       ++ nl ++ "</ul>" ++ nl.

(** The entries of the ledger in the order of the report: referencing
    link, target link and fix *)
Definition report_entries (b : ledger) : list (string * string * option string) :=
  flat_map
    (fun src =>
       let inner := match Dict.get src b with Some i => i | None => Dict.empty end in
       map (fun t => (src, t, match Dict.get t inner with Some f => f | None => None end))
           (sorted (Dict.keys inner)))
    (sorted (Dict.keys b)).

(** The line of an entry *)
Definition entry_line (x : string * string * option string) : string :=
  let '(s, t, f) := x in report_line s t f.

(** [self.bad_links[src][t]] and [self.bad_links[src]] in the loops of the
    report *)
Definition fix_of (t : string) (inner : Dict.t (option string)) : option string :=
  match Dict.get t inner with Some f => f | None => None end.

Definition inner_of (src : string) (b : ledger) : Dict.t (option string) :=
  match Dict.get src b with Some i => i | None => Dict.empty end.

(** The order of [sorted] *)
Definition str_le (a b : string) : Prop := String.leb a b = true.

(** Order of two entries by referencing link, then by target link *)
Definition entry_le (x y : string * string * option string) : Prop :=
  let '(s1, t1, _) := x in
  let '(s2, t2, _) := y in
  String.leb s1 s2 = true /\ (s1 = s2 -> String.leb t1 t2 = true).

(** The keys of a dict are pairwise distinct, at both levels of the
    ledger. *)
Definition ledger_wf (b : ledger) : Prop :=
  NoDup (Dict.keys b)
  /\ forall s inner, Dict.get s b = Some inner -> NoDup (Dict.keys inner).

(** Two ledgers hold the same entries, whatever the order of recording. *)
Definition ledger_equiv (b1 b2 : ledger) : Prop :=
  (forall s, Dict.mem s b1 = Dict.mem s b2)
  /\ (forall s t, ledger_get s t b1 = ledger_get s t b2).

(** ** Row identifiers of the TSV files *)

Module TW2tsv.

Definition lowercase : string := "abcdefghijklmnopqrstuvwxyz".
Definition lowercase_digits : string := "abcdefghijklmnopqrstuvwxyz0123456789".

(** [random.choice(seq)] for the draw [d] of the generator: the character
    at index [d mod len(seq)] *)
Definition choice (seq : string) (d : nat) : string :=
  match String.get (d mod String.length seq) seq with
  | Some a => String a EmptyString
  | None => ""
  end.

(** The right-hand side of the assignment in the [while] loop *)
Definition make_id (d1 d2 d3 d4 : nat) : string :=
  choice lowercase d1 ++ choice lowercase_digits d2
    ++ choice lowercase_digits d3 ++ choice lowercase_digits d4.

(** [while generated_id in previous_ids: generated_id = ...]; [draws] are
    the numbers that the random generator yields from now on, each round
    takes four.  [None] when the draws are used up before the loop ends. *)
Fixpoint regenerate (draws : list nat) (previous_ids : list string)
    (generated_id : string) {struct draws} : option (string * list nat) :=
  if Py.mem_str generated_id previous_ids then
    match draws with
    | d1 :: d2 :: d3 :: d4 :: rest =>
        regenerate rest previous_ids (make_id d1 d2 d3 d4)
    | _ => None
    end
  else Some (generated_id, draws).

(** A line yielded by [get_source_lines], its fields as the f-string
    prints them *)
Record source_line := mkLine {
  BBB : string; C : string; V : string;
  word : string; occurrence : string; link : string
}.

Definition tab : string := String (ascii_of_nat 9) EmptyString.

Definition tsv_row (l : source_line) (generated_id : string) : list string :=
  [BBB l; C l; V l; generated_id; link l; word l; occurrence l;
   "GLQuote"; "OccurrenceNote"].

(** The [for] loop of [make_TSV_file]: the rows written, as lists of fields,
    and [previous_ids] at the end *)
Fixpoint write_rows (lines : list source_line) (draws : list nat)
    (previous_ids : list string) : option (list (list string) * list string) :=
  match lines with
  | [] => Some ([], previous_ids)
  | l :: rest =>
      match regenerate draws previous_ids "" with
      | None => None
      | Some (generated_id, draws') =>
          match write_rows rest draws' (previous_ids ++ [generated_id])%list with
          | None => None
          | Some (rows, ids) => Some (tsv_row l generated_id :: rows, ids)
          end
      end
  end.

(** The rows of the file that [make_TSV_file] writes after the header line *)
Definition make_TSV_file (lines : list source_line) (draws : list nat)
    : option (list (list string)) :=
  match write_rows lines draws [""] with
  | Some (rows, _) => Some rows
  | None => None
  end.

(** A lowercase letter followed by three lowercase letters or digits *)
Definition valid_id (s : string) : bool :=
  match s with
  | String a (String b (String c (String d EmptyString))) =>
      Py.char_in a lowercase && Py.char_in b lowercase_digits
      && Py.char_in c lowercase_digits && Py.char_in d lowercase_digits
  | _ => false
  end.

(** The fourth field of each row *)
Definition row_ids (rows : list (list string)) : list string :=
  map (fun r => nth 3 r "") rows.

End TW2tsv.


(** ** What is left of a text *)

(** [s'] is what is left of [s] after some first characters. *)
Definition is_suffix (s' s : string) : Prop := exists p, s = p ++ s'.

(** ** The appendix of the document *)

(** [sorted(l, key=key)] for keys that are texts: a stable sort. *)
Fixpoint insert_by_key {A : Type} (key : A -> string) (x : A) (l : list A)
    : list A :=
  match l with
  | [] => [x]
  | y :: r =>
      if String.leb (key x) (key y) then x :: y :: r
      else y :: insert_by_key key x r
  end.

Definition sorted_by {A : Type} (key : A -> string) (l : list A) : list A :=
  fold_right (insert_by_key key) [] l.

(** The [filter] of [get_appendix_html]: the records of the resource whose
    linking level is [APPENDIX_LINKING_LEVEL] *)
Definition in_appendix_of (e : env) (resource_name : string) (rc : RC) : bool :=
  String.eqb (resource rc) resource_name
  && (linking_level rc =? APPENDIX_LINKING_LEVEL e)%Z.

(** [sorted_rcs] of [get_appendix_html]; [lower] is [str.lower]. *)
Definition sorted_rcs (lower : string -> string) (e : env)
    (resource_name : string) (s : state) : list (string * RC) :=
  sorted_by (fun x => lower (title (snd x)))
    (filter (fun x => in_appendix_of e resource_name (snd x)) (appendix_rcs s)).

(** The [for item in sorted_rcs] loop *)
Fixpoint add_articles (l : list (string * RC)) (html : string) : string :=
  match l with
  | [] => html
  | item :: r =>
      add_articles r
        (if truthy_str (article (snd item)) then html ++ article (snd item)
         else html)
  end.

(** The [section] element that [get_appendix_html] puts around the
    articles *)
Definition appendix_section (e : env) (resource_name resource_title html : string)
    : string :=
  nl ++ "        <section id=" ++ Py.dquote ++ lang_code e ++ "-"
    ++ resource_name ++ Py.dquote ++ ">" ++ nl
    ++ "            <div class=" ++ Py.dquote ++ "resource-title-page"
    ++ Py.dquote ++ ">" ++ nl
    ++ "                <h1 class=" ++ Py.dquote ++ "section-header"
    ++ Py.dquote ++ ">" ++ resource_title ++ "</h1>" ++ nl
    ++ "            </div>" ++ nl
    ++ "            " ++ html ++ nl
    ++ "        </section>" ++ nl
    ++ "        ".

(** [get_appendix_html(self, resource)] for a resource of the given name
    and title *)
Definition get_appendix_html (lower : string -> string) (e : env)
    (resource_name resource_title : string) (s : state) : string :=
  let html := add_articles (sorted_rcs lower e resource_name s) "" in
  if truthy_str html
  then appendix_section e resource_name resource_title html
  else html.

(** The order of [sorted_rcs]: by title, in lower case *)
Definition by_title (lower : string -> string) (x y : string * RC) : Prop :=
  String.leb (lower (title (snd x))) (lower (title (snd y))) = true.

(** ** Heading levels *)

(** [str(n)] for an integer *)
Definition str_of_int (n : Z) : string := NilZero.string_of_int (Z.to_int n).

(** The pattern of [increase_headers] and [decrease_headers] for a level:
    the opening tag with its attributes (group 1), white space, the text of
    the heading (group 2, lazy, at least one character), white space and the
    closing tag. *)
Definition header_re (level : Z) : Re.re :=
  Re.Seq (Re.Lit ("<h" ++ str_of_int level))
  (Re.Seq (Re.Group 1 (Re.Star (Re.Chr Pat.not_gt)))
  (Re.Seq (Re.Lit ">")
  (Re.Seq (Re.Star Pat.ws)
  (Re.Seq (Re.Group 2 (Re.Seq (Re.Chr Pat.any) (Re.LazyStar (Re.Chr Pat.any))))
  (Re.Seq (Re.Star Pat.ws)
          (Re.Lit ("</h" ++ str_of_int level ++ ">"))))))).

(** The replacement template of the two functions: the heading at the new
    level with the same attributes and text *)
Definition header_at (new_level : Z) (m : Re.mtch) : string :=
  "<h" ++ str_of_int new_level
    ++ match Re.m_group 1 m with Some a => a | None => "" end ++ ">"
    ++ match Re.m_group 2 m with Some t => t | None => "" end
    ++ "</h" ++ str_of_int new_level ++ ">".

(** [re.sub(pattern, template, html)] *)
Definition re_sub (r : Re.re) (f : Re.mtch -> string) (html : string) : string :=
  String.concat ""
    (map (fun p => match p with Re.Text t => t | Re.Match m => f m end)
         (Re.pieces r html)).

(** The [for level in ...] loop of [increase_headers] *)
Fixpoint increase_levels (levels : list Z) (increase_depth : Z) (html : string)
    : string :=
  match levels with
  | [] => html
  | level :: rest =>
      let new_level := (level + increase_depth)%Z in
      let new_level := if (new_level >? 6)%Z then 6%Z else new_level in
      increase_levels rest increase_depth
        (re_sub (header_re level) (header_at new_level) html)
  end.

(** [increase_headers(html, increase_depth)] *)
Definition increase_headers (html : string) (increase_depth : Z) : string :=
  if truthy_str html
  then increase_levels [5; 4; 3; 2; 1]%Z increase_depth html
  else html.

(** The [for level in ...] loop of [decrease_headers] *)
Fixpoint decrease_levels (levels : list Z) (decrease : Z) (html : string)
    : string :=
  match levels with
  | [] => html
  | level :: rest =>
      let new_level := (level - decrease)%Z in
      let new_level := if (new_level <? 1)%Z then 1%Z else new_level in
      decrease_levels rest decrease
        (re_sub (header_re level) (header_at new_level) html)
  end.

(** [range(lo, 6)] *)
Definition range_to_6 (lo : Z) : list Z :=
  map (fun i => (lo + Z.of_nat i)%Z) (seq 0 (Z.to_nat (6 - lo))).

(** [decrease_headers(html, minimum_header, decrease)] *)
Definition decrease_headers (html : string) (minimum_header decrease : Z)
    : string :=
  if truthy_str html then
    let minimum_header := if (minimum_header <? 2)%Z then 2%Z else minimum_header in
    decrease_levels (range_to_6 minimum_header) decrease html
  else html.

(** ** The counts of [make_TSV_file] *)

Module TW2tsvCounts.

(** [num_simple_links] and [num_complex_links] after the loop: a link is
    complex when its word holds a blank. *)
Definition count_links (lines : list TW2tsv.source_line) : nat * nat :=
  fold_left
    (fun counts l =>
       let '(num_simple_links, num_complex_links) := counts in
       if Py.contains " " (TW2tsv.word l)
       then (num_simple_links, S num_complex_links)
       else (S num_simple_links, num_complex_links))
    lines (0, 0).

(** How a call of [make_TSV_file] ends once the file is written: it returns
    the two counts, or the [print] after the loop reads the loop variable
    [j], which no round of the loop has set. *)
Inductive ending :=
| Returns (num_simple_links num_complex_links : nat)
| UnboundLocalError.

(** [make_TSV_file(BBB, nn)]: [None] when the draws are used up. *)
Definition make_TSV_file_ending (lines : list TW2tsv.source_line)
    (draws : list nat) : option ending :=
  match TW2tsv.make_TSV_file lines draws with
  | None => None
  | Some _ =>
      Some (match lines with
            | [] => UnboundLocalError
            | _ => let (a, b) := count_links lines in Returns a b
            end)
  end.

(** Four draws of the generator, the id they make, and the draws of a run
    of rounds *)
Definition quad := (nat * nat * nat * nat)%type.

Definition id_of (q : quad) : string :=
  let '(d1, d2, d3, d4) := q in TW2tsv.make_id d1 d2 d3 d4.

Definition draws_of (quads : list quad) : list nat :=
  flat_map (fun q : quad => let '(d1, d2, d3, d4) := q in [d1; d2; d3; d4]) quads.

End TW2tsvCounts.

(** ** Sample builds

    Concrete records, registries and an environment over a small set of
    articles; the instances and counterexamples below are evaluated on
    them. *)

Module Sample.

(** A record that only carries its link *)
Definition rc_of (l : string) : RC := mkRC l "" "" "" [] "" "" "" "" 0 [].

Definition note_a : RC := rc_of "rc://en/tn/help/gen/01/01".
Definition grace : RC := rc_of "rc://en/tw/dict/bible/kt/grace".

Definition fix_other : option string := Some "rc://en/tw/dict/bible/other/grace".

(** Links are parsed by position: the resource is [ta] when the link goes
    through [/ta/], else [tw]; the path is what follows
    [rc://en/ta/man/]. *)
Definition parse (raw lang : string) : link_fields :=
  mkFields raw (if Py.contains "/ta/" raw then "ta" else "tw") "man"
    (Py.drop 15 raw) [] ("id-" ++ Py.drop 5 raw) raw raw.

(** Four manual articles: [aa] links to [cc], [cc] to [ee], [ee] to [ff]. *)
Definition content (file_path project : string) : string * string * string :=
  ("T", "",
   if Py.contains "t/aa" file_path then "see rc://en/ta/man/t/cc"
   else if Py.contains "t/cc" file_path then "see rc://en/ta/man/t/ee"
   else if Py.contains "t/ee" file_path then "see rc://en/ta/man/t/ff"
   else "").

(** Every file exists. *)
Definition e1 : env :=
  mkEnv DEFAULT_APPENDIX_LINKING_LEVEL "en" parse (fun _ => "repo")
    (fun _ => true) (fun _ => true) content (fun _ _ => "") (fun k => k).

(** No file exists. *)
Definition e0 : env :=
  mkEnv DEFAULT_APPENDIX_LINKING_LEVEL "en" parse (fun _ => "repo")
    (fun _ => false) (fun _ => false) content (fun _ _ => "") (fun k => k).

(** Two primary documents: [p1] links to [aa], [p2] links to [cc]. *)
Definition p1 : RC :=
  mkRC "rc://en/tn/help/p1" "tn" "help" "p1" [] "tn-p1" "P1" "P1"
    "see rc://en/ta/man/t/aa" 0 [].
Definition p2 : RC :=
  mkRC "rc://en/tn/help/p2" "tn" "help" "p2" [] "tn-p2" "P2" "P2"
    "see rc://en/ta/man/t/cc" 0 [].

(** The same primary registry in two insertion orders *)
Definition s12 : state :=
  mkState [("rc://en/tn/help/p1", p1); ("rc://en/tn/help/p2", p2)] [] [] [] [].
Definition s21 : state :=
  mkState [("rc://en/tn/help/p2", p2); ("rc://en/tn/help/p1", p1)] [] [] [] [].

(** A resolved manual article and a registry view that holds only it *)
Definition metaphor : RC :=
  mkRC "rc://en/ta/man/translate/figs-metaphor" "ta" "translate"
    "figs-metaphor" [] "ta-translate-figs-metaphor" "Metaphor" "Metaphor"
    "<article>body</article>" 1 [].

Definition resolved : state :=
  mkState [] [] [("rc://en/ta/man/translate/figs-metaphor", metaphor)] [] [].

(** A text with a bracketed link that resolves and a bare link that does
    not *)
Definition two_links : string :=
  "see [[rc://en/ta/man/translate/figs-metaphor]] and rc://en/tw/dict/bible/kt/grace.".

(** A link that opens with brackets and closes like an [a] tag, with the
    visible text [text] *)
Definition malformed : string :=
  "[[rc://en/tw/dict/bible/kt/grace" ++ Py.dquote ++ ">text</a> and".

(** The bare link of [two_links] as a match object *)
Definition grace_match : Re.mtch :=
  Re.mkMatch " and " "rc://en/tw/dict/bible/kt/grace" "."
    [(2, "rc://en/tw/dict/bible/kt/grace")].

(** The heading of the article [metaphor], carrying its anchor id *)
Definition metaphor_heading : header :=
  mkHeader 2 (Some "ta-translate-figs-metaphor") None.

(** Three source lines and draws of the random generator: the second id
    drawn repeats the first and is drawn again. *)
Definition line1 : TW2tsv.source_line :=
  TW2tsv.mkLine "3JN" "1" "1" "w1" "1" "rc://*/tw/dict/bible/kt/elder".
Definition three_lines : list TW2tsv.source_line := [line1; line1; line1].
Definition draws : list nat :=
  [0; 26; 27; 28;  0; 26; 27; 28;  1; 0; 0; 35;  25; 1; 2; 3].

(** The same two bad links of one note, recorded in the two orders *)
Definition ledger_ab : ledger :=
  record_bad_link "rc://en/tn/help/gen/01/01" "rc://en/tw/dict/bible/kt/b" None
    (record_bad_link "rc://en/tn/help/gen/01/01" "rc://en/tw/dict/bible/kt/a"
       fix_other []).
Definition ledger_ba : ledger :=
  record_bad_link "rc://en/tn/help/gen/01/01" "rc://en/tw/dict/bible/kt/a"
    fix_other
    (record_bad_link "rc://en/tn/help/gen/01/01" "rc://en/tw/dict/bible/kt/b"
       None []).



(** The article [cc] in the appendix at linking level 2, and the primary
    document [p2], which links to it *)
Definition cc2 : RC :=
  mkRC "rc://en/ta/man/t/cc" "ta" "man" "t/cc" [] "id-en/ta/man/t/cc"
    "rc://en/ta/man/t/cc" "rc://en/ta/man/t/cc" "see rc://en/ta/man/t/ee" 2
    ["rc://en/ta/man/t/aa"].

Definition known : state :=
  mkState [("rc://en/tn/help/p2", p2)] [("rc://en/ta/man/t/cc", cc2)] [] [] [].

(** Two phrases, one a prefix of the other, and a text that holds them *)
Definition the_lord : list string := ["the Lord"; "the Lord God"].
Definition praise : string := "praise the Lord God now".

(** A word article filed under [bible/other/] while its link says
    [bible/kt/], and a file system that only holds files under
    [bible/other/] *)
Definition amen : RC :=
  mkRC "rc://en/tw/dict/bible/kt/amen" "tw" "dict" "bible/kt/amen"
    ["kt"; "amen"] "tw-kt-amen" "Amen" "Amen" "" 1 [].

Definition e_other : env :=
  mkEnv DEFAULT_APPENDIX_LINKING_LEVEL "en" parse (fun _ => "repo")
    (fun p => Py.contains "bible/other/" p) (fun p => Py.contains "bible/other/" p)
    content (fun file_path _ => "<p>" ++ file_path ++ "</p>") (fun k => k).

(** A primary document that links to a manual article under a misspelt
    name, a file system that holds the article under the right name only,
    and a ledger that already lists the link, without fix *)
Definition p4 : RC :=
  mkRC "rc://en/tn/help/p4" "tn" "help" "p4" [] "tn-p4" "P4" "P4"
    "see rc://en/ta/man/figs-abstractnoun" 0 [].

Definition e_nouns : env :=
  mkEnv DEFAULT_APPENDIX_LINKING_LEVEL "en" parse (fun _ => "repo")
    (fun p => Py.contains "figs-abstractnouns" p)
    (fun p => Py.contains "figs-abstractnouns" p)
    content (fun _ _ => "") (fun k => k).

Definition listed : state :=
  mkState [("rc://en/tn/help/p4", p4)] [] []
    [("rc://en/tn/help/p4", [("rc://en/ta/man/figs-abstractnoun", None)])] [].

End Sample.
(** * Properties *)

(** ** Facts about dictionaries *)

Module DictFacts.

Section Facts.
Context {V : Type}.
Implicit Types (d : Dict.t V) (k : string) (v : V).

Lemma get_set_eq d k v : Dict.get k (Dict.set k v d) = Some v.
Proof.
    induction d as [|[k' v'] r IH]; simpl.
    - now rewrite String.eqb_refl.
    - destruct (String.eqb k k') eqn:E; simpl.
      + now rewrite String.eqb_refl.
      + now rewrite E.
Qed.

Lemma get_set_ne d k k' v :
    k' <> k -> Dict.get k' (Dict.set k v d) = Dict.get k' d.
Proof.
    intros N. induction d as [|[k0 v0] r IH]; simpl.
    - destruct (String.eqb k' k) eqn:E; [apply String.eqb_eq in E; tauto | reflexivity].
    - destruct (String.eqb k k0) eqn:E; simpl.
      + apply String.eqb_eq in E; subst k0.
        destruct (String.eqb k' k) eqn:E'; [apply String.eqb_eq in E'; tauto | reflexivity].
      + now rewrite IH.
Qed.

Lemma get_set d k k' v :
    Dict.get k' (Dict.set k v d)
    = if String.eqb k' k then Some v else Dict.get k' d.
Proof.
    destruct (String.eqb k' k) eqn:E.
    - apply String.eqb_eq in E; subst. apply get_set_eq.
    - apply String.eqb_neq in E. now apply get_set_ne.
Qed.

Lemma mem_set d k k' v :
    Dict.mem k' (Dict.set k v d) = String.eqb k' k || Dict.mem k' d.
Proof.
    unfold Dict.mem. rewrite get_set. now destruct (String.eqb k' k).
Qed.

Lemma mem_In d k : Dict.mem k d = true <-> In k (Dict.keys d).
Proof.
    unfold Dict.mem. induction d as [|[k' v'] r IH]; simpl.
    - split; [discriminate | tauto].
    - destruct (String.eqb k k') eqn:E.
      + apply String.eqb_eq in E. subst. split; auto.
      + apply String.eqb_neq in E. rewrite IH. split; [auto | intros [H|H]; congruence].
Qed.

Lemma mem_false_In d k : Dict.mem k d = false <-> ~ In k (Dict.keys d).
Proof.
    rewrite <- mem_In. destruct (Dict.mem k d); split; congruence.
Qed.

Lemma keys_set_mem d k v :
    Dict.mem k d = true -> Dict.keys (Dict.set k v d) = Dict.keys d.
Proof.
    unfold Dict.mem. induction d as [|[k' v'] r IH]; simpl; [discriminate|].
    destruct (String.eqb k k') eqn:E; simpl.
    - apply String.eqb_eq in E. now subst.
    - intros H. now rewrite IH.
Qed.

Lemma keys_set_new d k v :
    Dict.mem k d = false -> Dict.keys (Dict.set k v d) = (Dict.keys d ++ [k])%list.
Proof.
    unfold Dict.mem. induction d as [|[k' v'] r IH]; simpl; [reflexivity|].
    destruct (String.eqb k k') eqn:E; simpl; [discriminate|].
    intros H. now rewrite IH.
Qed.

Lemma get_Some_mem d k v : Dict.get k d = Some v -> Dict.mem k d = true.
Proof. unfold Dict.mem. now intros ->. Qed.

Lemma mem_get d k : Dict.mem k d = true -> exists v, Dict.get k d = Some v.
Proof. unfold Dict.mem. destruct (Dict.get k d); [eauto | discriminate]. Qed.

End Facts.

End DictFacts.


(** ** Facts about texts *)

Module StrFacts.

Lemma append_nil_r s : s ++ "" = s.
Proof. induction s as [|a r IH]; simpl; [reflexivity | now rewrite IH]. Qed.

Lemma append_assoc s t u : (s ++ t) ++ u = s ++ (t ++ u).
Proof. induction s as [|a r IH]; simpl; [reflexivity | now rewrite IH]. Qed.

Lemma length_append s t :
  String.length (s ++ t) = String.length s + String.length t.
Proof. induction s as [|a r IH]; simpl; [reflexivity | now rewrite IH]. Qed.

Lemma concat_cons x l : String.concat "" (x :: l) = x ++ String.concat "" l.
Proof. destruct l; simpl; [now rewrite append_nil_r | reflexivity]. Qed.

Lemma concat_app l1 l2 :
  String.concat "" (l1 ++ l2)%list = String.concat "" l1 ++ String.concat "" l2.
Proof.
  induction l1 as [|x r IH]; [reflexivity|].
  rewrite <- app_comm_cons, !concat_cons, IH. now rewrite append_assoc.
Qed.

End StrFacts.
(** ** The bad-link ledger *)

Lemma ledger_get_record source target fix_ b sl tl :
  ledger_get sl tl (record_bad_link source target fix_ b)
  = if String.eqb sl source && String.eqb tl target
    then match ledger_get source target b with
         | Some v => Some (if truthy_fix fix_ then fix_ else v)
         | None => Some fix_
         end
    else ledger_get sl tl b.
Proof.
  unfold record_bad_link, ledger_get, Dict.mem.
  destruct (Dict.get source b) as [inner|] eqn:Eg.
  - rewrite Eg.
    destruct (Dict.get target inner) as [v|] eqn:Et; simpl.
    + destruct (truthy_fix fix_); simpl.
      * rewrite DictFacts.get_set.
        destruct (String.eqb sl source) eqn:Es; simpl; [|reflexivity].
        rewrite DictFacts.get_set.
        destruct (String.eqb tl target) eqn:E; [reflexivity|].
        apply String.eqb_eq in Es. subst. now rewrite Eg.
      * destruct (String.eqb sl source) eqn:Es; simpl; [|reflexivity].
        apply String.eqb_eq in Es. subst. rewrite Eg.
        destruct (String.eqb tl target) eqn:E; [|reflexivity].
        apply String.eqb_eq in E. now subst.
    + rewrite DictFacts.get_set.
      destruct (String.eqb sl source) eqn:Es; simpl; [|reflexivity].
      rewrite DictFacts.get_set.
      destruct (String.eqb tl target) eqn:E; [reflexivity|].
      apply String.eqb_eq in Es. subst. now rewrite Eg.
  - rewrite DictFacts.get_set_eq. simpl.
    rewrite DictFacts.get_set.
    destruct (String.eqb sl source) eqn:Es; simpl.
    + destruct (String.eqb tl target) eqn:E; [reflexivity|].
      apply String.eqb_eq in Es. subst. now rewrite Eg.
    + rewrite DictFacts.get_set, Es. reflexivity.
Qed.

Lemma ledger_get_tw_missing src rc s sl tl :
  ledger_get sl tl (bad_links (tw_record_missing src rc s))
  = ledger_get sl tl (bad_links (add_bad_link (Some src) rc None s)).
Proof.
  unfold tw_record_missing, add_bad_link, record_bad_link. simpl.
  rewrite orb_false_r.
  destruct (negb _); reflexivity.
Qed.

(** One recording: it never removes an entry of the ledger; the value of
    an existing entry is replaced exactly when the recording is for the same
    pair of links and carries a (true) fix; a recording without fix, by
    [add_bad_link] or by the not-found branch of [get_tw_article_html],
    leaves it as it is. *)
Lemma add_bad_link_entry_rule :
  forall (src rc : RC) (fix_ : option string) (s : state)
         (sl tl : string) (v : option string),
    ledger_get sl tl (bad_links s) = Some v ->
    ledger_get sl tl (bad_links (add_bad_link (Some src) rc fix_ s))
    = Some (if String.eqb sl (rc_link src) && String.eqb tl (rc_link rc)
               && truthy_fix fix_
            then fix_ else v)
    /\ ledger_get sl tl (bad_links (tw_record_missing src rc s)) = Some v
    /\ ledger_get sl tl (bad_links (add_bad_link None rc fix_ s)) = Some v.
Proof.
  intros src rc fix_ s sl tl v H.
  assert (G : forall f,
    ledger_get sl tl (bad_links (add_bad_link (Some src) rc f s))
    = Some (if String.eqb sl (rc_link src) && String.eqb tl (rc_link rc)
               && truthy_fix f then f else v)).
  { intros f. simpl. rewrite ledger_get_record.
    destruct (String.eqb sl (rc_link src)) eqn:Es;
      destruct (String.eqb tl (rc_link rc)) eqn:Et; simpl; try assumption.
    apply String.eqb_eq in Es, Et. subst. now rewrite H. }
  split; [apply G|]. split; [|exact H].
  rewrite ledger_get_tw_missing, G. simpl. now rewrite andb_false_r.
Qed.

(** ** The link rewriter (C4, C5) *)

Lemma render_all_weave (f : Re.mtch -> Py.res string) (l : list Re.piece) o :
  Re.render_all f l = Py.Ok o ->
  exists outs,
    Forall2 (fun m x => f m = Py.Ok x) (Re.matches l) outs /\ o = weave l outs.
Proof.
  revert o. induction l as [|p r IH]; simpl; intros o H.
  - inversion H. exists []. split; constructor.
  - destruct p as [t|m]; simpl in *.
    + destruct (Re.render_all f r) as [o'|x] eqn:E; simpl in H; [|discriminate].
      inversion H; subst. destruct (IH o' eq_refl) as (outs & F & W).
      exists outs. split; [exact F|]. now rewrite W.
    + destruct (f m) as [x|x] eqn:Em; simpl in H; [|discriminate].
      destruct (Re.render_all f r) as [o'|y] eqn:E; simpl in H; [|discriminate].
      inversion H; subst. destruct (IH o' eq_refl) as (outs & F & W).
      exists (x :: outs). split; [now constructor|]. simpl. now rewrite W.
Qed.

Lemma render_all_total (f : Re.mtch -> Py.res string) (l : list Re.piece) :
  (forall m, In m (Re.matches l) -> exists x, f m = Py.Ok x) ->
  exists o, Re.render_all f l = Py.Ok o.
Proof.
  induction l as [|p r IH]; simpl; intros H.
  - eauto.
  - destruct p as [t|m]; simpl in *.
    + destruct (IH H) as (o & ->). simpl. eauto.
    + destruct (H m (or_introl eq_refl)) as (x & ->). simpl.
      destruct IH as (o & ->); [auto|]. simpl. eauto.
Qed.

Lemma replace_rc_well_formed e s m :
  well_formed m = true -> exists x, replace_rc e s m = Py.Ok x.
Proof.
  unfold well_formed, replace_rc. intros W.
  destruct (Dict.get _ (all_rcs s)) as [rc|]; [|eauto].
  destruct (Re.m_group 1 m) as [l|], (Re.m_group 3 m) as [r|];
    try discriminate; simpl.
  - repeat match goal with |- context [if ?c then _ else _] => destruct c end;
      simpl; eauto.
  - destruct (linking_level rc <=? APPENDIX_LINKING_LEVEL e)%Z; eauto.
Qed.

(** C4, as the code has it: whenever the rewrite returns, its result is the
    text with every match replaced, in order, by the one output that
    [replace_rc] gives for it (as many outputs as matches, none dropped,
    none doubled); and it does return when the delimiters of every match
    pair up. *)
Theorem C4_one_output_per_match :
  forall (e : env) (s : state) (text : string),
    (forall out,
        fst (replace_rc_links e s text) = Py.Ok out ->
        exists outs,
          Forall2 (fun m x => replace_rc e s m = Py.Ok x)
                  (Re.finditer Pat.rc_links text) outs
          /\ List.length outs = List.length (Re.finditer Pat.rc_links text)
          /\ out = String.concat "" (weave (Re.pieces Pat.rc_links text) outs))
    /\ (forallb well_formed (Re.finditer Pat.rc_links text) = true ->
        exists out, fst (replace_rc_links e s text) = Py.Ok out).
Proof.
  intros e s text. unfold replace_rc_links, Re.sub_res, Re.finditer. simpl.
  split.
  - intros out H.
    destruct (Re.render_all _ _) as [o|x] eqn:E; simpl in H; [|discriminate].
    inversion H; subst.
    destruct (render_all_weave _ _ _ E) as (outs & F & ->).
    exists outs. split; [exact F|]. split; [|reflexivity].
    symmetry. exact (Forall2_length F).
  - intros W.
    destruct (render_all_total (replace_rc e s) (Re.pieces Pat.rc_links text))
      as (o & ->).
    + intros m Hm. apply replace_rc_well_formed.
      rewrite forallb_forall in W. now apply W.
    + simpl. eauto.
Qed.

Lemma C4_one_output_per_match_witness :
  forallb well_formed (Re.finditer Pat.rc_links Sample.two_links) = true
  /\ exists out, fst (replace_rc_links Sample.e1 Sample.resolved Sample.two_links)
                 = Py.Ok out.
Proof.
  split; [reflexivity|].
  apply (C4_one_output_per_match Sample.e1 Sample.resolved Sample.two_links).
  reflexivity.
Defined.

(** C4 as stated fails in its last part: a match with mismatched delimiters
    is not passed through unchanged; for an unknown target it gives the
    visible text, as any failed lookup does. *)
Lemma C4_counterexample :
  ~ (forall (e : env) (s : state) (text : string) (m : Re.mtch),
        In m (Re.finditer Pat.rc_links text) ->
        well_formed m = false ->
        replace_rc e s m = Py.Ok (Re.m_all m)).
Proof.
  intros H.
  specialize (H Sample.e1 Sample.resolved Sample.malformed).
  assert (F : exists m, Re.finditer Pat.rc_links Sample.malformed = [m]
                        /\ well_formed m = false
                        /\ replace_rc Sample.e1 Sample.resolved m = Py.Ok "text"
                        /\ Re.m_all m <> "text").
  { eexists. split; [vm_compute; reflexivity|].
    split; [vm_compute; reflexivity|]. split; [vm_compute; reflexivity|].
    vm_compute. discriminate. }
  destruct F as (m & Fm & W & R & N).
  specialize (H m). rewrite Fm in H. specialize (H (or_introl eq_refl) W).
  rewrite R in H. inversion H. congruence.
Qed.

(** C5, as the code has it: a match whose link is no key of the combined
    view is replaced by the visible text of the match when there is one,
    else by the link itself; the rewrite reads the registry and leaves the
    state, the ledger included, as it was. *)
Theorem C5_unresolved_fallback :
  forall (e : env) (s : state) (m : Re.mtch) (l : string),
    Re.m_group 2 m = Some l ->
    Dict.get l (all_rcs s) = None ->
    replace_rc e s m = Py.Ok (or_else (Re.m_group 4 m) l)
    /\ forall text, snd (replace_rc_links e s text) = s.
Proof.
  intros e s m l G N. split; [|reflexivity].
  unfold replace_rc. rewrite G, N. reflexivity.
Qed.

(** C5 as stated fails: rewriting an unresolved link creates no ledger
    entry for it. *)
Lemma C5_counterexample :
  ~ (forall (e : env) (s : state) (text : string) (m : Re.mtch) (l : string),
        In m (Re.finditer Pat.rc_links text) ->
        Re.m_group 2 m = Some l ->
        Dict.get l (all_rcs s) = None ->
        exists source v,
          ledger_get source l (bad_links (snd (replace_rc_links e s text)))
          = Some v).
Proof.
  intros H.
  assert (F : exists m, In m (Re.finditer Pat.rc_links Sample.two_links)
                        /\ Re.m_group 2 m = Some "rc://en/tw/dict/bible/kt/grace").
  { eexists. split; [vm_compute; right; left; reflexivity | reflexivity]. }
  destruct F as (m & I & G).
  destruct (H Sample.e1 Sample.resolved Sample.two_links m _ I G eq_refl)
    as (source & v & E).
  simpl in E. unfold ledger_get in E. simpl in E. discriminate.
Qed.

Lemma C5_unresolved_fallback_witness :
  Re.m_group 2 Sample.grace_match = Some "rc://en/tw/dict/bible/kt/grace"
  /\ Dict.get "rc://en/tw/dict/bible/kt/grace" (all_rcs Sample.resolved) = None
  /\ replace_rc Sample.e1 Sample.resolved Sample.grace_match
     = Py.Ok "rc://en/tw/dict/bible/kt/grace".
Proof.
  split; [reflexivity|]. split; [reflexivity|].
  exact (proj1 (C5_unresolved_fallback Sample.e1 Sample.resolved
                  Sample.grace_match "rc://en/tw/dict/bible/kt/grace"
                  eq_refl eq_refl)).
Defined.

(** ** The table of contents (C8) *)

Lemma get_rc_by_article_id_never_finds s id rc :
  get_rc_by_article_id s id <> Py.Ok (Some rc).
Proof.
  unfold get_rc_by_article_id.
  destruct (Dict.keys (all_rcs s)) as [|k r]; [discriminate|].
  destruct (Nat.eqb (Py.py_len k) 2); discriminate.
Qed.

(** C8 against the code: for the registry view that holds the article
    [metaphor] and the heading that carries its anchor id, the lookup of
    the record raises [ValueError] (the loop of [get_rc_by_article_id]
    unpacks a key of the dict instead of an item), and so does the
    construction of the table of contents; the lookup returns a record for
    no registry and no id, and the construction returns for no list of
    headings that is not empty. *)
Theorem C8_heading_lookup_raises :
  get_rc_by_article_id Sample.resolved (Some "ta-translate-figs-metaphor")
  = Py.Raise Py.ValueError
  /\ get_toc_html Sample.e1 Sample.resolved [Sample.metaphor_heading]
     = Py.Raise Py.ValueError
  /\ (forall s id rc, get_rc_by_article_id s id <> Py.Ok (Some rc))
  /\ (forall e s h rest out, get_toc_html e s (h :: rest) <> Py.Ok out).
Proof.
  split; [reflexivity|]. split; [reflexivity|].
  split; [intros; apply get_rc_by_article_id_never_finds|].
  intros e s h rest out. unfold get_toc_html. simpl.
  assert (R : exists x, header_rc s h = Py.Raise x).
  { unfold header_rc.
    destruct (if truthy_opt (h_id h) then _ else _) as [a|x]; simpl; [|eauto].
    destruct (get_rc_by_article_id s a) as [[rc|]|x] eqn:E; simpl; eauto.
    now apply get_rc_by_article_id_never_finds in E. }
  destruct R as (x & ->). simpl. discriminate.
Qed.

(** ** Row identifiers of the TSV files (C10) *)

Module TW2tsvFacts.
Import TW2tsv.

Lemma get_char_in n s :
  n < String.length s ->
  exists a, String.get n s = Some a /\ Py.char_in a s = true.
Proof.
  revert n. induction s as [|b r IH]; simpl; intros n H; [lia|].
  destruct n as [|n].
  - exists b. now rewrite Ascii.eqb_refl.
  - destruct (IH n) as (a & G & I); [lia|].
    exists a. split; [exact G|]. rewrite I. apply orb_true_r.
Qed.

Lemma choice_char_in seq d :
  String.length seq <> 0 ->
  exists a, choice seq d = String a EmptyString /\ Py.char_in a seq = true.
Proof.
  intros H. unfold choice.
  destruct (get_char_in (d mod String.length seq) seq) as (a & G & I).
  - now apply Nat.mod_upper_bound.
  - rewrite G. eauto.
Qed.

Lemma make_id_valid d1 d2 d3 d4 : valid_id (make_id d1 d2 d3 d4) = true.
Proof.
  unfold make_id.
  destruct (choice_char_in lowercase d1) as (a & -> & Ha); [discriminate|].
  destruct (choice_char_in lowercase_digits d2) as (b & -> & Hb); [discriminate|].
  destruct (choice_char_in lowercase_digits d3) as (c & -> & Hc); [discriminate|].
  destruct (choice_char_in lowercase_digits d4) as (d & -> & Hd); [discriminate|].
  cbn [append valid_id]. now rewrite Ha, Hb, Hc, Hd.
Qed.

Lemma mem_str_In x l : Py.mem_str x l = true <-> In x l.
Proof.
  induction l as [|y r IH]; simpl; [split; [discriminate|tauto]|].
  rewrite orb_true_iff, IH, String.eqb_eq. split; intros [H|H]; auto.
Qed.

(** The [while] loop ends with an id that is none of the previous ones;
    the id is the initial one or a drawn one. *)
Lemma regenerate_fresh ds previous_ids g id rest :
  regenerate ds previous_ids g = Some (id, rest) ->
  ~ In id previous_ids /\ (id = g \/ valid_id id = true).
Proof.
  remember (List.length ds) as n eqn:En.
  assert (Hn : List.length ds <= n) by lia. clear En.
  revert ds g Hn. induction n as [|n IH]; intros ds g Hn H.
  - destruct ds; [|simpl in Hn; lia]. simpl in H.
    destruct (Py.mem_str g previous_ids) eqn:E; [discriminate|].
    inversion H; subst. split; [|auto].
    intros I. apply mem_str_In in I. congruence.
  - destruct ds as [|d1 ds']; simpl in H;
      destruct (Py.mem_str g previous_ids) eqn:E; try discriminate;
      try (inversion H; subst; split; [|auto];
           intros I; apply mem_str_In in I; congruence).
    destruct ds' as [|d2 [|d3 [|d4 r]]]; try discriminate.
    destruct (IH r (make_id d1 d2 d3 d4)) as (F & V);
      [simpl in Hn; lia | exact H |].
    split; [exact F|]. right.
    destruct V as [->|V]; [apply make_id_valid | exact V].
Qed.

(** A round whose four draws give a new id ends the loop with that id. *)
Lemma regenerate_progress d1 d2 d3 d4 rest previous_ids g :
  Py.mem_str g previous_ids = true ->
  Py.mem_str (make_id d1 d2 d3 d4) previous_ids = false ->
  regenerate (d1 :: d2 :: d3 :: d4 :: rest) previous_ids g
  = Some (make_id d1 d2 d3 d4, rest).
Proof.
  intros Hg Hn. simpl. rewrite Hg.
  destruct rest; simpl; now rewrite Hn.
Qed.

Lemma write_rows_spec lines : forall ds previous_ids rows ids,
  write_rows lines ds previous_ids = Some (rows, ids) ->
  In "" previous_ids ->
  ids = (previous_ids ++ row_ids rows)%list
  /\ (NoDup previous_ids -> NoDup ids)
  /\ Forall (fun i => valid_id i = true) (row_ids rows)
  /\ List.length rows = List.length lines.
Proof.
  induction lines as [|l rest IH]; simpl; intros ds prev rows ids H E.
  - inversion H; subst. simpl. rewrite app_nil_r. auto.
  - destruct (regenerate ds prev "") as [[id ds']|] eqn:R; [|discriminate].
    destruct (write_rows rest ds' (prev ++ [id])%list) as [[rows' ids']|] eqn:W;
      [|discriminate].
    inversion H; subst. clear H.
    apply regenerate_fresh in R. destruct R as (F & V).
    destruct (IH _ _ _ _ W) as (Ei & N & Va & L).
    { apply in_or_app. now left. }
    simpl. split; [now rewrite Ei, <- app_assoc|].
    split.
    + intros ND. apply N.
      apply NoDup_app; [exact ND | constructor; [simpl; tauto | constructor] |].
      intros x Hx [<-|[]]. contradiction.
    + split; [|now rewrite L].
      constructor; [|exact Va].
      destruct V as [->|V]; [contradiction | exact V].
Qed.

End TW2tsvFacts.

(** C10: in every file that [make_TSV_file] writes, the ids, fourth field of
    the rows, are pairwise distinct, each is a lowercase letter followed by
    three lowercase letters or digits, and there is one row for each source
    line. *)
Theorem C10_row_ids_distinct :
  forall (lines : list TW2tsv.source_line) (draws : list nat)
         (rows : list (list string)),
    TW2tsv.make_TSV_file lines draws = Some rows ->
    NoDup (TW2tsv.row_ids rows)
    /\ Forall (fun i => TW2tsv.valid_id i = true) (TW2tsv.row_ids rows)
    /\ List.length rows = List.length lines.
Proof.
  intros lines ds rows H. unfold TW2tsv.make_TSV_file in H.
  destruct (TW2tsv.write_rows lines ds [""]) as [[rows' ids]|] eqn:W; [|discriminate].
  inversion H; subst. clear H.
  destruct (TW2tsvFacts.write_rows_spec _ _ _ _ _ W) as (E & N & V & L);
    [simpl; auto|].
  split; [|auto].
  assert (ND : NoDup ids).
  { apply N. constructor; [simpl; tauto | constructor]. }
  rewrite E in ND. simpl in ND. now inversion ND.
Qed.

Lemma C10_row_ids_distinct_witness :
  TW2tsv.make_TSV_file Sample.three_lines Sample.draws
  = Some [ ["3JN"; "1"; "1"; "a012"; "rc://*/tw/dict/bible/kt/elder"; "w1"; "1";
            "GLQuote"; "OccurrenceNote"];
           ["3JN"; "1"; "1"; "baa9"; "rc://*/tw/dict/bible/kt/elder"; "w1"; "1";
            "GLQuote"; "OccurrenceNote"];
           ["3JN"; "1"; "1"; "zbcd"; "rc://*/tw/dict/bible/kt/elder"; "w1"; "1";
            "GLQuote"; "OccurrenceNote"] ]
  /\ NoDup ["a012"; "baa9"; "zbcd"].
Proof.
  split; [reflexivity|].
  exact (proj1 (C10_row_ids_distinct Sample.three_lines Sample.draws _ eq_refl)).
Defined.

(** ** The bad-link report (C9) *)

Module SortFacts.

Lemma ascii_compare_N a b :
  Ascii.compare a b = N.compare (N_of_ascii a) (N_of_ascii b).
Proof. reflexivity. Qed.

Lemma compare_not_gt_trans a : forall b c,
  String.compare a b <> Gt -> String.compare b c <> Gt ->
  String.compare a c <> Gt.
Proof.
  induction a as [|x a IH]; intros b c Hab Hbc.
  - destruct c; simpl; discriminate.
  - destruct b as [|y b]; [simpl in Hab; congruence|].
    destruct c as [|z c]; [simpl in Hbc; congruence|].
    simpl in *. rewrite ascii_compare_N in *.
    destruct (N.compare_spec (N_of_ascii x) (N_of_ascii y));
      destruct (N.compare_spec (N_of_ascii y) (N_of_ascii z));
      destruct (N.compare_spec (N_of_ascii x) (N_of_ascii z));
      try congruence; try lia; try discriminate.
    eapply IH; eassumption.
Qed.

Lemma leb_trans a b c :
  String.leb a b = true -> String.leb b c = true -> String.leb a c = true.
Proof.
  unfold String.leb. intros Hab Hbc.
  pose proof (compare_not_gt_trans a b c) as T.
  destruct (String.compare a b); try discriminate;
    destruct (String.compare b c); try discriminate;
    destruct (String.compare a c); try reflexivity;
    exfalso; apply T; congruence.
Qed.

Lemma insert_sorted_perm x l : Permutation (x :: l) (insert_sorted x l).
Proof.
  induction l as [|y r IH]; simpl; [reflexivity|].
  destruct (String.leb x y); [reflexivity|].
  rewrite perm_swap. now constructor.
Qed.

Lemma sorted_perm l : Permutation l (sorted l).
Proof.
  induction l as [|x r IH]; simpl; [constructor|].
  rewrite <- insert_sorted_perm. now constructor.
Qed.

Lemma insert_sorted_strongly x l :
  StronglySorted str_le l -> StronglySorted str_le (insert_sorted x l).
Proof.
  induction 1 as [|y r S IH F]; simpl.
  - constructor; constructor.
  - destruct (String.leb x y) eqn:E.
    + constructor; [now constructor|].
      constructor; [exact E|].
      eapply Forall_impl; [|exact F]. intros z Hz. eapply leb_trans; eassumption.
    + constructor; [exact IH|].
      assert (Hyx : str_le y x).
      { destruct (String.leb_total x y) as [H|H]; [congruence | exact H]. }
      eapply Permutation_Forall; [apply insert_sorted_perm|].
      now constructor.
Qed.

Lemma sorted_strongly l : StronglySorted str_le (sorted l).
Proof.
  induction l as [|x r IH]; simpl; [constructor|].
  now apply insert_sorted_strongly.
Qed.

Lemma strongly_sorted_unique l1 : forall l2,
  StronglySorted str_le l1 -> StronglySorted str_le l2 -> Permutation l1 l2 -> l1 = l2.
Proof.
  induction l1 as [|a r1 IH]; intros l2 S1 S2 P.
  - apply Permutation_nil in P. now subst.
  - destruct l2 as [|b r2]; [apply Permutation_sym, Permutation_nil in P; discriminate|].
    inversion S1 as [|? ? S1' F1]; inversion S2 as [|? ? S2' F2]; subst.
    assert (a = b).
    { assert (Ia : In a (b :: r2)) by (eapply Permutation_in; [exact P | now left]).
      assert (Ib : In b (a :: r1))
        by (eapply Permutation_in; [apply Permutation_sym; exact P | now left]).
      destruct Ia as [->|Ia]; [reflexivity|].
      destruct Ib as [->|Ib]; [reflexivity|].
      rewrite Forall_forall in F1, F2.
      apply String.leb_antisym; [now apply F1 | now apply F2]. }
    subst b. f_equal. apply IH; try assumption.
    eapply Permutation_cons_inv; exact P.
Qed.

(** The sorted list depends on the elements only, not on their order. *)
Lemma sorted_permutation l1 l2 : Permutation l1 l2 -> sorted l1 = sorted l2.
Proof.
  intros P. apply strongly_sorted_unique; try apply sorted_strongly.
  rewrite <- (sorted_perm l1), <- (sorted_perm l2). exact P.
Qed.

Lemma sorted_In x l : In x (sorted l) <-> In x l.
Proof.
  split; intros H; eapply Permutation_in; try exact H;
    [apply Permutation_sym|]; apply sorted_perm.
Qed.

Lemma sorted_NoDup l : NoDup l -> NoDup (sorted l).
Proof. intros H. eapply Permutation_NoDup; [apply sorted_perm | exact H]. Qed.

End SortFacts.

Module ReportFacts.
Import SortFacts.

Lemma report_targets_lines src inner ts :
  report_targets src inner ts
  = String.concat "" (map (fun t => report_line src t (fix_of t inner)) ts).
Proof.
  induction ts as [|t r IH]; [reflexivity|].
  cbn [report_targets map]. now rewrite StrFacts.concat_cons, IH.
Qed.

Lemma report_sources_lines b srcs :
  report_sources b srcs
  = String.concat ""
      (map entry_line
         (flat_map (fun src =>
            map (fun t => (src, t, fix_of t (inner_of src b)))
                (sorted (Dict.keys (inner_of src b)))) srcs)).
Proof.
  induction srcs as [|s r IH]; [reflexivity|].
  cbn [report_sources flat_map]. rewrite map_app, StrFacts.concat_app, <- IH.
  f_equal. rewrite report_targets_lines, map_map. reflexivity.
Qed.

Lemma le_refl a : str_le a a.
Proof. destruct (String.leb_total a a); assumption. Qed.

Lemma strongly_sorted_app {A} (R : A -> A -> Prop) l1 l2 :
  StronglySorted R l1 -> StronglySorted R l2 ->
  (forall x y, In x l1 -> In y l2 -> R x y) ->
  StronglySorted R (l1 ++ l2).
Proof.
  induction 1 as [|a r S IH F]; intros S2 H; simpl; [assumption|].
  constructor.
  - apply IH; [assumption|]. intros x y Hx Hy. apply H; [now right | assumption].
  - apply Forall_app. split; [assumption|].
    apply Forall_forall. intros y Hy. apply H; [now left | assumption].
Qed.

Lemma entries_sorted (inner : string -> Dict.t (option string))
    (ts : string -> list string) srcs :
  StronglySorted str_le srcs -> NoDup srcs ->
  (forall s, StronglySorted str_le (ts s)) ->
  StronglySorted entry_le
    (flat_map (fun src => map (fun t => (src, t, fix_of t (inner src))) (ts src)) srcs).
Proof.
  intros S N T. induction S as [|s r S IH F]; simpl; [constructor|].
  inversion N as [|? ? Ns Nr]; subst.
  apply strongly_sorted_app.
  - specialize (T s). induction T as [|t r' T' IHt Ft]; simpl; constructor.
    + exact IHt.
    + apply Forall_forall. intros x Hx. apply in_map_iff in Hx.
      destruct Hx as (t' & <- & Ht'). simpl. split; [apply le_refl|].
      intros _. rewrite Forall_forall in Ft. now apply Ft.
  - now apply IH.
  - intros x y Hx Hy. apply in_map_iff in Hx. destruct Hx as (t & <- & Ht).
    apply in_flat_map in Hy. destruct Hy as (s' & Hs' & Hy).
    apply in_map_iff in Hy. destruct Hy as (t' & <- & Ht'). simpl.
    rewrite Forall_forall in F. split; [now apply F|].
    intros ->. contradiction.
Qed.

Lemma keys_perm {V} (d1 d2 : Dict.t V) :
  NoDup (Dict.keys d1) -> NoDup (Dict.keys d2) ->
  (forall k, Dict.mem k d1 = Dict.mem k d2) ->
  Permutation (Dict.keys d1) (Dict.keys d2).
Proof.
  intros N1 N2 H. apply NoDup_Permutation; try assumption.
  intros k. rewrite <- !DictFacts.mem_In. now rewrite H.
Qed.

Lemma mem_inner s t b :
  Dict.mem t (inner_of s b)
  = match ledger_get s t b with Some _ => true | None => false end.
Proof.
  unfold inner_of, ledger_get, Dict.mem. destruct (Dict.get s b); reflexivity.
Qed.

Lemma fix_of_inner s t b :
  fix_of t (inner_of s b)
  = match ledger_get s t b with Some f => f | None => None end.
Proof.
  unfold fix_of, inner_of, ledger_get. destruct (Dict.get s b); reflexivity.
Qed.

Lemma inner_of_NoDup s b : ledger_wf b -> NoDup (Dict.keys (inner_of s b)).
Proof.
  intros [_ W]. unfold inner_of. destruct (Dict.get s b) eqn:E.
  - eapply W; eassumption.
  - constructor.
Qed.

Lemma report_entries_equiv b1 b2 :
  ledger_wf b1 -> ledger_wf b2 -> ledger_equiv b1 b2 ->
  report_entries b1 = report_entries b2.
Proof.
  intros W1 W2 [Hm Hg]. unfold report_entries.
  rewrite (sorted_permutation (Dict.keys b1) (Dict.keys b2))
    by (apply keys_perm; [apply W1 | apply W2 | exact Hm]).
  apply flat_map_ext. intros s.
  change (match Dict.get s b1 with Some i => i | None => Dict.empty end)
    with (inner_of s b1).
  change (match Dict.get s b2 with Some i => i | None => Dict.empty end)
    with (inner_of s b2).
  rewrite (sorted_permutation (Dict.keys (inner_of s b1)) (Dict.keys (inner_of s b2))).
  - apply map_ext. intros t.
    change (match Dict.get t (inner_of s b1) with Some f => f | None => None end)
      with (fix_of t (inner_of s b1)).
    change (match Dict.get t (inner_of s b2) with Some f => f | None => None end)
      with (fix_of t (inner_of s b2)).
    now rewrite !fix_of_inner, Hg.
  - apply keys_perm; try now apply inner_of_NoDup.
    intros t. now rewrite !mem_inner, Hg.
Qed.

Lemma nonempty_mem {V} (d : Dict.t V) :
  Dict.nonempty d = false <-> forall k, Dict.mem k d = false.
Proof.
  destruct d as [|[k v] r]; simpl.
  - split; [reflexivity | reflexivity].
  - split; [discriminate|]. intros H. specialize (H k).
    unfold Dict.mem in H. simpl in H. now rewrite String.eqb_refl in H.
Qed.

Lemma nonempty_equiv b1 b2 :
  ledger_equiv b1 b2 -> Dict.nonempty b1 = Dict.nonempty b2.
Proof.
  intros [Hm _].
  destruct (Dict.nonempty b1) eqn:E1, (Dict.nonempty b2) eqn:E2; try reflexivity.
  - rewrite nonempty_mem in E2.
    assert (Dict.nonempty b1 = false); [|congruence].
    apply nonempty_mem. intros k. now rewrite Hm.
  - rewrite nonempty_mem in E1.
    assert (Dict.nonempty b2 = false); [|congruence].
    apply nonempty_mem. intros k. now rewrite <- Hm.
Qed.

Lemma bad_links_html_entries b :
  bad_links_html b
  = if Dict.nonempty b
    then nl ++ "<h1>BAD LINKS</h1>" ++ nl ++ "<ul>" ++ nl
         ++ String.concat "" (map entry_line (report_entries b))
         ++ nl ++ "</ul>" ++ nl
    else "NO BAD LINKS!".
Proof.
  unfold bad_links_html. destruct (Dict.nonempty b); [|reflexivity]. simpl.
  now rewrite report_sources_lines.
Qed.

Lemma report_entries_In b s t f :
  In (s, t, f) (report_entries b) <-> ledger_get s t b = Some f.
Proof.
  unfold report_entries. rewrite in_flat_map. split.
  - intros (s' & Hs & H). apply in_map_iff in H. destruct H as (t' & E & Ht).
    inversion E; subst. clear E.
    apply sorted_In, DictFacts.mem_In in Ht.
    unfold ledger_get. destruct (Dict.get s b) as [inner|]; [|discriminate].
    apply DictFacts.mem_get in Ht. destruct Ht as (v & ->). reflexivity.
  - intros H. exists s. unfold ledger_get in H.
    destruct (Dict.get s b) as [inner|] eqn:E; [|discriminate]. split.
    + apply sorted_In, DictFacts.mem_In. eapply DictFacts.get_Some_mem; eassumption.
    + apply in_map_iff. exists t. rewrite H. split; [reflexivity|].
      apply sorted_In, DictFacts.mem_In. eapply DictFacts.get_Some_mem; eassumption.
Qed.

(** Recording a bad link keeps the keys of the ledger distinct. *)
Lemma set_NoDup {V} k (v : V) d : NoDup (Dict.keys d) -> NoDup (Dict.keys (Dict.set k v d)).
Proof.
  intros N. destruct (Dict.mem k d) eqn:E.
  - now rewrite DictFacts.keys_set_mem.
  - rewrite DictFacts.keys_set_new by assumption.
    apply NoDup_app; [assumption | constructor; [simpl; tauto | constructor] |].
    intros x Hx [<-|[]]. apply DictFacts.mem_false_In in E. contradiction.
Qed.

Lemma record_bad_link_wf source target fix_ b :
  ledger_wf b -> ledger_wf (record_bad_link source target fix_ b).
Proof.
  intros [N W]. unfold record_bad_link.
  set (b1 := if Dict.mem source b then b else Dict.set source Dict.empty b).
  assert (W1 : ledger_wf b1).
  { unfold b1. destruct (Dict.mem source b); [now split|]. split.
    - now apply set_NoDup.
    - intros s inner. rewrite DictFacts.get_set.
      destruct (String.eqb s source); [|apply W].
      intros E. inversion E. constructor. }
  destruct (negb _ || _); [|exact W1].
  destruct W1 as [N1 W1]. split; [now apply set_NoDup|].
  intros s inner. rewrite DictFacts.get_set.
  destruct (String.eqb s source); [|apply W1].
  intros E. inversion E. apply set_NoDup.
  destruct (Dict.get source b1) eqn:G; [eapply W1; eassumption | constructor].
Qed.

End ReportFacts.

(** C9: the report lists the entries of the ledger, each once, ordered by
    referencing link and then by target link; each line shows the two links
    and, when a fix is known, the suggested replacement; two ledgers that
    hold the same entries, in whatever order they were recorded, give the
    same report. *)
Theorem C9_report_sorted_deterministic :
  forall b : ledger,
    ledger_wf b ->
    bad_links_html b
    = (if Dict.nonempty b
       then nl ++ "<h1>BAD LINKS</h1>" ++ nl ++ "<ul>" ++ nl
            ++ String.concat ""
                 (map (fun '(s, t, f) =>
                         "<li>" ++ s ++ ": BAD RC - `" ++ t ++ "`"
                         ++ (if truthy_fix f
                             then " - change to `"
                                  ++ match f with Some x => x | None => "" end
                                  ++ "`"
                             else "")
                         ++ "</li>" ++ nl)
                      (report_entries b))
            ++ nl ++ "</ul>" ++ nl
       else "NO BAD LINKS!")
    /\ StronglySorted entry_le (report_entries b)
    /\ (forall s t f, In (s, t, f) (report_entries b) <-> ledger_get s t b = Some f)
    /\ (forall b', ledger_wf b' -> ledger_equiv b b' ->
                   bad_links_html b = bad_links_html b').
Proof.
  intros b W. split; [|split; [|split]].
  - rewrite ReportFacts.bad_links_html_entries.
    destruct (Dict.nonempty b); [|reflexivity].
    rewrite (map_ext entry_line
               (fun '(s, t, f) =>
                  "<li>" ++ s ++ ": BAD RC - `" ++ t ++ "`"
                  ++ (if truthy_fix f
                      then " - change to `"
                           ++ match f with Some x => x | None => "" end ++ "`"
                      else "")
                  ++ "</li>" ++ nl)); [reflexivity|].
    intros [[s t] f]. unfold entry_line, report_line, truthy_fix, truthy_str.
    destruct f as [x|]; [|reflexivity]. destruct (negb _); reflexivity.
  - unfold report_entries.
    apply (ReportFacts.entries_sorted (fun s => inner_of s b)
             (fun s => sorted (Dict.keys (inner_of s b)))).
    + apply SortFacts.sorted_strongly.
    + apply SortFacts.sorted_NoDup, W.
    + intros s. apply SortFacts.sorted_strongly.
  - apply ReportFacts.report_entries_In.
  - intros b' W' E. rewrite !ReportFacts.bad_links_html_entries.
    rewrite (ReportFacts.nonempty_equiv _ _ E).
    now rewrite (ReportFacts.report_entries_equiv _ _ W W' E).
Qed.

Lemma C9_report_sorted_deterministic_witness :
  ledger_wf Sample.ledger_ab
  /\ Sample.ledger_ab <> Sample.ledger_ba
  /\ bad_links_html Sample.ledger_ab = bad_links_html Sample.ledger_ba.
Proof.
  assert (Wab : ledger_wf Sample.ledger_ab).
  { do 2 apply ReportFacts.record_bad_link_wf. split; [constructor | discriminate]. }
  assert (Wba : ledger_wf Sample.ledger_ba).
  { do 2 apply ReportFacts.record_bad_link_wf. split; [constructor | discriminate]. }
  split; [exact Wab|]. split; [vm_compute; discriminate|].
  apply (C9_report_sorted_deterministic Sample.ledger_ab Wab); [exact Wba|].
  split.
  - intros s. unfold Dict.mem. cbn. destruct (String.eqb s _); reflexivity.
  - intros s t. unfold ledger_get. cbn.
    destruct (String.eqb s _); [|reflexivity]. cbn.
    destruct (String.eqb t "rc://en/tw/dict/bible/kt/a") eqn:Ea;
      destruct (String.eqb t "rc://en/tw/dict/bible/kt/b") eqn:Eb; try reflexivity.
    apply String.eqb_eq in Ea, Eb. congruence.
Defined.

(** ** The appendix crawler (C1, C2, C3) *)

Module CrawlFacts.

Lemma with_bad_links_id s : with_bad_links (bad_links s) s = s.
Proof. now destruct s. Qed.

Lemma with_bad_links_twice b b' s :
  with_bad_links b (with_bad_links b' s) = with_bad_links b s.
Proof. reflexivity. Qed.

Lemma add_bad_link_ledger src rc f s :
  exists b, add_bad_link src rc f s = with_bad_links b s.
Proof.
  destruct src as [x|]; simpl; [eauto|].
  exists (bad_links s). now rewrite with_bad_links_id.
Qed.

Lemma tw_record_missing_ledger src rc s :
  exists b, tw_record_missing src rc s = with_bad_links b s.
Proof. unfold tw_record_missing. destruct (negb _); eauto. Qed.

Lemma go_back_outcome e rc s :
  (exists x, get_go_back_to_html e rc s = Done x s)
  \/ (exists x, get_go_back_to_html e rc s = Raised x s).
Proof.
  unfold get_go_back_to_html.
  destruct (go_back_references e s (references rc)) as [[|a l]|x]; eauto.
Qed.

Lemma get_ta_article_html_loads e rc src s :
  loads rc (get_ta_article_html e rc src s) s.
Proof.
  unfold get_ta_article_html.
  set (p := if negb (isfile e _) then _ else _).
  destruct p as [fix_ file_path].
  destruct (isfile e file_path).
  - unfold bindM at 1.
    set (m := match fix_ with Some _ => _ | None => _ end).
    assert (Hm : exists b, m s = Done tt (with_bad_links b s)).
    { unfold m. destruct fix_ as [f|]; [destruct src as [x|]|]; unfold modify, ret.
      - destruct (add_bad_link_ledger (Some x) rc (Some f) s) as (b & ->). eauto.
      - exists (bad_links s). now rewrite with_bad_links_id.
      - exists (bad_links s). now rewrite with_bad_links_id. }
    destruct Hm as (b & ->).
    destruct (ta_content e file_path (project rc)) as [[title_ top_box] body].
    unfold bindM, ret.
    destruct (go_back_outcome e rc (with_bad_links b s)) as [(x & ->)|(x & ->)].
    + repeat split; simpl; eauto.
      intros rc' s' H. inversion H. eauto.
    + repeat split; simpl; eauto. discriminate.
  - unfold bindM, modify, ret.
    destruct (add_bad_link_ledger src rc None s) as (b & ->).
    repeat split; simpl; eauto. intros rc' s' H. inversion H. auto.
Qed.

Lemma get_tw_article_html_loads e rc src s :
  loads rc (get_tw_article_html e rc src s) s.
Proof.
  unfold get_tw_article_html. unfold bindM at 1.
  set (m := if negb (exists_ e _) then _ else _).
  assert (Hm : (exists p, m s = Done p s) \/ (exists x, m s = Raised x s)).
  { unfold m. destruct (negb _); [|unfold ret; eauto].
    unfold bindM, lift. destruct (last_of _); unfold ret; eauto. }
  destruct Hm as [([fix_ file_path] & ->)|(x & ->)].
  2:{ repeat split; simpl.
      - exists (bad_links s). now rewrite with_bad_links_id.
      - tauto.
      - discriminate. }
  destruct (isfile e file_path).
  - unfold bindM at 1.
    set (m1 := if truthy_fix fix_ then _ else _).
    assert (H1 : exists b, m1 s = Done tt (with_bad_links b s)).
    { unfold m1, modify, ret. destruct (truthy_fix fix_).
      - destruct (add_bad_link_ledger src rc fix_ s) as (b & ->). eauto.
      - exists (bad_links s). now rewrite with_bad_links_id. }
    destruct H1 as (b & ->).
    unfold bindM at 1, get_state.
    destruct (Dict.mem (rc_link rc) (appendix_rcs (with_bad_links b s)));
      cbn [negb].
    + unfold ret. repeat split; simpl; eauto. intros rc' s' H. inversion H. auto.
    + unfold bindM at 1, lift.
      destruct (first_of (extra_information rc)) as [group|x].
      * unfold bindM, ret.
        destruct (go_back_outcome e rc (with_bad_links b s)) as [(x & ->)|(x & ->)].
        -- repeat split; simpl; eauto. intros rc' s' H. inversion H. eauto.
        -- repeat split; simpl; eauto. discriminate.
      * repeat split; simpl; eauto. discriminate.
  - destruct src as [x|].
    + unfold bindM, modify, ret.
      destruct (tw_record_missing_ledger x rc s) as (b & ->).
      repeat split; simpl; eauto. intros rc' s' H. inversion H. auto.
    + unfold raise. repeat split; simpl.
      * exists (bad_links s). now rewrite with_bad_links_id.
      * tauto.
      * discriminate.
Qed.

(** *** Stored records under the steps of a crawl *)

Lemma ref_eq_dec (r t : ref) : {r = t} + {r <> t}.
Proof. decide equality; apply string_dec. Qed.

Lemma lookup_store_same t rc s : lookup_ref t (store t rc s) = Some rc.
Proof. destruct t; simpl; apply DictFacts.get_set_eq. Qed.

Lemma lookup_store_other r t rc s :
  r <> t -> lookup_ref r (store t rc s) = lookup_ref r s.
Proof.
  intros N. destruct r as [k|k], t as [k'|k']; simpl; try reflexivity;
    apply DictFacts.get_set_ne; congruence.
Qed.

Lemma mem_store t rc rc0 s k :
  lookup_ref t s = Some rc0 ->
  Dict.mem k (rcs (store t rc s)) = Dict.mem k (rcs s)
  /\ Dict.mem k (appendix_rcs (store t rc s)) = Dict.mem k (appendix_rcs s).
Proof.
  intros H. destruct t as [k'|k']; simpl in *; (split; [|]); try reflexivity;
    rewrite DictFacts.mem_set;
    destruct (String.eqb k k') eqn:E; simpl; try reflexivity;
    apply String.eqb_eq in E; subst; symmetry;
    eapply DictFacts.get_Some_mem; eassumption.
Qed.

Lemma evolves_refl r : evolves r r.
Proof. repeat split; try lia. exists []. now rewrite app_nil_r. Qed.

Lemma evolves_trans r1 r2 r3 : evolves r1 r2 -> evolves r2 r3 -> evolves r1 r3.
Proof.
  intros (A1 & B1 & C1 & m1 & D1) (A2 & B2 & C2 & m2 & D2).
  repeat split; try congruence; try lia.
  exists (m1 ++ m2)%list. now rewrite D2, D1, app_assoc.
Qed.

Lemma step_evolves e L s s' :
  step e L s s' ->
  forall r rc, lookup_ref r s = Some rc ->
    exists rc', lookup_ref r s' = Some rc' /\ evolves rc rc'
                /\ ((linking_level rc <= L + 1)%Z ->
                    linking_level rc' = linking_level rc).
Proof.
  intros H r rc Hr. destruct H as [t found l Ht Hl Hf | t found src Ht | | | rc0 M1 M2 Hl Hrefs].
  - destruct (ref_eq_dec r t) as [->|N].
    + rewrite lookup_store_same. eexists. split; [reflexivity|].
      assert (rc = found) by congruence. subst. split.
      * repeat split; simpl; try lia. exists []. now rewrite app_nil_r.
      * intros. lia.
    + rewrite lookup_store_other by assumption.
      exists rc. auto using evolves_refl.
  - destruct (ref_eq_dec r t) as [->|N].
    + rewrite lookup_store_same. eexists. split; [reflexivity|].
      assert (rc = found) by congruence. subst. split; [|reflexivity].
      repeat split; simpl; try lia. eauto.
    + rewrite lookup_store_other by assumption.
      exists rc. auto using evolves_refl.
  - exists rc. split; [destruct r; exact Hr|]. auto using evolves_refl.
  - exists rc. split; [destruct r; exact Hr|]. auto using evolves_refl.
  - exists rc. split; [|auto using evolves_refl].
    destruct r as [k|k]; simpl in *; [exact Hr|].
    rewrite DictFacts.get_set.
    destruct (String.eqb k (rc_link rc0)) eqn:E; [|exact Hr].
    apply String.eqb_eq in E. subst.
    apply DictFacts.get_Some_mem in Hr. congruence.
Qed.

Lemma steps_evolves e L s s' :
  steps e L s s' ->
  forall r rc, lookup_ref r s = Some rc ->
    exists rc', lookup_ref r s' = Some rc' /\ evolves rc rc'
                /\ ((linking_level rc <= L + 1)%Z ->
                    linking_level rc' = linking_level rc).
Proof.
  induction 1 as [s|s1 s2 s3 H1 H IH]; intros r rc Hr.
  - exists rc. auto using evolves_refl.
  - destruct (step_evolves _ _ _ _ H1 r rc Hr) as (rc2 & L2 & E2 & K2).
    destruct (IH r rc2 L2) as (rc3 & L3 & E3 & K3).
    exists rc3. split; [exact L3|]. split; [eapply evolves_trans; eassumption|].
    intros Hl. rewrite K3; [now apply K2|]. rewrite K2; assumption.
Qed.

Lemma steps_trans e L s1 s2 s3 :
  steps e L s1 s2 -> steps e L s2 s3 -> steps e L s1 s3.
Proof.
  induction 1; [auto|]. intros. econstructor; eauto.
Qed.

Lemma steps_one e L s s' : step e L s s' -> steps e L s s'.
Proof. intros. econstructor; [eassumption | constructor]. Qed.

Lemma step_weaken e L L' s s' : (L <= L')%Z -> step e L' s s' -> step e L s s'.
Proof.
  intros Hl H. destruct H.
  - eapply step_lower; eauto; lia.
  - eapply step_reference; eauto.
  - eapply step_fetch; lia.
  - apply step_ledger.
  - apply step_insert; auto; lia.
Qed.

Lemma steps_weaken e L L' s s' : (L <= L')%Z -> steps e L' s s' -> steps e L s s'.
Proof.
  intros Hl. induction 1; [constructor|].
  econstructor; [eapply step_weaken; eassumption | assumption].
Qed.

(** *** The three invariants, step by step *)

Lemma step_disjoint e L s s' : step e L s s' -> disjoint s -> disjoint s'.
Proof.
  intros H D k. destruct H as [t found l Ht _ _ | t found src Ht | | | rc0 M1 M2 _ _].
  - destruct (mem_store t (set_linking_level (l + 1) found) found s k Ht) as [-> ->].
    apply D.
  - destruct (mem_store t (add_reference src found) found s k Ht) as [-> ->].
    apply D.
  - apply D.
  - apply D.
  - simpl. intros Hk. rewrite DictFacts.mem_set, (D k Hk), orb_false_r.
    apply String.eqb_neq. intros ->. congruence.
Qed.

Lemma steps_disjoint e L s s' : steps e L s s' -> disjoint s -> disjoint s'.
Proof. induction 1; eauto using step_disjoint. Qed.

Lemma step_within_bound e L s s' :
  step e L s s' -> within_bound e s -> within_bound e s'.
Proof.
  intros H [A F]. destruct H as [t found l Ht Hl Hf | t found src Ht | link l Hl | | rc0 M1 M2 Hl _].
  - split; [|destruct t; exact F].
    intros k rc. destruct t as [k'|k']; simpl; [apply A|].
    rewrite DictFacts.get_set. destruct (String.eqb k k'); [|apply A].
    intros E. inversion E. simpl. lia.
  - split; [|destruct t; exact F].
    intros k rc. destruct t as [k'|k']; simpl; [apply A|].
    rewrite DictFacts.get_set. destruct (String.eqb k k'); [|apply A].
    intros E. inversion E. simpl. eapply A. exact Ht.
  - split; [exact A|]. simpl. intros k l0 I. apply in_app_or in I.
    destruct I as [I|[I|[]]]; [eapply F; eassumption|]. inversion I. lia.
  - split; assumption.
  - split; [|exact F]. simpl. intros k rc. rewrite DictFacts.get_set.
    destruct (String.eqb k (rc_link rc0)); [|apply A].
    intros E. inversion E. subst. lia.
Qed.

Lemma steps_within_bound e L s s' :
  steps e L s s' -> within_bound e s -> within_bound e s'.
Proof. induction 1; eauto using step_within_bound. Qed.

(** *** The crawl is made of steps *)

Lemma good_done {A} T e L s (a : A) : good T e L s (Done a s).
Proof. split; [constructor | simpl; tauto]. Qed.

Lemma good_raised {A} T e L s x : good T e L s (@Raised A x s).
Proof. split; [constructor | simpl; tauto]. Qed.

Lemma good_step {A} T e L s s' (a : A) : step e L s s' -> good T e L s (Done a s').
Proof. split; [now apply steps_one | simpl; tauto]. Qed.

Lemma good_bind {A B} T e L (m : M A) (f : A -> M B) s :
  good T e L s (m s) ->
  (forall a s', m s = Done a s' -> steps e L s s' -> good T e L s' (f a s')) ->
  good T e L s (bindM m f s).
Proof.
  intros [S N] H. unfold bindM. destruct (m s) as [a s'|x s'|s'] eqn:E; simpl in *.
  - destruct (H a s' eq_refl S) as [S' N']. split; [eapply steps_trans; eassumption | exact N'].
  - split; [exact S | tauto].
  - split; [exact S | exact N].
Qed.

Lemma good_weaken {A} (T T' : Prop) e L L' s (o : outcome A) :
  (L <= L')%Z -> (T -> T') -> good T' e L' s o -> good T e L s o.
Proof.
  intros Hl HT [S N]. split; [eapply steps_weaken; eassumption | auto].
Qed.

Lemma deref_done r s a s' :
  deref r s = Done a s' -> s' = s /\ lookup_ref r s = Some a.
Proof.
  unfold deref. destruct (lookup_ref r s); [|discriminate].
  intros H. inversion H. auto.
Qed.

Lemma good_deref T e L r s rc :
  lookup_ref r s = Some rc -> good T e L s (deref r s).
Proof. intros H. unfold deref. rewrite H. apply good_done. Qed.

Lemma mem_lookup k s :
  Dict.mem k (rcs s) || Dict.mem k (appendix_rcs s) = true ->
  exists found,
    lookup_ref (if Dict.mem k (rcs s) then InRcs k else InAppendix k) s = Some found.
Proof.
  destruct (Dict.mem k (rcs s)) eqn:E; simpl.
  - intros _. now apply DictFacts.mem_get.
  - apply DictFacts.mem_get.
Qed.

Lemma loads_fields rc rc' :
  rc' = rc \/ (exists html, rc' = set_article html rc) ->
  rc_link rc' = rc_link rc /\ linking_level rc' = linking_level rc
  /\ references rc' = references rc.
Proof. intros [->|(h & ->)]; auto. Qed.

Lemma crawl_link_good T e (crawl : ref -> M unit) source raw L :
  (L <= APPENDIX_LINKING_LEVEL e + 1)%Z ->
  (forall child c s1,
      lookup_ref child s1 = Some c -> linking_level c = (L + 1)%Z ->
      good T e (L + 1) s1 (crawl child s1)) ->
  forall s src,
    lookup_ref source s = Some src -> linking_level src = L ->
    good T e L s (crawl_link e crawl source raw s).
Proof.
  intros HL Hcrawl s src Hsrc Hlev. unfold crawl_link.
  apply good_bind; [eapply good_deref; eassumption|].
  intros a s' E _. apply deref_done in E. destruct E as [-> E].
  assert (a = src) by congruence. subst a. clear E.
  apply good_bind; [apply good_done|].
  intros s0 s' E _. inversion E; subst s0 s'. clear E.
  set (rc := new_rc e raw (linking_level src + 1)).
  destruct (Dict.mem (rc_link rc) (rcs s) || Dict.mem (rc_link rc) (appendix_rcs s)) eqn:Hmem.
  - (* the link is known: merge *)
    destruct (mem_lookup _ _ Hmem) as (found & Hfound).
    set (target := if Dict.mem (rc_link rc) (rcs s) then InRcs (rc_link rc)
                   else InAppendix (rc_link rc)) in *.
    apply good_bind; [eapply good_deref; eassumption|].
    intros a s' E _. apply deref_done in E. destruct E as [-> E].
    assert (a = found) by congruence. subst a. clear E.
    apply good_bind; [eapply good_deref; eassumption|].
    intros a s' E _. apply deref_done in E. destruct E as [-> E].
    assert (a = src) by congruence. subst a. clear E.
    apply good_bind.
    { destruct (linking_level found >? linking_level src + 1)%Z eqn:G; [|apply good_done].
      unfold update. rewrite Hfound. apply good_step.
      eapply step_lower; [eassumption | lia | lia]. }
    intros [] s1 _ S1.
    destruct (steps_evolves _ _ _ _ S1 _ _ Hsrc) as (src1 & Hsrc1 & _).
    destruct (steps_evolves _ _ _ _ S1 _ _ Hfound) as (found1 & Hfound1 & _).
    apply good_bind; [eapply good_deref; eassumption|].
    intros a s' E _. apply deref_done in E. destruct E as [-> E].
    unfold update. rewrite Hfound1. apply good_step.
    eapply step_reference; eassumption.
  - apply orb_false_iff in Hmem. destruct Hmem as [M1 M2].
    destruct (negb (Py.mem_str (resource rc) APPENDIX_RESOURCES)); [apply good_done|].
    apply good_bind.
    { unfold modify. apply good_step. apply step_fetch. simpl. lia. }
    intros [] s1 E _. unfold modify in E. inversion E; subst s1. clear E.
    apply good_bind; [eapply good_deref; destruct source; exact Hsrc|].
    intros a s' E _. apply deref_done in E. destruct E as [-> E].
    assert (a = src) by (destruct source; simpl in *; congruence).
    subst a. clear E.
    set (s1 := with_fetched _ s).
    set (loader := if String.eqb (resource rc) "ta" then _ else _).
    assert (Hload : loads rc (loader s1) s1).
    { unfold loader. destruct (String.eqb (resource rc) "ta");
        [apply get_ta_article_html_loads|].
      destruct (String.eqb (resource rc) "tw");
        [apply get_tw_article_html_loads|].
      unfold ret. repeat split; simpl.
      - exists (bad_links s1). now rewrite with_bad_links_id.
      - tauto.
      - intros rc' s' H. inversion H. auto. }
    destruct Hload as ((b & Hb) & Hns & Hrc).
    apply good_bind.
    { split; [|auto]. rewrite Hb. apply steps_one, step_ledger. }
    intros rc' s2 E _. rewrite E in Hb. simpl in Hb. subst s2.
    destruct (loads_fields _ _ (Hrc _ _ E)) as (Fl & Fv & Fr).
    destruct (truthy_str (article rc')).
    + apply good_bind.
      { unfold modify. apply good_step. apply step_insert.
        - rewrite Fl. exact M1.
        - rewrite Fl. exact M2.
        - rewrite Fv. simpl. lia.
        - rewrite Fr. reflexivity. }
      intros [] s3 E3 _. unfold modify in E3. inversion E3; subst s3. clear E3.
      eapply good_weaken with (L' := (L + 1)%Z) (T' := T); [lia | auto |].
      eapply Hcrawl.
      * simpl. apply DictFacts.get_set_eq.
      * rewrite Fv. simpl. lia.
    + apply good_bind; [eapply good_deref; destruct source; exact Hsrc|].
      intros a s' E' _. apply deref_done in E'. destruct E' as [-> _].
      unfold modify.
      destruct (add_bad_link_ledger (Some a) rc' None (with_bad_links b s1)) as (b' & ->).
      apply good_step, step_ledger.
Qed.

Lemma crawl_links_good T e (crawl : ref -> M unit) source L :
  (L <= APPENDIX_LINKING_LEVEL e + 1)%Z ->
  (forall child c s1,
      lookup_ref child s1 = Some c -> linking_level c = (L + 1)%Z ->
      good T e (L + 1) s1 (crawl child s1)) ->
  forall rc_links s src,
    lookup_ref source s = Some src -> linking_level src = L ->
    good T e L s (crawl_links e crawl source rc_links s).
Proof.
  intros HL Hcrawl rc_links.
  induction rc_links as [|raw rest IH]; intros s src Hsrc Hlev; simpl.
  - apply good_done.
  - apply good_bind; [eapply crawl_link_good; eassumption|].
    intros [] s' _ S.
    destruct (steps_evolves _ _ _ _ S _ _ Hsrc) as (src' & Hsrc' & _ & K).
    eapply IH; [exact Hsrc'|]. rewrite K; lia.
Qed.

Lemma crawl_fuel_pos e l : 1 <= crawl_fuel e l.
Proof. unfold crawl_fuel. lia. Qed.

Lemma crawl_good e fuel : forall source s src,
  lookup_ref source s = Some src ->
  good (crawl_fuel e (linking_level src) <= fuel) e (linking_level src) s
       (crawl e fuel source s).
Proof.
  induction fuel as [|n IH]; intros source s src Hsrc; simpl.
  - split; [constructor|]. pose proof (crawl_fuel_pos e (linking_level src)). lia.
  - apply good_bind; [eapply good_deref; eassumption|].
    intros a s' E _. apply deref_done in E. destruct E as [-> E].
    assert (a = src) by congruence. subst a. clear E.
    destruct (linking_level src >? APPENDIX_LINKING_LEVEL e + 1)%Z eqn:G;
      [apply good_done|].
    eapply crawl_links_good; try eassumption; try reflexivity; [lia|].
    intros child c s1 Hc Hl.
    eapply good_weaken with (L' := linking_level c)
                            (T' := crawl_fuel e (linking_level c) <= n);
      [lia | | now apply IH].
    rewrite Hl. unfold crawl_fuel. lia.
Qed.

Lemma crawl_ta_tw_deep_linking_good e source s src :
  lookup_ref source s = Some src ->
  good True e (linking_level src) s (crawl_ta_tw_deep_linking e source s).
Proof.
  intros Hsrc. unfold crawl_ta_tw_deep_linking.
  apply good_bind; [eapply good_deref; eassumption|].
  intros a s' E _. apply deref_done in E. destruct E as [-> E].
  assert (a = src) by congruence. subst a.
  eapply good_weaken; [| |eapply crawl_good; eassumption]; [lia|intros _; lia].
Qed.

(** *** From steps to the invariant of a crawl *)

Lemma crawl_invariant_refl e s : crawl_invariant e s s.
Proof.
  split; [reflexivity|]. split; [auto|]. split; [auto|].
  intros r rc Hr. exists rc. auto using evolves_refl.
Qed.

Lemma crawl_invariant_trans e s1 s2 s3 :
  crawl_invariant e s1 s2 -> crawl_invariant e s2 s3 -> crawl_invariant e s1 s3.
Proof.
  intros (K1 & D1 & B1 & E1) (K2 & D2 & B2 & E2).
  split; [congruence|]. split; [auto|]. split; [auto|].
  intros r rc Hr. destruct (E1 _ _ Hr) as (rc2 & H2 & V2).
  destruct (E2 _ _ H2) as (rc3 & H3 & V3).
  exists rc3. split; [exact H3 | eapply evolves_trans; eassumption].
Qed.

Lemma step_keys e L s s' : step e L s s' -> Dict.keys (rcs s') = Dict.keys (rcs s).
Proof.
  intros H. destruct H as [t found l Ht _ _ | t found src Ht | | |]; try reflexivity;
    destruct t as [k|k]; simpl in *; try reflexivity;
    apply DictFacts.keys_set_mem; eapply DictFacts.get_Some_mem; eassumption.
Qed.

Lemma steps_invariant e L s s' : steps e L s s' -> crawl_invariant e s s'.
Proof.
  induction 1 as [s|s1 s2 s3 H1 H IH]; [apply crawl_invariant_refl|].
  eapply crawl_invariant_trans; [|exact IH].
  split; [|split; [|split]].
  - eapply step_keys; eassumption.
  - eapply step_disjoint; eassumption.
  - eapply step_within_bound; eassumption.
  - intros r rc Hr. destruct (step_evolves _ _ _ _ H1 r rc Hr) as (rc' & A & B & _).
    eauto.
Qed.

Lemma crawl_ta_tw_deep_linking_invariant e source s :
  crawl_invariant e s (state_of (crawl_ta_tw_deep_linking e source s)).
Proof.
  destruct (lookup_ref source s) as [src|] eqn:E.
  - eapply steps_invariant. eapply crawl_ta_tw_deep_linking_good; eassumption.
  - unfold crawl_ta_tw_deep_linking, bindM, deref. rewrite E.
    apply crawl_invariant_refl.
Qed.

Lemma crawl_all_invariant e keys : forall s,
  crawl_invariant e s (state_of (crawl_all e keys s))
  /\ ((forall k, In k keys -> Dict.mem k (rcs s) = true) ->
      ~ is_stuck (crawl_all e keys s)).
Proof.
  induction keys as [|k rest IH]; intros s; simpl.
  - split; [apply crawl_invariant_refl | simpl; tauto].
  - unfold bindM.
    pose proof (crawl_ta_tw_deep_linking_invariant e (InRcs k) s) as I.
    destruct (crawl_ta_tw_deep_linking e (InRcs k) s) as [[] s'|x s'|s'] eqn:E;
      simpl in I.
    + destruct (IH s') as [I' N']. split.
      * eapply crawl_invariant_trans; eassumption.
      * intros Hk. apply N'. intros k' Hk'.
        apply DictFacts.mem_In. destruct I as (K & _). rewrite K.
        apply DictFacts.mem_In. apply Hk. now right.
    + split; [exact I | simpl; tauto].
    + split; [exact I|]. intros Hk.
      destruct (DictFacts.mem_get (rcs s) k (Hk k (or_introl eq_refl))) as (src & Hsrc).
      pose proof (crawl_ta_tw_deep_linking_good e (InRcs k) s src Hsrc) as [_ N].
      rewrite E in N. now apply N.
Qed.

Lemma get_appendix_rcs_invariant e s :
  crawl_invariant e s (state_of (get_appendix_rcs e s))
  /\ ~ is_stuck (get_appendix_rcs e s).
Proof.
  unfold get_appendix_rcs, bindM, get_state.
  destruct (crawl_all_invariant e (Dict.keys (rcs s)) s) as [I N].
  split; [exact I|]. apply N. intros k. apply DictFacts.mem_In.
Qed.

End CrawlFacts.

Module CutoffFacts.
Import CrawlFacts.




End CutoffFacts.




(** C3: a crawl keeps the two registries disjoint.  The keys of the primary
    registry stay what they are, the appendix only gains keys, and a key is
    inserted into the appendix only when it is in neither registry; so from
    a disjoint state (an empty appendix at the start of a build) the state
    after the crawl of one source or of the whole primary registry is
    disjoint, and so is every state in between. *)
Theorem C3_registries_stay_disjoint :
  forall (e : env) (s : state),
    disjoint s ->
    disjoint (state_of (get_appendix_rcs e s))
    /\ (forall source, disjoint (state_of (crawl_ta_tw_deep_linking e source s)))
    /\ (forall L s', steps e L s s' -> disjoint s')
    /\ (forall rc, Dict.mem (rc_link rc) (rcs s) = false ->
                   disjoint (insert_appendix rc s))
    /\ Dict.keys (rcs (state_of (get_appendix_rcs e s))) = Dict.keys (rcs s)
    /\ (forall k, Dict.mem k (appendix_rcs s) = true ->
          Dict.mem k (appendix_rcs (state_of (get_appendix_rcs e s))) = true).
Proof.
  intros e s D.
  destruct (CrawlFacts.get_appendix_rcs_invariant e s) as [(K & Dj & _ & Ev) _].
  split; [now apply Dj|]. split; [|split; [|split; [|split]]].
  - intros source.
    now apply (CrawlFacts.crawl_ta_tw_deep_linking_invariant e source s).
  - intros L s' S. eapply CrawlFacts.steps_disjoint; eassumption.
  - intros rc M k Hk. simpl. rewrite DictFacts.mem_set, (D k Hk), orb_false_r.
    apply String.eqb_neq. intros ->. simpl in Hk. congruence.
  - exact K.
  - intros k Hk. apply DictFacts.mem_get in Hk. destruct Hk as (rc & Hk).
    destruct (Ev (InAppendix k) rc Hk) as (rc' & Hk' & _).
    eapply DictFacts.get_Some_mem. exact Hk'.
Qed.

Lemma C3_registries_stay_disjoint_witness :
  disjoint Sample.s12
  /\ disjoint (state_of (get_appendix_rcs Sample.e1 Sample.s12)).
Proof.
  assert (D : disjoint Sample.s12) by (intros k _; reflexivity).
  split; [exact D|].
  exact (proj1 (C3_registries_stay_disjoint Sample.e1 Sample.s12 D)).
Defined.

Lemma set_linking_level_same r : set_linking_level (linking_level r) r = r.
Proof. now destruct r. Qed.

(** C2, as the code has it: when the link found in the body of a source is
    a key of one of the registries, the stored record gets the linking level
    min(existing, level of the source + 1) and the source as one more
    back-reference; nothing else changes: no record is handed to a loader,
    no key is added to the appendix, the ledger is as before, and the
    recursive call is not made.  Over a whole crawl every stored record
    keeps its link and body, its linking level never grows and its
    back-references are only added to. *)
Theorem C2_merge_takes_minimum :
  forall (e : env) (crawl : ref -> M unit) (source : ref) (raw : string)
         (s : state) (src found : RC),
    let key := rc_link (new_rc e raw (linking_level src + 1)) in
    let target := if Dict.mem key (rcs s) then InRcs key else InAppendix key in
    lookup_ref source s = Some src ->
    lookup_ref target s = Some found ->
    (exists s',
        crawl_link e crawl source raw s = Done tt s'
        /\ lookup_ref target s'
           = Some (add_reference src
                     (set_linking_level
                        (Z.min (linking_level found) (linking_level src + 1))
                        found))
        /\ (forall r, r <> target -> lookup_ref r s' = lookup_ref r s)
        /\ fetched s' = fetched s
        /\ bad_links s' = bad_links s
        /\ Dict.keys (appendix_rcs s') = Dict.keys (appendix_rcs s))
    /\ crawl_invariant e s (state_of (get_appendix_rcs e s)).
Proof.
  intros e crawl source raw s src found key target Hsrc Hfound.
  split; [|apply CrawlFacts.get_appendix_rcs_invariant].
  assert (Hmem : Dict.mem key (rcs s) || Dict.mem key (appendix_rcs s) = true).
  { unfold target in Hfound. destruct (Dict.mem key (rcs s)) eqn:E; [reflexivity|].
    simpl in *. eapply DictFacts.get_Some_mem; eassumption. }
  unfold crawl_link. unfold bindM at 1, deref at 1. rewrite Hsrc.
  unfold bindM at 1, get_state.
  fold key. rewrite Hmem. fold target.
  unfold bindM at 1, deref at 1. rewrite Hfound.
  unfold bindM at 1, deref at 1. rewrite Hsrc.
  unfold bindM at 1.
  assert (Hkeys : forall rc, Dict.keys (appendix_rcs (store target rc s))
                             = Dict.keys (appendix_rcs s)).
  { intros rc. destruct target as [k|k]; simpl in *; [reflexivity|].
    apply DictFacts.keys_set_mem. eapply DictFacts.get_Some_mem; eassumption. }
  destruct (linking_level found >? linking_level src + 1)%Z eqn:G.
  - unfold update at 1. rewrite Hfound.
    assert (N : source <> target).
    { intros ->. assert (src = found) by congruence. subst. lia. }
    unfold bindM at 1, deref at 1.
    rewrite CrawlFacts.lookup_store_other, Hsrc by assumption.
    unfold update. rewrite CrawlFacts.lookup_store_same.
    eexists. split; [reflexivity|].
    rewrite CrawlFacts.lookup_store_same.
    rewrite Z.min_r by lia.
    split; [reflexivity|]. split.
    + intros r Hr. now rewrite !CrawlFacts.lookup_store_other.
    + destruct target; simpl; repeat split; try reflexivity.
      simpl in *. rewrite DictFacts.keys_set_mem.
      * apply DictFacts.keys_set_mem. eapply DictFacts.get_Some_mem; eassumption.
      * rewrite DictFacts.mem_set, String.eqb_refl. reflexivity.
  - unfold ret at 1.
    unfold bindM at 1, deref at 1. rewrite Hsrc.
    unfold update. rewrite Hfound.
    eexists. split; [reflexivity|].
    rewrite CrawlFacts.lookup_store_same.
    rewrite Z.min_l by lia. rewrite set_linking_level_same.
    split; [reflexivity|]. split.
    + intros r Hr. now rewrite CrawlFacts.lookup_store_other.
    + destruct target; simpl; repeat split; try reflexivity.
      simpl in *. apply DictFacts.keys_set_mem.
      eapply DictFacts.get_Some_mem; eassumption.
Qed.

Lemma C2_merge_takes_minimum_witness :
  lookup_ref (InRcs "rc://en/tn/help/p2") Sample.known = Some Sample.p2
  /\ lookup_ref (InAppendix "rc://en/ta/man/t/cc") Sample.known = Some Sample.cc2
  /\ exists s',
       crawl_link Sample.e1 (fun _ => stuck) (InRcs "rc://en/tn/help/p2")
         "rc://en/ta/man/t/cc" Sample.known = Done tt s'
       /\ option_map linking_level
            (lookup_ref (InAppendix "rc://en/ta/man/t/cc") s') = Some 1%Z
       /\ option_map references
            (lookup_ref (InAppendix "rc://en/ta/man/t/cc") s')
          = Some ["rc://en/ta/man/t/aa"; "rc://en/tn/help/p2"].
Proof.
  split; [reflexivity|]. split; [reflexivity|].
  destruct (C2_merge_takes_minimum Sample.e1 (fun _ => stuck)
              (InRcs "rc://en/tn/help/p2") "rc://en/ta/man/t/cc"
              Sample.known Sample.p2 Sample.cc2 eq_refl eq_refl)
    as [(s' & R & T & _) _].
  exists s'. split; [exact R|].
  cbv zeta in T. change (lookup_ref (InAppendix "rc://en/ta/man/t/cc") s'
            = Some (add_reference Sample.p2
                      (set_linking_level 1 Sample.cc2))) in T.
  rewrite T. split; reflexivity.
Defined.

(** C2 as stated fails: the stored depth depends on the order of traversal.
    With the primary documents [p1] (which links to [aa], which links to
    [cc], which links to [ee]) and [p2] (which links to [cc]), the article
    [ee] ends at depth 3 when [p1] is crawled first and at depth 2 when
    [p2] is crawled first: the merge lowers [cc] to depth 1 but does not
    re-expand it. *)
Lemma C2_counterexample :
  ~ (forall (e : env) (s1 s2 : state) (k : string),
        Permutation (rcs s1) (rcs s2) ->
        appendix_rcs s1 = [] -> appendix_rcs s2 = [] ->
        option_map linking_level
          (Dict.get k (appendix_rcs (state_of (get_appendix_rcs e s1))))
        = option_map linking_level
            (Dict.get k (appendix_rcs (state_of (get_appendix_rcs e s2))))).
Proof.
  intros H.
  specialize (H Sample.e1 Sample.s12 Sample.s21 "rc://en/ta/man/t/ee"
                (perm_swap _ _ _) eq_refl eq_refl).
  vm_compute in H. discriminate.
Qed.

(** ** The phrase highlighter (C7) *)

Module HighlightFacts.
Import Re.
Local Opaque Ascii.eqb.

Lemma prefix_app p r : String.prefix p (p ++ r) = true.
Proof.
  induction p as [|a p IH]; simpl; [now destruct r|].
  destruct (ascii_dec a a); [exact IH | congruence].
Qed.

Lemma drop_app p r : Py.drop (String.length p) (p ++ r) = r.
Proof. induction p as [|a p IH]; simpl; [reflexivity | exact IH]. Qed.

Lemma substring_app p r : substring 0 (String.length p) (p ++ r) = p.
Proof.
  induction p as [|a p IH]; simpl; [now destruct r | now rewrite IH].
Qed.

Lemma consumed_app p r : consumed (p ++ r) r = p.
Proof.
  unfold consumed. rewrite StrFacts.length_append.
  replace (String.length p + String.length r - String.length r)
    with (String.length p) by lia.
  apply substring_app.
Qed.

Lemma char_in_app c s t :
  Py.char_in c (s ++ t) = Py.char_in c s || Py.char_in c t.
Proof.
  induction s as [|a s IH]; simpl; [reflexivity|].
  now rewrite IH, orb_assoc.
Qed.

Lemma run_Lit p : forall s c k,
  run (Lit p) s c k
  = if String.prefix p s then k (Py.drop (String.length p) s) c else None.
Proof.
  induction p as [|a p IH]; intros s c k.
  - simpl. now destruct s.
  - destruct s as [|b s]; [reflexivity|].
    cbn [Lit run]. unfold chr_eq. simpl.
    destruct (ascii_dec a b) as [->|N].
    + rewrite Ascii.eqb_refl. apply IH.
    + apply Ascii.eqb_neq in N. now rewrite N.
Qed.

Lemma char_in_outside s : Py.char_in ">" s = false -> outside_tag s = true.
Proof.
  induction s as [|a s IH]; intros H; [reflexivity|].
  cbn [Py.char_in] in H. apply orb_false_iff in H. destruct H as [Ha Hs].
  cbn [outside_tag]. rewrite Ascii.eqb_sym in Ha. rewrite Ha.
  destruct (Ascii.eqb a "<"); [reflexivity | now apply IH].
Qed.

(** The look-ahead finds no end of tag in a text whose first [<] or [>],
    if any, is [<]. *)
Lemma close_tag_not_ahead s c k :
  outside_tag s = true ->
  run (Seq (Star (Chr Pat.not_lt)) (Chr (chr_eq ">"))) s c k = None.
Proof.
  intros H. cbn [run].
  generalize (String.length s) as n. intros n. revert s c H.
  induction n as [|n IH]; intros s c H.
  - destruct s as [|a s]; [reflexivity|].
    cbn [outside_tag] in H. unfold chr_eq. rewrite (Ascii.eqb_sym ">" a).
    destruct (Ascii.eqb a "<") eqn:El.
    + apply Ascii.eqb_eq in El. subst a. reflexivity.
    + destruct (Ascii.eqb a ">"); [discriminate | reflexivity].
  - destruct s as [|a s]; [reflexivity|].
    cbn [outside_tag] in H. unfold chr_eq, Pat.not_lt.
    rewrite (Ascii.eqb_sym ">" a).
    destruct (Ascii.eqb a "<") eqn:El; cbn [negb].
    + apply Ascii.eqb_eq in El. subst a. reflexivity.
    + destruct (Ascii.eqb a ">") eqn:Eg; [discriminate|].
      destruct (Nat.ltb _ _); [|reflexivity].
      now rewrite IH.
Qed.

Lemma run_NotAhead a s c k :
  run (NotAhead a) s c k
  = match run a s c (fun s' c' => Some (s', c')) with
    | Some _ => None
    | None => k s c
    end.
Proof. reflexivity. Qed.

Lemma run_Seq a b s c k :
  run (Seq a b) s c k = run a s c (fun s' c' => run b s' c' k).
Proof. reflexivity. Qed.

Lemma run_Group n a s c k :
  run (Group n a) s c k
  = run a s c (fun s' c' => k s' ((n, consumed s s') :: c')).
Proof. reflexivity. Qed.

Lemma run_not_in_tag s c k :
  outside_tag s = true -> run Pat.not_in_tag s c k = k s c.
Proof.
  intros H. unfold Pat.not_in_tag.
  now rewrite run_NotAhead, close_tag_not_ahead.
Qed.

Lemma match_at_literal_miss p s :
  String.prefix p s = false -> match_at (literal p) s = None.
Proof.
  intros H. unfold match_at, literal, Pat.escaped.
  now rewrite run_Seq, run_Group, run_Lit, H.
Qed.

Lemma match_at_literal_hit p z :
  outside_tag z = true ->
  match_at (literal p) (p ++ z) = Some (p, z, [(1, p)]).
Proof.
  intros H. unfold match_at, literal, Pat.escaped.
  rewrite run_Seq, run_Group, run_Lit, prefix_app, drop_app.
  rewrite run_not_in_tag by assumption.
  now rewrite !consumed_app.
Qed.

Lemma search_from_eq r skipped s :
  search_from r skipped s
  = match match_at r s with
    | Some (m, rest, c) => Some (mkMatch skipped m rest c)
    | None =>
        match s with
        | EmptyString => None
        | String a s' => search_from r (skipped ++ String a EmptyString) s'
        end
    end.
Proof. destruct s; reflexivity. Qed.

Lemma search_literal p z : forall a skipped,
  outside_tag z = true ->
  first_at p a z = true ->
  search_from (literal p) skipped (a ++ p ++ z)
  = Some (mkMatch (skipped ++ a) p z [(1, p)]).
Proof.
  induction a as [|c a IH]; intros skipped Hz Hf.
  - cbn [append]. rewrite search_from_eq, match_at_literal_hit by assumption.
    now rewrite StrFacts.append_nil_r.
  - cbn [first_at] in Hf. apply andb_true_iff in Hf. destruct Hf as [Hn Hf].
    apply negb_true_iff in Hn.
    rewrite search_from_eq, match_at_literal_miss by assumption.
    cbn [append]. rewrite IH by assumption.
    now rewrite StrFacts.append_assoc.
Qed.

Lemma contains_span s :
  Py.char_in "<" s = false -> Py.contains "<span" s = false.
Proof.
  induction s as [|c s IH]; intros H; [reflexivity|].
  cbn [Py.char_in] in H. apply orb_false_iff in H. destruct H as [Hc Hs].
  cbn [Py.contains String.prefix].
  destruct (ascii_dec "<" c) as [<-|N].
  - now rewrite Ascii.eqb_refl in Hc.
  - now apply IH.
Qed.

Lemma markup_free_parts a p z :
  markup_free (a ++ p ++ z) = true ->
  Py.char_in "<" (a ++ p ++ z) = false /\ Py.char_in ">" z = false.
Proof.
  unfold markup_free. rewrite andb_true_iff, !negb_true_iff.
  intros [Hl Hg]. split; [exact Hl|].
  rewrite !char_in_app in Hg. now repeat (apply orb_false_iff in Hg; destruct Hg as [_ Hg]).
Qed.

(** A phrase without blank gives the same pattern whether the text holds a
    [span] tag or not. *)
Lemma spanned_no_blank p : forall g,
  Py.char_in " " p = false -> Pat.spanned g p = (Lit p, g).
Proof.
  induction p as [|a p IH]; intros g H; [reflexivity|].
  cbn [Py.char_in] in H. apply orb_false_iff in H. destruct H as [Ha Hp].
  cbn [Pat.spanned]. rewrite Ascii.eqb_sym in Ha. rewrite Ha.
  now rewrite IH.
Qed.

Lemma split_pattern_literal text p :
  Py.contains "<span" text = false \/ Py.char_in " " p = false ->
  Pat.split_pattern text p = (literal p, 1).
Proof.
  intros H. unfold Pat.split_pattern.
  destruct (Py.contains "<span" text) eqn:C; [|reflexivity].
  destruct H as [H|H]; [discriminate|].
  now rewrite spanned_no_blank.
Qed.

(** The first occurrence of a phrase that holds no ellipsis is wrapped, and
    nothing else changes, when it does not lie inside a tag and the phrase
    holds no blank or the text no [span] tag. *)
Lemma highlight_text_first a p z :
  outside_tag z = true ->
  Py.contains "<span" (a ++ p ++ z) = false \/ Py.char_in " " p = false ->
  Py.strip_nonempty p = true ->
  Re.search Pat.ellipsis p = None ->
  first_at p a z = true ->
  highlight_text (a ++ p ++ z) p = a ++ span_of "highlight" p ++ z.
Proof.
  intros Hg Hl Hs He Hf.
  unfold highlight_text, Re.split, Re.pieces. cbn [pieces_fuel]. rewrite He.
  cbn [split_pieces append List.length highlight_parts]. rewrite Hs. cbn [negb].
  rewrite split_pattern_literal by assumption.
  unfold Re.split1, Re.search.
  rewrite search_literal by assumption.
  cbn -[span_of truthy_str].
  destruct (truthy_str z) eqn:Ez.
  - apply StrFacts.append_assoc.
  - unfold truthy_str in Ez. apply negb_false_iff, String.eqb_eq in Ez.
    subst z. now rewrite StrFacts.append_nil_r.
Qed.

(** In a text without markup, the first occurrence of a phrase that holds
    no ellipsis is wrapped, and nothing else changes. *)
Lemma highlight_text_literal a p z :
  markup_free (a ++ p ++ z) = true ->
  Py.strip_nonempty p = true ->
  Re.search Pat.ellipsis p = None ->
  first_at p a z = true ->
  highlight_text (a ++ p ++ z) p = a ++ span_of "highlight" p ++ z.
Proof.
  intros Hm Hs He Hf. destruct (markup_free_parts _ _ _ Hm) as [Hl Hg].
  apply highlight_text_first; try assumption.
  - now apply char_in_outside.
  - left. now apply contains_span.
Qed.

Lemma span_of_open classes body :
  span_of classes body = span_open classes ++ body ++ "</span>".
Proof.
  unfold span_of, span_open. now rewrite !StrFacts.append_assoc.
Qed.

(** A shorter phrase without blank that occurs first inside a longer one
    is wrapped inside the span of the longer one. *)
Lemma highlight_text_nested a l q r z :
  Py.char_in ">" r = false ->
  Py.char_in " " q = false ->
  Py.strip_nonempty q = true ->
  Re.search Pat.ellipsis q = None ->
  first_at q (a ++ span_open "highlight" ++ l) (r ++ "</span>" ++ z) = true ->
  highlight_text (a ++ span_of "highlight" (l ++ q ++ r) ++ z) q
  = a ++ span_of "highlight" (l ++ span_of "highlight" q ++ r) ++ z.
Proof.
  intros Hr Hb Hs He Hf.
  assert (E1 : a ++ span_of "highlight" (l ++ q ++ r) ++ z
               = (a ++ span_open "highlight" ++ l) ++ q ++ (r ++ "</span>" ++ z)).
  { rewrite span_of_open. now rewrite !StrFacts.append_assoc. }
  assert (E2 : a ++ span_of "highlight" (l ++ span_of "highlight" q ++ r) ++ z
               = (a ++ span_open "highlight" ++ l) ++ span_of "highlight" q
                 ++ (r ++ "</span>" ++ z)).
  { rewrite (span_of_open "highlight" (l ++ _)). now rewrite !StrFacts.append_assoc. }
  rewrite E1, E2. apply highlight_text_first; try assumption; [|now right].
  clear -Hr. induction r as [|c r IH]; [reflexivity|].
  cbn [Py.char_in] in Hr. apply orb_false_iff in Hr. destruct Hr as [Hc Hr].
  cbn [append outside_tag]. rewrite Ascii.eqb_sym in Hc. rewrite Hc.
  destruct (Ascii.eqb c "<"); [reflexivity | now apply IH].
Qed.

(** The order of processing *)

Lemma insert_by_len_perm x l : Permutation (x :: l) (insert_by_len x l).
Proof.
  induction l as [|y r IH]; simpl; [reflexivity|].
  destruct (Nat.leb _ _); [reflexivity|].
  rewrite perm_swap. now constructor.
Qed.

Lemma sort_by_len_desc_perm l : Permutation l (sort_by_len_desc l).
Proof.
  induction l as [|x r IH]; simpl; [constructor|].
  rewrite <- insert_by_len_perm. now constructor.
Qed.

Lemma insert_by_len_sorted x l :
  StronglySorted not_shorter l -> StronglySorted not_shorter (insert_by_len x l).
Proof.
  induction 1 as [|y r S IH F]; simpl.
  - constructor; constructor.
  - destruct (Nat.leb (Py.py_len y) (Py.py_len x)) eqn:E.
    + apply Nat.leb_le in E. constructor; [now constructor|].
      constructor; [exact E|].
      eapply Forall_impl; [|exact F]. unfold not_shorter. intros z Hz. lia.
    + apply Nat.leb_gt in E. constructor; [exact IH|].
      eapply Permutation_Forall; [apply insert_by_len_perm|].
      constructor; [unfold not_shorter; lia | exact F].
Qed.

Lemma sort_by_len_desc_sorted l : StronglySorted not_shorter (sort_by_len_desc l).
Proof.
  induction l as [|x r IH]; simpl; [constructor|].
  now apply insert_by_len_sorted.
Qed.

Lemma no_links_under_set rc t notes b :
  no_links_under rc (Dict.set rc (Notes t notes) b).
Proof. unfold no_links_under. now rewrite DictFacts.get_set_eq. Qed.

(** The loop returns when the key holds no entry of [add_bad_link]. *)
Lemma highlight_loop_fold orig rc ignore phrases : forall t b,
  no_links_under rc b ->
  fst (highlight_loop orig rc ignore phrases t b)
  = Py.Ok (fold_left highlight_text phrases t).
Proof.
  induction phrases as [|p r IH]; intros t b N; [reflexivity|].
  cbn [highlight_loop fold_left].
  destruct (String.eqb (highlight_text t p) t) eqn:E; cbn [negb].
  - apply String.eqb_eq in E. rewrite E.
    destruct (_ || _); [|now apply IH].
    destruct (Dict.mem rc b) eqn:M.
    + unfold no_links_under in N.
      destruct (Dict.get rc b) as [[inner|t0 notes]|] eqn:G.
      * destruct N.
      * apply IH, no_links_under_set.
      * apply DictFacts.mem_get in M. destruct M as (x & M). congruence.
    + rewrite DictFacts.get_set_eq. apply IH, no_links_under_set.
  - now apply IH.
Qed.

(** When the loop returns, it returns the text with the phrases
    highlighted in turn. *)
Lemma highlight_loop_returns orig rc ignore phrases : forall t b res,
  fst (highlight_loop orig rc ignore phrases t b) = Py.Ok res ->
  res = fold_left highlight_text phrases t.
Proof.
  induction phrases as [|p r IH]; intros t b res H.
  - cbn in H. now inversion H.
  - cbn [highlight_loop fold_left] in *.
    destruct (String.eqb (highlight_text t p) t) eqn:E; cbn [negb] in H.
    + apply String.eqb_eq in E. rewrite E.
      destruct (_ || _); [|now apply IH in H].
      destruct (Dict.get rc _) as [[inner|t0 notes]|]; try discriminate H.
      now apply IH in H.
    + now apply IH in H.
Qed.

(** The loop raises at the first phrase that is not found and not ignored
    when the key holds an entry of [add_bad_link]. *)
Lemma highlight_loop_raises orig rc ignore p rest t b inner :
  Dict.get rc b = Some (Links inner) ->
  highlight_text t p = t ->
  Py.mem_str p ignore = false ->
  highlight_loop orig rc ignore (p :: rest) t b
  = (Py.Raise (if Dict.mem "notes" inner then Py.AttributeError else Py.KeyError), b).
Proof.
  intros G E I. cbn [highlight_loop]. rewrite E, String.eqb_refl, I. cbn [negb].
  rewrite orb_true_r.
  rewrite (DictFacts.get_Some_mem _ _ _ G), G. reflexivity.
Qed.


End HighlightFacts.

(** C7, as the code has it: the phrases are processed longest first, each
    on the text as highlighted so far, and the text with the phrases
    highlighted in turn is what the function returns (it returns unless the
    key holds an entry of [add_bad_link]); in a text without markup the
    first occurrence of a phrase without ellipsis is wrapped in emphasis
    markup and nothing else changes, so the longer of two phrases is wrapped
    whole; a shorter phrase without blank whose first occurrence then lies
    inside the longer phrase is wrapped inside the span of the longer one,
    and so is the phrase [the Lord] in [the Lord God]. *)
Theorem C7_longest_first :
  forall (orig_text : string) (phrases : list string) (rc : string)
         (ignore : list string) (b : highlight_ledger),
    Permutation phrases (sort_by_len_desc phrases)
    /\ StronglySorted not_shorter (sort_by_len_desc phrases)
    /\ (no_links_under rc b ->
          fst (highlight_text_with_phrases orig_text phrases rc ignore b)
          = Py.Ok (fold_left highlight_text (sort_by_len_desc phrases) orig_text))
    /\ (forall res,
          fst (highlight_text_with_phrases orig_text phrases rc ignore b) = Py.Ok res ->
          res = fold_left highlight_text (sort_by_len_desc phrases) orig_text)
    /\ (forall a p z,
          markup_free (a ++ p ++ z) = true ->
          Py.strip_nonempty p = true ->
          Re.search Pat.ellipsis p = None ->
          first_at p a z = true ->
          highlight_text (a ++ p ++ z) p = a ++ span_of "highlight" p ++ z)
    /\ (forall a l q r z,
          Py.char_in ">" r = false ->
          Py.char_in " " q = false ->
          Py.strip_nonempty q = true ->
          Re.search Pat.ellipsis q = None ->
          first_at q (a ++ span_open "highlight" ++ l) (r ++ "</span>" ++ z) = true ->
          highlight_text (a ++ span_of "highlight" (l ++ q ++ r) ++ z) q
          = a ++ span_of "highlight" (l ++ span_of "highlight" q ++ r) ++ z)
    /\ fst (highlight_text_with_phrases Sample.praise Sample.the_lord rc ignore b)
       = Py.Ok ("praise "
                ++ span_of "highlight" (span_of "highlight" "the Lord" ++ " God")
                ++ " now").
Proof.
  intros orig_text phrases rc ignore b.
  split; [apply HighlightFacts.sort_by_len_desc_perm|].
  split; [apply HighlightFacts.sort_by_len_desc_sorted|].
  split; [intros N; now apply HighlightFacts.highlight_loop_fold|].
  split; [intros res H; eapply HighlightFacts.highlight_loop_returns; exact H|].
  split; [intros; now apply HighlightFacts.highlight_text_literal|].
  split; [intros; now apply HighlightFacts.highlight_text_nested|].
  vm_compute. reflexivity.
Qed.

Lemma C7_longest_first_witness :
  markup_free ("praise " ++ "the Lord God" ++ " now") = true
  /\ Py.strip_nonempty "the Lord God" = true
  /\ Re.search Pat.ellipsis "the Lord God" = None
  /\ first_at "the Lord God" "praise " " now" = true
  /\ highlight_text ("praise " ++ "the Lord God" ++ " now") "the Lord God"
     = "praise " ++ span_of "highlight" "the Lord God" ++ " now".
Proof.
  split; [reflexivity|]. split; [reflexivity|]. split; [reflexivity|].
  split; [reflexivity|].
  apply (C7_longest_first "" [] "" [] []); reflexivity.
Defined.

(** C7 as stated fails: for the phrases [the Lord] and [the Lord God] and a
    text that holds the longer one, the result is not the text with the
    longer phrase wrapped only: the shorter phrase is wrapped inside the
    span of the longer one. *)
Lemma C7_counterexample :
  fst (highlight_text_with_phrases Sample.praise Sample.the_lord "rc" [] [])
  <> Py.Ok ("praise " ++ span_of "highlight" "the Lord God" ++ " now")
  /\ fst (highlight_text_with_phrases Sample.praise Sample.the_lord "rc" [] [])
     = Py.Ok ("praise "
              ++ span_of "highlight" (span_of "highlight" "the Lord" ++ " God")
              ++ " now").
Proof.
  split; [vm_compute; discriminate | vm_compute; reflexivity].
Qed.

(** * More of the converter *)

(** ** Recording bad links *)

Module LedgerFacts.

Lemma set_set {V} k (v v' : V) d :
  Dict.set k v (Dict.set k v' d) = Dict.set k v d.
Proof.
  induction d as [|[k0 v0] r IH]; simpl.
  - now rewrite String.eqb_refl.
  - destruct (String.eqb k k0) eqn:E; simpl.
    + now rewrite String.eqb_refl.
    + now rewrite E, IH.
Qed.

Lemma mem_set_same {V} k (v : V) d : Dict.mem k (Dict.set k v d) = true.
Proof. now rewrite DictFacts.mem_set, String.eqb_refl. Qed.

Lemma record_bad_link_idempotent source target fix_ b :
  record_bad_link source target fix_ (record_bad_link source target fix_ b)
  = record_bad_link source target fix_ b.
Proof.
  remember (record_bad_link source target fix_ b) as b' eqn:Hb.
  unfold record_bad_link in Hb.
  set (b1 := if Dict.mem source b then b else Dict.set source Dict.empty b) in Hb.
  assert (M1 : Dict.mem source b1 = true).
  { unfold b1. destruct (Dict.mem source b) eqn:E; [exact E | apply mem_set_same]. }
  set (inner := match Dict.get source b1 with Some i => i | None => Dict.empty end) in Hb.
  destruct (negb (Dict.mem target inner) || truthy_fix fix_) eqn:C; subst b'.
  - unfold record_bad_link. rewrite mem_set_same, DictFacts.get_set_eq.
    rewrite mem_set_same. cbn [negb orb].
    destruct (truthy_fix fix_); [|reflexivity].
    now rewrite !set_set.
  - unfold record_bad_link. rewrite M1. fold inner. now rewrite C.
Qed.

End LedgerFacts.

(** Recording the same bad link twice, with the same fix or twice without,
    leaves the state as the first recording left it. *)
Theorem add_bad_link_idempotent :
  forall (source_rc : option RC) (rc : RC) (fix_ : option string) (s : state),
    add_bad_link source_rc rc fix_ (add_bad_link source_rc rc fix_ s)
    = add_bad_link source_rc rc fix_ s.
Proof.
  intros [src|] rc fix_ s; [|reflexivity].
  unfold add_bad_link, with_bad_links. simpl.
  now rewrite LedgerFacts.record_bad_link_idempotent.
Qed.

(** A fix that is recorded for a pair of links ends up in the ledger
    whether the recording without fix of the same pair comes before or
    after it, and the two orders give the same entries for all pairs. *)
Theorem add_bad_link_fix_wins :
  forall (src rc : RC) (fix_ : option string) (s : state),
    truthy_fix fix_ = true ->
    ledger_get (rc_link src) (rc_link rc)
      (bad_links (add_bad_link (Some src) rc None
                    (add_bad_link (Some src) rc fix_ s)))
    = Some fix_
    /\ forall sl tl,
         ledger_get sl tl
           (bad_links (add_bad_link (Some src) rc None
                         (add_bad_link (Some src) rc fix_ s)))
         = ledger_get sl tl
             (bad_links (add_bad_link (Some src) rc fix_
                           (add_bad_link (Some src) rc None s))).
Proof.
  intros src rc fix_ s T.
  assert (G : forall sl tl,
    ledger_get sl tl
      (bad_links (add_bad_link (Some src) rc None
                    (add_bad_link (Some src) rc fix_ s)))
    = if String.eqb sl (rc_link src) && String.eqb tl (rc_link rc)
      then Some fix_ else ledger_get sl tl (bad_links s)).
  { intros sl tl. simpl. rewrite !ledger_get_record, !String.eqb_refl.
    cbn [andb truthy_fix]. rewrite T.
    destruct (String.eqb sl (rc_link src) && String.eqb tl (rc_link rc)) eqn:E;
      [|reflexivity].
    destruct (ledger_get (rc_link src) (rc_link rc) (bad_links s)); reflexivity. }
  split.
  - rewrite G, !String.eqb_refl. reflexivity.
  - intros sl tl. rewrite G. simpl.
    rewrite !ledger_get_record, !String.eqb_refl. cbn [andb truthy_fix]. rewrite T.
    destruct (String.eqb sl (rc_link src) && String.eqb tl (rc_link rc)) eqn:E;
      [|reflexivity].
    destruct (ledger_get (rc_link src) (rc_link rc) (bad_links s)); reflexivity.
Qed.

Lemma add_bad_link_fix_wins_witness :
  truthy_fix Sample.fix_other = true
  /\ ledger_get "rc://en/tn/help/gen/01/01" "rc://en/tw/dict/bible/kt/grace"
       (bad_links (add_bad_link (Some Sample.note_a) Sample.grace None
                     (add_bad_link (Some Sample.note_a) Sample.grace
                        Sample.fix_other (mkState [] [] [] [] []))))
     = Some Sample.fix_other.
Proof.
  split; [reflexivity|].
  apply (add_bad_link_fix_wins Sample.note_a Sample.grace Sample.fix_other
           (mkState [] [] [] [] [])).
  reflexivity.
Defined.

(** ** The report and the listing of back-references *)

Module ListingFacts.

Lemma NoDup_flat_map {A B} (f : A -> list B) l :
  NoDup l -> (forall a, In a l -> NoDup (f a)) ->
  (forall a1 a2 x, In a1 l -> In a2 l -> In x (f a1) -> In x (f a2) -> a1 = a2) ->
  NoDup (flat_map f l).
Proof.
  induction 1 as [|a r Na Nr IH]; intros Hf Hd; simpl; [constructor|].
  apply NoDup_app.
  - apply Hf. now left.
  - apply IH; [intros; apply Hf; now right|].
    intros a1 a2 x H1 H2. apply Hd; now right.
  - intros x Hx Hy. apply in_flat_map in Hy. destruct Hy as (a' & Ha' & Hy).
    assert (a = a') by (eapply Hd; eauto; [now left | now right]).
    subst. contradiction.
Qed.

Lemma length_flat_map {A B} (f : A -> list B) l :
  List.length (flat_map f l) = list_sum (map (fun a => List.length (f a)) l).
Proof.
  induction l as [|a r IH]; simpl; [reflexivity|].
  now rewrite length_app, IH.
Qed.

Lemma list_sum_perm l1 l2 : Permutation l1 l2 -> list_sum l1 = list_sum l2.
Proof. induction 1; simpl; lia. Qed.

Lemma get_In {V} (d : Dict.t V) k v :
  NoDup (Dict.keys d) -> In (k, v) d -> Dict.get k d = Some v.
Proof.
  induction d as [|[k0 v0] r IH]; simpl; intros N I; [tauto|].
  inversion N as [|? ? N0 Nr]; subst.
  destruct I as [E|I].
  - inversion E; subst. now rewrite String.eqb_refl.
  - destruct (String.eqb k k0) eqn:E; [|now apply IH].
    apply String.eqb_eq in E. subst. exfalso. apply N0.
    apply in_map_iff. exists (k0, v). auto.
Qed.

Lemma NoDup_map_pair {A B} (f : A -> B) l :
  (forall x y, f x = f y -> x = y) -> NoDup l -> NoDup (map f l).
Proof.
  intros Inj. induction 1 as [|a r Na Nr IH]; simpl; constructor; [|exact IH].
  intros I. apply in_map_iff in I. destruct I as (y & E & Hy).
  apply Inj in E. now subst.
Qed.

End ListingFacts.

(** The report is made of one list item for each entry of the ledger, in
    the order of [report_entries]: no entry is listed twice and the number
    of items is the number of pairs that the ledger holds.  (The items of
    two entries can be the same text, as the links are printed between
    back-ticks without escaping.) *)
Theorem report_one_line_per_entry :
  forall b : ledger,
    ledger_wf b ->
    NoDup (report_entries b)
    /\ List.length (report_entries b)
       = list_sum (map (fun kv => List.length (snd kv)) b)
    /\ bad_links_html b
       = (if Dict.nonempty b
          then nl ++ "<h1>BAD LINKS</h1>" ++ nl ++ "<ul>" ++ nl
               ++ String.concat "" (map entry_line (report_entries b))
               ++ nl ++ "</ul>" ++ nl
          else "NO BAD LINKS!").
Proof.
  intros b [N W]. split; [|split; [|apply ReportFacts.bad_links_html_entries]].
  - unfold report_entries. apply ListingFacts.NoDup_flat_map.
    + now apply SortFacts.sorted_NoDup.
    + intros src _. apply ListingFacts.NoDup_map_pair.
      * intros t1 t2 E. now inversion E.
      * apply SortFacts.sorted_NoDup.
        destruct (Dict.get src b) as [inner|] eqn:E; [eapply W; eassumption | constructor].
    + intros s1 s2 x _ _ H1 H2.
      apply in_map_iff in H1. destruct H1 as (t1 & <- & _).
      apply in_map_iff in H2. destruct H2 as (t2 & E & _). now inversion E.
  - unfold report_entries. rewrite ListingFacts.length_flat_map.
    rewrite <- (ListingFacts.list_sum_perm _ _
                  (Permutation_map _ (SortFacts.sorted_perm (Dict.keys b)))).
    unfold Dict.keys. rewrite map_map. f_equal. apply map_ext_in.
    intros [k inner] I. simpl.
    rewrite (ListingFacts.get_In b k inner N I).
    rewrite length_map.
    rewrite <- (Permutation_length (SortFacts.sorted_perm (map fst inner))).
    apply length_map.
Qed.

Lemma report_one_line_per_entry_witness :
  ledger_wf Sample.ledger_ab
  /\ List.length (report_entries Sample.ledger_ab) = 2.
Proof.
  assert (W : ledger_wf Sample.ledger_ab).
  { do 2 apply ReportFacts.record_bad_link_wf. split; [constructor | discriminate]. }
  split; [exact W|].
  exact (proj1 (proj2 (report_one_line_per_entry Sample.ledger_ab W))).
Defined.



(** ** What the matcher cannot find *)

Module EngineFacts.
Import Re.

Lemma is_suffix_refl s : is_suffix s s.
Proof. now exists "". Qed.

Lemma is_suffix_trans s1 s2 s3 : is_suffix s1 s2 -> is_suffix s2 s3 -> is_suffix s1 s3.
Proof.
  intros (p & ->) (q & ->). exists (q ++ p). now rewrite StrFacts.append_assoc.
Qed.

Lemma is_suffix_tail a s : is_suffix s (String a s).
Proof. now exists (String a ""). Qed.

(** A match ends at an end of the text it starts in: when the continuation
    fails on every end of the text, so does the match. *)
Lemma run_fails r : forall s c (k : string -> caps -> result),
  (forall s' c', is_suffix s' s -> k s' c' = None) ->
  run r s c k = None.
Proof.
  induction r as [|p|a IHa b IHb|a IHa b IHb|a IHa|a IHa|n a IHa|a IHa];
    intros s c k H.
  - apply H, is_suffix_refl.
  - destruct s as [|x s]; [reflexivity|]. cbn [run].
    destruct (p x); [|reflexivity]. apply H, is_suffix_tail.
  - cbn [run]. apply IHa. intros s' c' S. apply IHb.
    intros s'' c'' S'. apply H. eapply is_suffix_trans; eassumption.
  - cbn [run]. rewrite IHa by assumption. now apply IHb.
  - cbn [run]. generalize (String.length s) as n. intros n. revert s c H.
    induction n as [|n IH]; intros s c H; [apply H, is_suffix_refl|].
    rewrite IHa.
    + apply H, is_suffix_refl.
    + intros s' c' S. destruct (Nat.ltb _ _); [|reflexivity].
      apply IH. intros s'' c'' S'. apply H. eapply is_suffix_trans; eassumption.
  - cbn [run]. generalize (String.length s) as n. intros n. revert s c H.
    induction n as [|n IH]; intros s c H.
    + now rewrite H by apply is_suffix_refl.
    + rewrite H by apply is_suffix_refl. apply IHa.
      intros s' c' S. destruct (Nat.ltb _ _); [|reflexivity].
      apply IH. intros s'' c'' S'. apply H. eapply is_suffix_trans; eassumption.
  - cbn [run]. apply IHa. intros s' c' S. now apply H.
  - cbn [run]. destruct (run a s c _); [reflexivity|]. apply H, is_suffix_refl.
Qed.

Lemma contains_prefix w s : Py.contains w s = false -> String.prefix w s = false.
Proof.
  intros C. destruct s; cbn [Py.contains] in C;
    destruct (String.prefix w _); congruence.
Qed.

Lemma contains_tail w a s : Py.contains w (String a s) = false -> Py.contains w s = false.
Proof.
  intros C. cbn [Py.contains] in C.
  destruct (String.prefix w (String a s)); [discriminate | exact C].
Qed.

Lemma contains_suffix_contains w s s' :
  Py.contains w s = false -> is_suffix s' s -> Py.contains w s' = false.
Proof.
  intros C (p & ->). induction p as [|a p IH]; [exact C|].
  apply IH. eapply contains_tail. exact C.
Qed.

Lemma contains_suffix w s s' :
  Py.contains w s = false -> is_suffix s' s -> String.prefix w s' = false.
Proof.
  intros C S. apply contains_prefix. eapply contains_suffix_contains; eassumption.
Qed.

Lemma search_from_none r : forall s skipped,
  (forall s', is_suffix s' s -> match_at r s' = None) ->
  search_from r skipped s = None.
Proof.
  induction s as [|a s IH]; intros skipped H.
  - cbn [search_from]. now rewrite H by apply is_suffix_refl.
  - cbn [search_from]. rewrite H by apply is_suffix_refl.
    apply IH. intros s' S. apply H.
    eapply is_suffix_trans; [exact S | apply is_suffix_tail].
Qed.

Lemma pieces_none r s : search r s = None -> pieces r s = [Text s].
Proof. intros H. unfold pieces. cbn [pieces_fuel]. now rewrite H. Qed.

Lemma match_at_none r s :
  run r s [] (fun s' c' => Some (s', c')) = None -> match_at r s = None.
Proof. intros H. unfold match_at. now rewrite H. Qed.

(** A pattern that needs the text [w] after what a first part [pre] takes
    matches nowhere in a text that does not hold [w]. *)
Lemma search_needs pre w rest s :
  Py.contains w s = false ->
  search (Seq pre (Seq (Lit w) rest)) s = None.
Proof.
  intros C. apply search_from_none. intros s' S. apply match_at_none.
  cbn [run]. apply run_fails. intros s'' c'' S'.
  change (run (Seq (Lit w) rest) s'' c'' (fun s'0 c'0 => Some (s'0, c'0)) = None).
  cbn [run]. rewrite HighlightFacts.run_Lit.
  rewrite (contains_suffix w s s''); [reflexivity | exact C |].
  eapply is_suffix_trans; eassumption.
Qed.

End EngineFacts.

Module NoMatchFacts.
Import Re.

Lemma search_needs_first w rest s :
  Py.contains w s = false -> search (Seq (Lit w) rest) s = None.
Proof.
  intros C. apply EngineFacts.search_from_none. intros s' S.
  apply EngineFacts.match_at_none.
  rewrite HighlightFacts.run_Seq, HighlightFacts.run_Lit.
  now rewrite (EngineFacts.contains_suffix w s s').
Qed.

Lemma concat_single x : String.concat "" [x] = x.
Proof. reflexivity. Qed.

Lemma re_sub_none r f s : search r s = None -> re_sub r f s = s.
Proof. intros H. unfold re_sub. now rewrite EngineFacts.pieces_none. Qed.

Lemma search_rc_links s : Py.contains "rc://" s = false -> search Pat.rc_links s = None.
Proof.
  intros C. apply EngineFacts.search_from_none. intros s' S.
  apply EngineFacts.match_at_none. unfold Pat.rc_links.
  rewrite HighlightFacts.run_Seq. apply EngineFacts.run_fails.
  intros s'' c'' S'.
  rewrite HighlightFacts.run_Seq, HighlightFacts.run_Group,
    HighlightFacts.run_Seq, HighlightFacts.run_Lit.
  rewrite (EngineFacts.contains_suffix "rc://" s s''); [reflexivity | exact C |].
  eapply EngineFacts.is_suffix_trans; eassumption.
Qed.

Lemma ci_not_letter l a :
  Pat.between "a" "z" l = false ->
  Pat.ci (String l EmptyString) a = Ascii.eqb a l.
Proof. intros H. unfold Pat.ci. rewrite H. apply orb_false_r. Qed.

Lemma match_ta_tw_links s :
  Py.contains "://" s = false -> match_at Pat.ta_tw_links s = None.
Proof.
  intros C. apply EngineFacts.match_at_none. unfold Pat.ta_tw_links.
  rewrite HighlightFacts.run_Seq. cbn [Pat.LitCI run].
  destruct s as [|a [|b s2]]; try reflexivity;
    try (destruct (Pat.ci "r" a); reflexivity).
  destruct (Pat.ci "r" a); [|reflexivity].
  destruct (Pat.ci "c" b); [|reflexivity].
  apply EngineFacts.contains_tail, EngineFacts.contains_tail in C.
  apply EngineFacts.contains_prefix in C.
  destruct s2 as [|x [|y [|z s5]]]; try reflexivity;
    rewrite !ci_not_letter by reflexivity.
  - destruct (Ascii.eqb x ":"); reflexivity.
  - destruct (Ascii.eqb x ":"); [|reflexivity]. destruct (Ascii.eqb y "/"); reflexivity.
  - destruct (Ascii.eqb x ":") eqn:Ex; [|reflexivity].
    destruct (Ascii.eqb y "/") eqn:Ey; [|reflexivity].
    destruct (Ascii.eqb z "/") eqn:Ez; [|reflexivity].
    apply Ascii.eqb_eq in Ex, Ey, Ez. subst. cbn in C. destruct s5; discriminate C.
Qed.

Lemma findall_ta_tw_links s :
  Py.contains "://" s = false -> findall Pat.ta_tw_links s = [].
Proof.
  intros C. unfold findall, finditer.
  rewrite EngineFacts.pieces_none; [reflexivity|].
  apply EngineFacts.search_from_none. intros s' S.
  apply match_ta_tw_links. eapply EngineFacts.contains_suffix_contains; eassumption.
Qed.

End NoMatchFacts.

(** A text that holds no [rc://] comes out of the link rewriter as it went
    in. *)
Theorem replace_rc_links_without_links :
  forall (e : env) (s : state) (text : string),
    Py.contains "rc://" text = false ->
    replace_rc_links e s text = (Py.Ok text, s).
Proof.
  intros e s text C. unfold replace_rc_links, Re.sub_res.
  rewrite EngineFacts.pieces_none by now apply NoMatchFacts.search_rc_links.
  reflexivity.
Qed.

Lemma replace_rc_links_without_links_witness :
  Py.contains "rc://" "see http://example.org [[nothing]]" = false
  /\ replace_rc_links Sample.e1 Sample.resolved "see http://example.org [[nothing]]"
     = (Py.Ok "see http://example.org [[nothing]]", Sample.resolved).
Proof.
  split; [reflexivity|].
  now apply replace_rc_links_without_links.
Defined.

(** The crawl of a source whose body holds no [://], hence no link, changes
    nothing. *)
Lemma crawl_source_without_links :
  forall (e : env) (s : state) (source : ref) (src : RC),
    lookup_ref source s = Some src ->
    Py.contains "://" (article src) = false ->
    crawl_ta_tw_deep_linking e source s = Done tt s.
Proof.
  intros e s source src Hsrc C.
  unfold crawl_ta_tw_deep_linking, bindM, deref. rewrite Hsrc.
  pose proof (CrawlFacts.crawl_fuel_pos e (linking_level src)) as P.
  destruct (crawl_fuel e (linking_level src)) as [|n]; [lia|].
  cbn [crawl]. unfold bindM, deref. rewrite Hsrc.
  destruct (linking_level src >? APPENDIX_LINKING_LEVEL e + 1)%Z; [reflexivity|].
  now rewrite NoMatchFacts.findall_ta_tw_links.
Qed.

(** When no body of the primary registry holds [://], hence none holds a
    link, building the appendix returns and changes nothing: no record is
    added, no file is read and the ledger stays as it is. *)
Theorem appendix_without_links :
  forall (e : env) (s : state),
    (forall k rc, Dict.get k (rcs s) = Some rc ->
                  Py.contains "://" (article rc) = false) ->
    get_appendix_rcs e s = Done tt s.
Proof.
  intros e s H. unfold get_appendix_rcs, bindM, get_state.
  assert (G : forall keys, (forall k, In k keys -> Dict.mem k (rcs s) = true) ->
                           crawl_all e keys s = Done tt s).
  { induction keys as [|k r IH]; intros Hk; [reflexivity|].
    cbn [crawl_all]. unfold bindM.
    destruct (DictFacts.mem_get (rcs s) k (Hk k (or_introl eq_refl))) as (rc & Hrc).
    rewrite (crawl_source_without_links e s (InRcs k) rc Hrc (H k rc Hrc)).
    apply IH. intros k' I. apply Hk. now right. }
  apply G. intros k. apply DictFacts.mem_In.
Qed.

Lemma appendix_without_links_witness :
  get_appendix_rcs Sample.e1
    (mkState [("rc://en/tn/help/gen/01/01", Sample.note_a)] [] [] [] [])
  = Done tt (mkState [("rc://en/tn/help/gen/01/01", Sample.note_a)] [] [] [] []).
Proof.
  apply appendix_without_links. intros k rc H. cbn in H.
  destruct (String.eqb k "rc://en/tn/help/gen/01/01"); [|discriminate H].
  injection H as <-. reflexivity.
Defined.

Module HeaderFacts.

Lemma increase_levels_none html depth :
  forall levels,
    (forall l, In l levels -> Py.contains ("<h" ++ str_of_int l) html = false) ->
    increase_levels levels depth html = html.
Proof.
  induction levels as [|l r IH]; intros Hl; [reflexivity|].
  cbn [increase_levels]. unfold header_re.
  rewrite NoMatchFacts.re_sub_none.
  - apply IH. intros l' I. apply Hl. now right.
  - apply NoMatchFacts.search_needs_first, Hl. now left.
Qed.

Lemma decrease_levels_none html decrease :
  forall levels,
    (forall l, In l levels -> Py.contains ("<h" ++ str_of_int l) html = false) ->
    decrease_levels levels decrease html = html.
Proof.
  induction levels as [|l r IH]; intros Hl; [reflexivity|].
  cbn [decrease_levels]. unfold header_re.
  rewrite NoMatchFacts.re_sub_none.
  - apply IH. intros l' I. apply Hl. now right.
  - apply NoMatchFacts.search_needs_first, Hl. now left.
Qed.

Lemma In_range_to_6 lo l : In l (range_to_6 lo) -> (lo <= l <= 5)%Z.
Proof.
  unfold range_to_6. intros I. apply in_map_iff in I.
  destruct I as (i & <- & I). apply in_seq in I. lia.
Qed.

End HeaderFacts.

(** [increase_headers] leaves a text without an opening of a heading of the
    levels 1 to 5 as it is, whatever the depth: a heading of level 6 stays
    at level 6. *)
Theorem increase_headers_keeps_level_6 :
  forall (html : string) (increase_depth : Z),
    (forall level, (1 <= level <= 5)%Z ->
       Py.contains ("<h" ++ str_of_int level) html = false) ->
    increase_headers html increase_depth = html.
Proof.
  intros html depth H. unfold increase_headers.
  destruct (truthy_str html); [|reflexivity].
  apply HeaderFacts.increase_levels_none. intros l I. apply H.
  cbn [In] in I. lia.
Qed.

Lemma increase_headers_keeps_level_6_witness :
  increase_headers "<p>text</p><h6 id='x'>b</h6>" 1 = "<p>text</p><h6 id='x'>b</h6>".
Proof.
  apply increase_headers_keeps_level_6.
  intros level Hl.
  assert (E : level = 1%Z \/ level = 2%Z \/ level = 3%Z \/ level = 4%Z \/ level = 5%Z)
    by lia.
  destruct E as [ -> | [ -> | [ -> | [ -> | -> ] ] ] ]; reflexivity.
Defined.

(** [decrease_headers] leaves a text without an opening of a heading of the
    levels 2 to 5 as it is, whatever the minimum and the decrease: headings
    of level 1 and of level 6 are never moved. *)
Theorem decrease_headers_keeps_levels_1_and_6 :
  forall (html : string) (minimum_header decrease : Z),
    (forall level, (2 <= level <= 5)%Z ->
       Py.contains ("<h" ++ str_of_int level) html = false) ->
    decrease_headers html minimum_header decrease = html.
Proof.
  intros html minimum_header decrease H. unfold decrease_headers.
  destruct (truthy_str html); [|reflexivity].
  apply HeaderFacts.decrease_levels_none. intros l I.
  apply HeaderFacts.In_range_to_6 in I. apply H.
  destruct (Z.ltb_spec minimum_header 2); lia.
Qed.

Lemma decrease_headers_keeps_levels_1_and_6_witness :
  decrease_headers "<h1>a</h1> and <h6 id='x'>b</h6>" 2 1
  = "<h1>a</h1> and <h6 id='x'>b</h6>".
Proof.
  apply decrease_headers_keeps_levels_1_and_6.
  intros level Hl.
  assert (E : level = 2%Z \/ level = 3%Z \/ level = 4%Z \/ level = 5%Z) by lia.
  destruct E as [ -> | [ -> | [ -> | -> ] ] ]; reflexivity.
Defined.

(** ** The article loaders and the links they cannot load *)

Module LoaderFacts.

Lemma tw_record_missing_eq src rc s :
  tw_record_missing src rc s = add_bad_link (Some src) rc None s.
Proof.
  unfold tw_record_missing, add_bad_link, record_bad_link. cbn [truthy_fix].
  rewrite orb_false_r. destruct (negb _); reflexivity.
Qed.

Lemma add_bad_link_twice src rc f s :
  add_bad_link (Some src) rc f (add_bad_link (Some src) rc f s)
  = add_bad_link (Some src) rc f s.
Proof.
  unfold add_bad_link. cbn [bad_links with_bad_links].
  now rewrite LedgerFacts.record_bad_link_idempotent.
Qed.

Lemma last_of_cons x l : last_of (x :: l) = Py.Ok (last l x).
Proof. reflexivity. Qed.

End LoaderFacts.

(** The two article loaders change nothing but the ledger: both registries,
    the merged view and the log of loaded records are as before.  They
    return or raise, and a record they return is the record they were given,
    with the same link, linking level and back-references, whatever the
    file system holds. *)
Theorem loaders_change_only_the_ledger :
  forall (e : env) (rc : RC) (source_rc : option RC) (s : state) (o : outcome RC),
    o = get_ta_article_html e rc source_rc s
    \/ o = get_tw_article_html e rc source_rc s ->
    rcs (state_of o) = rcs s
    /\ appendix_rcs (state_of o) = appendix_rcs s
    /\ all_rcs (state_of o) = all_rcs s
    /\ fetched (state_of o) = fetched s
    /\ ~ is_stuck o
    /\ forall rc' s', o = Done rc' s' ->
         rc_link rc' = rc_link rc
         /\ linking_level rc' = linking_level rc
         /\ references rc' = references rc
         /\ (article rc' = article rc \/ article rc' <> "").
Proof.
  intros e rc src s o Ho.
  assert (L : loads rc o s).
  { destruct Ho as [-> | ->];
      [apply CrawlFacts.get_ta_article_html_loads
      | apply CrawlFacts.get_tw_article_html_loads]. }
  assert (N : forall rc' s', o = Done rc' s' ->
                article rc' = article rc \/ article rc' <> "").
  { intros rc' s' E. subst o.
    destruct Ho as [Ho | Ho]; symmetry in Ho; revert Ho.
    - unfold get_ta_article_html.
      set (p := if negb (isfile e _) then _ else _).
      destruct p as [fix_ file_path].
      destruct (isfile e file_path).
      + unfold bindM at 1.
        set (m := match fix_ with Some _ => _ | None => _ end).
        destruct (m s) as [[] s1|x s1|s1]; try discriminate.
        destruct (ta_content e file_path (project rc)) as [[title_ top_box] body].
        unfold bindM, ret.
        destruct (get_go_back_to_html e rc s1) as [g s2|x s2|s2]; try discriminate.
        intros H. inversion H. right. discriminate.
      + unfold bindM, modify, ret. intros H. inversion H. now left.
    - unfold get_tw_article_html. unfold bindM at 1.
      set (m := if negb (exists_ e _) then _ else _).
      destruct (m s) as [[fix_ file_path] s1|x s1|s1]; try discriminate.
      destruct (isfile e file_path).
      + unfold bindM at 1.
        set (m1 := if truthy_fix fix_ then _ else _).
        destruct (m1 s1) as [[] s2|x s2|s2]; try discriminate.
        unfold bindM at 1, get_state.
        destruct (negb (Dict.mem (rc_link rc) (appendix_rcs s2))).
        * unfold bindM at 1, lift.
          destruct (first_of (extra_information rc)) as [group|x]; try discriminate.
          unfold bindM, ret.
          destruct (get_go_back_to_html e rc s2) as [g s3|x s3|s3]; try discriminate.
          intros H. inversion H. right. discriminate.
        * unfold ret. intros H. inversion H. now left.
      + destruct src as [x|]; [|discriminate].
        unfold bindM, modify, ret. intros H. inversion H. now left. }
  destruct L as ((b & Hb) & Hns & Hrc).
  rewrite Hb. repeat (split; [reflexivity|]).
  split; [exact Hns|].
  intros rc' s' E.
  destruct (CrawlFacts.loads_fields _ _ (Hrc _ _ E)) as (A1 & A2 & A3).
  repeat (split; [assumption|]). eapply N; eassumption.
Qed.

Lemma loaders_change_only_the_ledger_witness :
  rcs (state_of (get_tw_article_html Sample.e0 Sample.amen (Some Sample.note_a)
                   Sample.s12)) = rcs Sample.s12
  /\ appendix_rcs (state_of (get_tw_article_html Sample.e0 Sample.amen
                               (Some Sample.note_a) Sample.s12)) = []
  /\ ~ is_stuck (get_tw_article_html Sample.e0 Sample.amen (Some Sample.note_a)
                   Sample.s12).
Proof.
  destruct (loaders_change_only_the_ledger Sample.e0 Sample.amen
              (Some Sample.note_a) Sample.s12
              (get_tw_article_html Sample.e0 Sample.amen (Some Sample.note_a)
                 Sample.s12) (or_intror eq_refl))
    as (A & B & _ & _ & N & _).
  split; [exact A|]. split; [exact B | exact N].
Defined.

(** A link to a manual or word article that is in no registry and whose
    file is not found (other files may exist) is handed to its loader once,
    recorded in the ledger under its source, without fix, and added to no
    registry; the crawl does not go on from it.  A word link whose file
    does not exist and whose record has no component
    ([extra_information] is empty) makes the loader raise [IndexError]:
    the crawl stops there, with nothing recorded. *)
Theorem crawl_link_missing_file :
  forall (e : env) (crawl : ref -> M unit) (source : ref) (raw : string)
         (s : state) (src rc : RC),
    lookup_ref source s = Some src ->
    rc = new_rc e raw (linking_level src + 1) ->
    Dict.mem (rc_link rc) (rcs s) = false ->
    Dict.mem (rc_link rc) (appendix_rcs s) = false ->
    ((resource rc = "ta" /\ ta_not_found e rc)
     \/ (resource rc = "tw" /\ tw_not_found e rc) ->
     crawl_link e crawl source raw s
     = Done tt
         (mkState (rcs s) (appendix_rcs s) (all_rcs s)
            (record_bad_link (rc_link src) (rc_link rc) None (bad_links s))
            (fetched s ++ [(rc_link rc, linking_level rc)])))
    /\ (resource rc = "tw" ->
        exists_ e (path_join [repo_dir e (resource rc); project rc; path rc ++ ".md"])
        = false ->
        extra_information rc = [] ->
        crawl_link e crawl source raw s
        = Raised Py.IndexError
            (mkState (rcs s) (appendix_rcs s) (all_rcs s) (bad_links s)
               (fetched s ++ [(rc_link rc, linking_level rc)]))).
Proof.
  intros e crawl source raw s src rc Hsrc Hrc M1 M2.
  assert (Hpre :
    (resource rc = "ta" \/ resource rc = "tw") ->
    crawl_link e crawl source raw s
    = bindM (if String.eqb (resource rc) "ta"
             then get_ta_article_html e rc (Some src)
             else if String.eqb (resource rc) "tw"
             then get_tw_article_html e rc (Some src)
             else ret rc)
        (fun rc' =>
           if truthy_str (article rc')
           then modify (insert_appendix rc') ;;; crawl (InAppendix (rc_link rc'))
           else source_rc <- deref source ;;
                modify (add_bad_link (Some source_rc) rc' None))
        (with_fetched (fetched s ++ [(rc_link rc, linking_level rc)])%list s)).
  { intros Hres. unfold crawl_link. unfold bindM at 1, deref. rewrite Hsrc.
    unfold bindM at 1, get_state. rewrite <- Hrc. rewrite M1, M2. cbn [orb].
    assert (Hm : Py.mem_str (resource rc) APPENDIX_RESOURCES = true)
      by (destruct Hres as [-> | ->]; reflexivity).
    rewrite Hm. cbn [negb].
    unfold bindM at 1, modify.
    set (s1 := with_fetched _ s).
    assert (Hsrc1 : lookup_ref source s1 = Some src) by (destruct source; exact Hsrc).
    unfold bindM at 1, deref. rewrite Hsrc1. reflexivity. }
  assert (Hart : article rc = "") by (subst rc; reflexivity).
  split.
  - intros Hnf.
    rewrite Hpre by (destruct Hnf as [[R _]|[R _]]; auto).
    set (s1 := with_fetched _ s).
    assert (Hload :
      (if String.eqb (resource rc) "ta" then get_ta_article_html e rc (Some src)
       else if String.eqb (resource rc) "tw" then get_tw_article_html e rc (Some src)
       else ret rc) s1
      = Done rc (add_bad_link (Some src) rc None s1)).
    { destruct Hnf as [[R [F0 Falt]] | [R Hnf]]; rewrite R;
        cbn [String.eqb Ascii.eqb Bool.eqb].
      - unfold get_ta_article_html. rewrite F0. cbn [negb].
        destruct (Dict.get (path rc) ta_bad_names) as [alt|] eqn:Ealt.
        + rewrite (Falt alt eq_refl). reflexivity.
        + rewrite F0. reflexivity.
      - unfold get_tw_article_html. unfold bindM at 1.
        destruct Hnf as [[Ex Fi] | (Ex & x & l & Einfo & Fi)]; rewrite Ex; cbn [negb].
        + unfold ret. rewrite Fi. unfold bindM, modify, ret.
          now rewrite LoaderFacts.tw_record_missing_eq.
        + unfold bindM at 1, lift. rewrite Einfo, LoaderFacts.last_of_cons.
          unfold ret. fold (tw_other_path rc (last l x)). rewrite Fi.
          unfold bindM, modify, ret.
          now rewrite LoaderFacts.tw_record_missing_eq. }
    unfold bindM at 1. rewrite Hload. rewrite Hart.
    cbn [truthy_str String.eqb negb].
    unfold bindM, deref, modify.
    assert (Hsrc2 : lookup_ref source (add_bad_link (Some src) rc None s1) = Some src)
      by (destruct source; exact Hsrc).
    rewrite Hsrc2. rewrite LoaderFacts.add_bad_link_twice. reflexivity.
  - intros R Ex Einfo.
    rewrite Hpre by auto.
    rewrite R. cbn [String.eqb Ascii.eqb Bool.eqb].
    unfold bindM at 1. unfold get_tw_article_html. unfold bindM at 1.
    rewrite Ex. cbn [negb].
    unfold bindM at 1, lift. rewrite Einfo. reflexivity.
Qed.

Lemma crawl_link_missing_file_witness :
  crawl_link Sample.e_other (fun _ => stuck) (InRcs "rc://en/tn/help/p1")
    "rc://en/ta/man/t/aa" Sample.s12
  = Done tt
      (mkState (rcs Sample.s12) [] []
         [("rc://en/tn/help/p1", [("rc://en/ta/man/t/aa", None)])]
         [("rc://en/ta/man/t/aa", 1%Z)]).
Proof.
  apply (crawl_link_missing_file Sample.e_other (fun _ => stuck)
           (InRcs "rc://en/tn/help/p1") "rc://en/ta/man/t/aa" Sample.s12
           Sample.p1 (new_rc Sample.e_other "rc://en/ta/man/t/aa" 1)).
  - reflexivity.
  - reflexivity.
  - reflexivity.
  - reflexivity.
  - left. split; [reflexivity|]. split; [reflexivity|].
    intros alt_path H. discriminate H.
Defined.

(** A word article whose file does not exist where its link says is
    looked for at the other path: under [bible/other/] for a link under
    [bible/kt/] and the reverse (unless the last component of the link is a
    name of [bad_names]).  When the file is there, the loader, given a
    record that is not in the appendix and has no back-reference, returns
    the record with the article made from the content of that file, and
    records the link with the other path in the ledger as the fix. *)
Theorem tw_article_found_in_other_group :
  forall (e : env) (rc src : RC) (s : state) (group : string) (rest : list string),
    exists_ e (path_join [repo_dir e (resource rc); project rc; path rc ++ ".md"])
    = false ->
    extra_information rc = group :: rest ->
    isfile e (path_join [repo_dir e (resource rc); project rc;
                         tw_other_path rc (last rest group) ++ ".md"])
    = true ->
    Dict.mem (rc_link rc) (appendix_rcs s) = false ->
    references rc = [] ->
    get_tw_article_html e rc (Some src) s
    = Done
        (set_article
           ("                " ++ nl ++ "    <article id=" ++ Py.dquote
            ++ article_id rc ++ Py.dquote ++ ">" ++ nl ++ "        "
            ++ tw_content e
                 (path_join [repo_dir e (resource rc); project rc;
                             tw_other_path rc (last rest group) ++ ".md"])
                 group
            ++ nl ++ "        " ++ "" ++ nl ++ "    </article>") rc)
        (add_bad_link (Some src) rc
           (Some ("rc://" ++ lang_code e ++ "/tw/dict/"
                  ++ tw_other_path rc (last rest group))) s)
    /\ (Dict.get (last rest group) tw_bad_names = None ->
        forall name,
          (path rc = "bible/kt/" ++ name ->
           tw_other_path rc (last rest group) = "bible/other/" ++ name)
          /\ (path rc = "bible/other/" ++ name ->
              tw_other_path rc (last rest group) = "bible/kt/" ++ name)).
Proof.
  intros e rc src s group rest Hex Hextra Hfile Hmem Hrefs. split.
  - unfold get_tw_article_html. unfold bindM at 1. rewrite Hex. cbn [negb].
    unfold bindM at 1, lift. rewrite Hextra, LoaderFacts.last_of_cons.
    fold (tw_other_path rc (last rest group)).
    unfold ret. rewrite Hfile.
    assert (T : truthy_fix (Some ("rc://" ++ lang_code e ++ "/tw/dict/"
                                  ++ tw_other_path rc (last rest group))) = true)
      by reflexivity.
    rewrite T. unfold bindM at 1, modify. unfold bindM at 1, get_state.
    assert (Hmem' : Dict.mem (rc_link rc)
              (appendix_rcs (add_bad_link (Some src) rc
                 (Some ("rc://" ++ lang_code e ++ "/tw/dict/"
                        ++ tw_other_path rc (last rest group))) s)) = false)
      by exact Hmem.
    rewrite Hmem'. cbn [negb]. unfold bindM at 1, lift. cbn [first_of].
    unfold bindM, get_go_back_to_html. rewrite Hrefs. cbn [go_back_references].
    reflexivity.
  - intros Hbad name. unfold tw_other_path. rewrite Hbad. split; intros ->.
    + unfold sub_prefix. cbn. destruct name; reflexivity.
    + unfold sub_prefix. cbn. destruct name; reflexivity.
Qed.

Lemma tw_article_found_in_other_group_witness :
  exists html,
    get_tw_article_html Sample.e_other Sample.amen (Some Sample.note_a)
      (mkState [] [] [] [] [])
    = Done (set_article html Sample.amen)
        (mkState [] [] []
           [("rc://en/tn/help/gen/01/01",
             [("rc://en/tw/dict/bible/kt/amen",
               Some "rc://en/tw/dict/bible/other/amen")])] [])
    /\ Py.contains "<p>repo/dict/bible/other/amen.md</p>" html = true.
Proof.
  eexists. split.
  - apply (tw_article_found_in_other_group Sample.e_other Sample.amen Sample.note_a
             (mkState [] [] [] [] []) "kt" ["amen"]); reflexivity.
  - reflexivity.
Defined.

(** ** A phrase that the text does not hold *)

Module AbsentFacts.
Import Re.

Lemma search_literal_none p s :
  Py.contains p s = false -> search (literal p) s = None.
Proof.
  intros C. apply EngineFacts.search_from_none. intros s' S.
  apply HighlightFacts.match_at_literal_miss.
  eapply EngineFacts.contains_suffix; eassumption.
Qed.

Lemma append_self_ne t : t <> "" -> String.eqb (t ++ t) t = false.
Proof.
  intros N. apply String.eqb_neq. intros E.
  apply (f_equal String.length) in E. rewrite StrFacts.length_append in E.
  destruct t; [congruence | simpl in E; lia].
Qed.

End AbsentFacts.

(** For a phrase that is one part, is not blank and does not occur in a
    text without [span] tag, [highlight_text] returns the text twice: the
    whole text is added to the result in the loop and once more after it.
    [highlight_text_with_phrases] takes the doubled text for a change: it
    returns it and records no note for the phrase. *)
Theorem highlight_absent_phrase_doubles :
  forall (text phrase rc : string) (ignore : list string) (b : highlight_ledger),
    text <> "" ->
    Py.contains "<span" text = false ->
    Py.strip_nonempty phrase = true ->
    Re.search Pat.ellipsis phrase = None ->
    Py.contains phrase text = false ->
    highlight_text text phrase = text ++ text
    /\ highlight_text_with_phrases text [phrase] rc ignore b
       = (Py.Ok (text ++ text), b).
Proof.
  intros text phrase rc ignore b Ht Hspan Hs He Hc.
  assert (H : highlight_text text phrase = text ++ text).
  { unfold highlight_text, Re.split.
    rewrite EngineFacts.pieces_none by exact He.
    cbn [Re.split_pieces append List.length highlight_parts]. rewrite Hs. cbn [negb].
    unfold Pat.split_pattern. rewrite Hspan.
    fold (literal phrase). unfold Re.split1.
    rewrite AbsentFacts.search_literal_none by exact Hc.
    cbn [List.length Nat.ltb Nat.leb item nth_error append].
    unfold truthy_str.
    destruct (String.eqb text "") eqn:E; [apply String.eqb_eq in E; congruence|].
    reflexivity. }
  split; [exact H|].
  unfold highlight_text_with_phrases. cbn [sort_by_len_desc fold_right insert_by_len].
  cbn [highlight_loop]. rewrite H.
  now rewrite AbsentFacts.append_self_ne.
Qed.

Lemma highlight_absent_phrase_doubles_witness :
  highlight_text "In the beginning" "the end" = "In the beginning" ++ "In the beginning"
  /\ highlight_text_with_phrases "In the beginning" ["the end"] "rc://en/tn/help/gen/01/01"
       [] []
     = (Py.Ok ("In the beginning" ++ "In the beginning"), []).
Proof.
  apply highlight_absent_phrase_doubles.
  - discriminate.
  - reflexivity.
  - reflexivity.
  - reflexivity.
  - reflexivity.
Defined.

(** ** The appendix of the document *)

Module AppendixFacts.

Lemma insert_by_key_perm {A} (key : A -> string) x l :
  Permutation (x :: l) (insert_by_key key x l).
Proof.
  induction l as [|y r IH]; simpl; [reflexivity|].
  destruct (String.leb _ _); [reflexivity|].
  rewrite perm_swap. now constructor.
Qed.

Lemma sorted_by_perm {A} (key : A -> string) l : Permutation l (sorted_by key l).
Proof.
  induction l as [|x r IH]; simpl; [constructor|].
  rewrite <- insert_by_key_perm. now constructor.
Qed.

Lemma insert_by_key_sorted {A} (key : A -> string) x l :
  StronglySorted (fun a b => String.leb (key a) (key b) = true) l ->
  StronglySorted (fun a b => String.leb (key a) (key b) = true)
    (insert_by_key key x l).
Proof.
  induction 1 as [|y r S IH F]; simpl.
  - constructor; constructor.
  - destruct (String.leb (key x) (key y)) eqn:E.
    + constructor; [now constructor|].
      constructor; [exact E|].
      eapply Forall_impl; [|exact F]. intros z Hz.
      eapply SortFacts.leb_trans; eassumption.
    + constructor; [exact IH|].
      rewrite <- insert_by_key_perm. constructor; [|exact F].
      destruct (String.leb_total (key x) (key y)); congruence.
Qed.

Lemma sorted_by_sorted {A} (key : A -> string) l :
  StronglySorted (fun a b => String.leb (key a) (key b) = true) (sorted_by key l).
Proof.
  induction l as [|x r IH]; simpl; [constructor|].
  now apply insert_by_key_sorted.
Qed.

Lemma add_articles_concat l : forall html,
  add_articles l html
  = html ++ String.concat "" (map (fun x => article (snd x)) l).
Proof.
  induction l as [|x r IH]; intros html.
  - simpl. now rewrite StrFacts.append_nil_r.
  - cbn [add_articles map]. rewrite IH, StrFacts.concat_cons.
    unfold truthy_str. destruct (String.eqb (article (snd x)) "") eqn:E; cbn [negb].
    + apply String.eqb_eq in E. now rewrite E.
    + now rewrite StrFacts.append_assoc.
Qed.

End AppendixFacts.

(** The appendix of a resource holds the bodies of the appendix records of
    that resource whose linking level is [APPENDIX_LINKING_LEVEL], and of no
    other record, in the order of their titles in lower case, inside one
    [section] element; without such a body it is the empty text. *)
Theorem appendix_html_by_title :
  forall (lower : string -> string) (e : env)
         (resource_name resource_title : string) (s : state),
    Permutation (sorted_rcs lower e resource_name s)
      (filter (fun x => String.eqb (resource (snd x)) resource_name
                        && (linking_level (snd x) =? APPENDIX_LINKING_LEVEL e)%Z)
              (appendix_rcs s))
    /\ StronglySorted (by_title lower) (sorted_rcs lower e resource_name s)
    /\ get_appendix_html lower e resource_name resource_title s
       = (let body := String.concat ""
                        (map (fun x => article (snd x))
                             (sorted_rcs lower e resource_name s)) in
          if String.eqb body "" then ""
          else appendix_section e resource_name resource_title body).
Proof.
  intros lower e name rtitle s. split; [|split].
  - symmetry. apply AppendixFacts.sorted_by_perm.
  - apply (AppendixFacts.sorted_by_sorted (fun x => lower (title (snd x)))).
  - unfold get_appendix_html. rewrite AppendixFacts.add_articles_concat.
    cbn [append]. cbv zeta. unfold truthy_str.
    destruct (String.eqb _ "") eqn:E; cbn [negb]; [|reflexivity].
    now apply String.eqb_eq in E.
Qed.

(** ** The counts and the ids of the link table *)

Module CountFacts.
Import TW2tsv TW2tsvCounts.

Lemma count_links_from lines : forall a b,
  fold_left
    (fun counts l =>
       let '(num_simple_links, num_complex_links) := counts in
       if Py.contains " " (word l)
       then (num_simple_links, S num_complex_links)
       else (S num_simple_links, num_complex_links))
    lines (a, b)
  = (a + List.length (filter (fun l => negb (Py.contains " " (word l))) lines),
     b + List.length (filter (fun l => Py.contains " " (word l)) lines)).
Proof.
  induction lines as [|l r IH]; intros a b.
  - simpl. f_equal; lia.
  - cbn [fold_left filter]. destruct (Py.contains " " (word l)); cbn [negb];
      rewrite IH; cbn [List.length]; f_equal; lia.
Qed.

Lemma filter_split {A} (f : A -> bool) l :
  List.length (filter (fun x => negb (f x)) l) + List.length (filter f l)
  = List.length l.
Proof.
  induction l as [|x r IH]; [reflexivity|].
  simpl. destruct (f x); simpl; lia.
Qed.

Lemma write_rows_fresh lines : forall quads rest previous_ids,
  List.length quads = List.length lines ->
  In "" previous_ids ->
  NoDup (map id_of quads) ->
  (forall q, In q quads -> ~ In (id_of q) previous_ids) ->
  write_rows lines (draws_of quads ++ rest)%list previous_ids
  = Some (map (fun p => tsv_row (fst p) (snd p)) (combine lines (map id_of quads)),
          (previous_ids ++ map id_of quads)%list).
Proof.
  induction lines as [|l r IH]; intros quads rest prev Hlen Hin Hnd Hfresh.
  - destruct quads; [|discriminate]. simpl. now rewrite app_nil_r.
  - destruct quads as [|[[[d1 d2] d3] d4] quads]; [discriminate|].
    cbn [write_rows draws_of flat_map app].
    rewrite TW2tsvFacts.regenerate_progress.
    + fold (draws_of quads). inversion Hnd as [|x xs Hx Hnd']. subst.
      rewrite IH.
      * cbn [map combine fst snd id_of]. now rewrite <- app_assoc.
      * simpl in Hlen. lia.
      * apply in_or_app. now left.
      * exact Hnd'.
      * intros q Hq I. apply in_app_or in I. destruct I as [I|[I|[]]].
        -- apply (Hfresh q); [now right | exact I].
        -- apply Hx. rewrite in_map_iff. exists q. split; [now symmetry|exact Hq].
    + now apply TW2tsvFacts.mem_str_In.
    + destruct (Py.mem_str (make_id d1 d2 d3 d4) prev) eqn:E; [|reflexivity].
      apply TW2tsvFacts.mem_str_In in E.
      exfalso. apply (Hfresh (d1, d2, d3, d4)); [now left | exact E].
Qed.

End CountFacts.

(** When the file is written for at least one line, [make_TSV_file] returns
    the number of links whose word holds no blank and the number of those
    whose word holds one, and the two add up to the number of rows written.
    For a book without any line the function does not return: the [print]
    after the loop reads the loop variable that no round has set. *)
Theorem make_TSV_file_counts :
  forall (lines : list TW2tsv.source_line) (draws : list nat)
         (rows : list (list string)),
    TW2tsv.make_TSV_file lines draws = Some rows ->
    let num_simple_links :=
      List.length (filter (fun l => negb (Py.contains " " (TW2tsv.word l))) lines) in
    let num_complex_links :=
      List.length (filter (fun l => Py.contains " " (TW2tsv.word l)) lines) in
    TW2tsvCounts.make_TSV_file_ending lines draws
    = Some (match lines with
            | [] => TW2tsvCounts.UnboundLocalError
            | _ => TW2tsvCounts.Returns num_simple_links num_complex_links
            end)
    /\ num_simple_links + num_complex_links = List.length rows.
Proof.
  intros lines draws rows H. cbv zeta. split.
  - unfold TW2tsvCounts.make_TSV_file_ending. rewrite H.
    destruct lines as [|l r]; [reflexivity|].
    unfold TW2tsvCounts.count_links. now rewrite CountFacts.count_links_from.
  - rewrite CountFacts.filter_split.
    unfold TW2tsv.make_TSV_file in H.
    destruct (TW2tsv.write_rows lines draws [""]) as [[rows' ids]|] eqn:E;
      [|discriminate].
    inversion H. subst rows'.
    destruct (TW2tsvFacts.write_rows_spec _ _ _ _ _ E (or_introl eq_refl))
      as (_ & _ & _ & L).
    now symmetry.
Qed.

Lemma make_TSV_file_counts_witness :
  TW2tsvCounts.make_TSV_file_ending
    [Sample.line1; TW2tsv.mkLine "3JN" "1" "2" "w2 w3" "1" "rc://*/tw/dict/bible/kt/love"]
    [0; 1; 2; 3; 4; 5; 6; 7]
  = Some (TW2tsvCounts.Returns 1 1)
  /\ 1 + 1 = 2.
Proof.
  apply (make_TSV_file_counts
           [Sample.line1;
            TW2tsv.mkLine "3JN" "1" "2" "w2 w3" "1" "rc://*/tw/dict/bible/kt/love"]
           [0; 1; 2; 3; 4; 5; 6; 7]
           [TW2tsv.tsv_row Sample.line1 "abcd";
            TW2tsv.tsv_row
              (TW2tsv.mkLine "3JN" "1" "2" "w2 w3" "1" "rc://*/tw/dict/bible/kt/love")
              "efgh"]).
  reflexivity.
Defined.

(** When each round of four draws makes an id that was not made before,
    every line is written with the id of its round, in order: no draw is
    thrown away and the file is written whatever the number of lines. *)
Theorem make_TSV_file_with_fresh_draws :
  forall (lines : list TW2tsv.source_line) (quads : list TW2tsvCounts.quad)
         (rest : list nat),
    List.length quads = List.length lines ->
    NoDup (map TW2tsvCounts.id_of quads) ->
    TW2tsv.make_TSV_file lines (TW2tsvCounts.draws_of quads ++ rest)%list
    = Some (map (fun p => TW2tsv.tsv_row (fst p) (snd p))
                (combine lines (map TW2tsvCounts.id_of quads))).
Proof.
  intros lines quads rest Hlen Hnd. unfold TW2tsv.make_TSV_file.
  rewrite CountFacts.write_rows_fresh; try assumption; [reflexivity | now left |].
  intros [[[d1 d2] d3] d4] _ [I|[]].
  pose proof (TW2tsvFacts.make_id_valid d1 d2 d3 d4) as V.
  cbn [TW2tsvCounts.id_of] in I. rewrite <- I in V. discriminate V.
Qed.

Lemma make_TSV_file_with_fresh_draws_witness :
  TW2tsv.make_TSV_file [Sample.line1; Sample.line1] [0; 1; 2; 3; 4; 5; 6; 7; 8]
  = Some [TW2tsv.tsv_row Sample.line1 "abcd"; TW2tsv.tsv_row Sample.line1 "efgh"].
Proof.
  apply (make_TSV_file_with_fresh_draws [Sample.line1; Sample.line1]
           [(0, 1, 2, 3); (4, 5, 6, 7)] [8]).
  - reflexivity.
  - repeat constructor; simpl; intuition discriminate.
Defined.

(** ** The ledger over a crawl (C6) *)

Module LedgerCrawlFacts.
Import CrawlFacts.

Lemma entry_kept_refl v : entry_kept v v.
Proof. now left. Qed.

Lemma entry_kept_trans v1 v2 v3 :
  entry_kept v1 v2 -> entry_kept v2 v3 -> entry_kept v1 v3.
Proof.
  intros [->|[A B]] [->|[C D]].
  - now left.
  - right. now split.
  - right. now split.
  - congruence.
Qed.

Lemma append_only_refl b : append_only b b.
Proof. intros sl tl v H. exists v. split; [exact H | apply entry_kept_refl]. Qed.

Lemma append_only_trans b1 b2 b3 :
  append_only b1 b2 -> append_only b2 b3 -> append_only b1 b3.
Proof.
  intros A B sl tl v H. destruct (A _ _ _ H) as (v2 & H2 & K2).
  destruct (B _ _ _ H2) as (v3 & H3 & K3).
  exists v3. split; [exact H3 | eapply entry_kept_trans; eassumption].
Qed.

Lemma ledger_safe_refl s : ledger_safe s s.
Proof. split; [auto|]. intros F. split; [apply append_only_refl | exact F]. Qed.

Lemma ledger_safe_trans s1 s2 s3 :
  ledger_safe s1 s2 -> ledger_safe s2 s3 -> ledger_safe s1 s3.
Proof.
  intros [M1 A1] [M2 A2]. split; [auto|].
  intros F. destruct (A1 F) as [B1 F2]. destruct (A2 F2) as [B2 F3].
  split; [eapply append_only_trans; eassumption | exact F3].
Qed.

(** A change that leaves the ledger and the stored links as they are *)
Lemma ledger_safe_frame s s' :
  (forall k, stored k s' = stored k s) -> bad_links s' = bad_links s ->
  ledger_safe s s'.
Proof.
  intros K B. split; [intros k; now rewrite K|].
  intros F. rewrite B. split; [apply append_only_refl|].
  intros sl tl f H T. rewrite K. rewrite B in H. eapply F; eassumption.
Qed.

Lemma safe_bind {A B} (m : M A) (f : A -> M B) s :
  ledger_safe s (state_of (m s)) ->
  (forall a s', m s = Done a s' -> ledger_safe s' (state_of (f a s'))) ->
  ledger_safe s (state_of (bindM m f s)).
Proof.
  intros H K. unfold bindM. destruct (m s) as [a s'|x s'|s'] eqn:E; simpl in *;
    [|exact H|exact H].
  eapply ledger_safe_trans; [exact H | now apply K].
Qed.

Lemma deref_safe r s : ledger_safe s (state_of (deref r s)).
Proof. unfold deref. destruct (lookup_ref r s); apply ledger_safe_refl. Qed.

Lemma stored_store t rc s k found :
  lookup_ref t s = Some found -> stored k (store t rc s) = stored k s.
Proof.
  intros H. unfold stored.
  destruct (mem_store t rc found s k H) as [-> ->]. reflexivity.
Qed.

Lemma update_safe t f s : ledger_safe s (state_of (update t f s)).
Proof.
  unfold update. destruct (lookup_ref t s) as [found|] eqn:E;
    [|apply ledger_safe_refl].
  apply ledger_safe_frame.
  - intros k. eapply stored_store. exact E.
  - destruct t; reflexivity.
Qed.

(** A recording without fix *)
Lemma add_none_safe src rc s : ledger_safe s (add_bad_link src rc None s).
Proof.
  destruct src as [x|]; [|apply ledger_safe_refl].
  split; [auto|]. intros F. split.
  - intros sl tl v H.
    destruct (add_bad_link_entry_rule x rc None s sl tl v H) as (G & _).
    rewrite G. cbn [truthy_fix]. rewrite andb_false_r.
    exists v. split; [reflexivity | apply entry_kept_refl].
  - intros sl tl f H T. simpl in H. rewrite ledger_get_record in H.
    change (stored tl s = true).
    destruct (String.eqb sl (rc_link x) && String.eqb tl (rc_link rc)) eqn:E.
    + apply andb_true_iff in E. destruct E as [Es Et].
      apply String.eqb_eq in Es, Et. subst sl tl.
      destruct (ledger_get (rc_link x) (rc_link rc) (bad_links s)) as [v|] eqn:G.
      * cbn [truthy_fix] in H. inversion H. subst v.
        eapply F; eassumption.
      * inversion H. subst f. discriminate T.
    + eapply F; eassumption.
Qed.

Lemma tw_record_missing_none src rc s :
  tw_record_missing src rc s = add_bad_link (Some src) rc None s.
Proof.
  unfold tw_record_missing, add_bad_link, record_bad_link. cbn [truthy_fix].
  rewrite orb_false_r. destruct (negb _); reflexivity.
Qed.

(** What a loader does with a new record: it raises and leaves the state
    as it is; or it returns the record without body, the state as it is or
    with a recording without fix; or it returns the record with a body, the
    state as it is or with one recording. *)
Lemma loader_cases e rc src s :
  references rc = [] -> article rc = "" ->
  Dict.mem (rc_link rc) (appendix_rcs s) = false ->
  forall o,
    o = (if String.eqb (resource rc) "ta"
         then get_ta_article_html e rc (Some src)
         else if String.eqb (resource rc) "tw"
         then get_tw_article_html e rc (Some src)
         else ret rc) s ->
    (exists x, o = Raised x s)
    \/ (exists s2, o = Done rc s2
                   /\ (s2 = s \/ s2 = add_bad_link (Some src) rc None s))
    \/ (exists html s2, o = Done (set_article html rc) s2
                        /\ truthy_str html = true
                        /\ (s2 = s \/ exists f, s2 = add_bad_link (Some src) rc f s)).
Proof.
  intros Hrefs Hart Hmem o Ho.
  assert (Hgo : forall s', get_go_back_to_html e rc s' = Done "" s').
  { intros s'. unfold get_go_back_to_html. now rewrite Hrefs. }
  destruct (String.eqb (resource rc) "ta").
  - unfold get_ta_article_html in Ho.
    set (p := if negb (isfile e _) then _ else _) in Ho.
    destruct p as [fix_ file_path].
    destruct (isfile e file_path).
    + right. right.
      destruct (ta_content e file_path (project rc)) as [[title_ top_box] body].
      unfold bindM at 1 in Ho.
      destruct fix_ as [f|]; unfold modify, ret in Ho; unfold bindM in Ho;
        rewrite Hgo in Ho; subst o; do 2 eexists;
        (split; [reflexivity|]); (split; [reflexivity|]); [right; eauto | now left].
    + right. left. unfold bindM, modify, ret in Ho. subst o.
      eexists. split; [reflexivity|]. now right.
  - destruct (String.eqb (resource rc) "tw").
    + unfold get_tw_article_html in Ho. unfold bindM at 1 in Ho.
      set (m := if negb (exists_ e _) then _ else _) in Ho.
      assert (Hm : (exists x, m s = Raised x s)
                   \/ (exists fp, m s = Done (None, fp) s)
                   \/ (exists f fp x l,
                         extra_information rc = x :: l
                         /\ truthy_fix (Some f) = true
                         /\ m s = Done (Some f, fp) s)).
      { unfold m. destruct (negb _).
        - unfold bindM, lift.
          destruct (extra_information rc) as [|x l]; cbn [last_of].
          + left. eauto.
          + right. right. unfold ret. do 4 eexists.
            split; [reflexivity|]. split; [|reflexivity]. reflexivity.
        - right. left. unfold ret. eauto. }
      destruct Hm as [(x & Hm) | [(fp & Hm) | (f & fp & x & l & Ex & T & Hm)]];
        rewrite Hm in Ho; clear Hm m.
      * left. eauto.
      * destruct (isfile e fp).
        -- cbn [truthy_fix] in Ho. unfold bindM at 1, ret in Ho.
           unfold bindM at 1, get_state in Ho.
           rewrite Hmem in Ho. cbn [negb] in Ho. unfold bindM at 1, lift in Ho.
           destruct (first_of (extra_information rc)) as [group|x].
           ++ right. right. unfold bindM in Ho. rewrite Hgo in Ho. subst o.
              do 2 eexists. split; [reflexivity|]. split; [reflexivity|]. now left.
           ++ left. eauto.
        -- right. left. unfold bindM, modify, ret in Ho.
           rewrite tw_record_missing_none in Ho. subst o.
           eexists. split; [reflexivity|]. now right.
      * destruct (isfile e fp).
        -- right. right. rewrite T in Ho.
           unfold bindM at 1, modify in Ho. unfold bindM at 1, get_state in Ho.
           change (appendix_rcs (add_bad_link (Some src) rc (Some f) s))
             with (appendix_rcs s) in Ho.
           rewrite Hmem in Ho. cbn [negb] in Ho. unfold bindM at 1, lift in Ho.
           rewrite Ex in Ho. cbn [first_of] in Ho. unfold bindM in Ho.
           rewrite Hgo in Ho. unfold ret in Ho. subst o.
           do 2 eexists. split; [reflexivity|]. split; [reflexivity|]. right. eauto.
        -- right. left. unfold bindM, modify, ret in Ho.
           rewrite tw_record_missing_none in Ho. subst o.
           eexists. split; [reflexivity|]. now right.
    + right. left. unfold ret in Ho. subst o. eexists. split; [reflexivity|]. now left.
Qed.

(** A record that is in no registry, loaded with one recording at most,
    then inserted *)
Lemma insert_safe src rc rc1 s s2 :
  stored (rc_link rc) s = false ->
  rc_link rc1 = rc_link rc ->
  (s2 = s \/ exists f, s2 = add_bad_link (Some src) rc f s) ->
  ledger_safe s (insert_appendix rc1 s2).
Proof.
  intros N Hl Hs2.
  assert (K : forall k, stored k s = true -> stored k (insert_appendix rc1 s2) = true).
  { intros k Hk. unfold stored in *. 
    assert (R : rcs (insert_appendix rc1 s2) = rcs s)
      by (destruct Hs2 as [ -> | (f & ->) ]; reflexivity).
    assert (A : appendix_rcs (insert_appendix rc1 s2)
                = Dict.set (rc_link rc1) rc1 (appendix_rcs s))
      by (destruct Hs2 as [ -> | (f & ->) ]; reflexivity).
    rewrite R, A, DictFacts.mem_set.
    apply orb_true_iff in Hk. destruct Hk as [ -> | -> ]; [reflexivity|].
    now rewrite !orb_true_r. }
  assert (I : stored (rc_link rc) (insert_appendix rc1 s2) = true).
  { unfold stored.
    assert (A : appendix_rcs (insert_appendix rc1 s2)
                = Dict.set (rc_link rc1) rc1 (appendix_rcs s))
      by (destruct Hs2 as [ -> | (f & ->) ]; reflexivity).
    rewrite A, DictFacts.mem_set, Hl, String.eqb_refl. cbn [orb].
    apply orb_true_r. }
  split; [exact K|]. intros F.
  destruct Hs2 as [ -> | (f & ->) ].
  - split; [apply append_only_refl|].
    intros sl tl f H T. apply K. eapply F; eassumption.
  - split.
    + intros sl tl v H.
      destruct (add_bad_link_entry_rule src rc f s sl tl v H) as (G & _).
      change (bad_links (insert_appendix rc1 (add_bad_link (Some src) rc f s)))
        with (bad_links (add_bad_link (Some src) rc f s)).
      rewrite G. eexists. split; [reflexivity|].
      destruct (String.eqb sl (rc_link src) && String.eqb tl (rc_link rc)
                && truthy_fix f) eqn:E; [|apply entry_kept_refl].
      apply andb_true_iff in E. destruct E as [E T].
      apply andb_true_iff in E. destruct E as [Es Et].
      apply String.eqb_eq in Es, Et. subst sl tl.
      right. split; [|exact T].
      destruct (truthy_fix v) eqn:Tv; [|reflexivity].
      rewrite (F _ _ _ H Tv) in N. discriminate N.
    + intros sl tl f' H T.
      change (bad_links (insert_appendix rc1 (add_bad_link (Some src) rc f s)))
        with (record_bad_link (rc_link src) (rc_link rc) f (bad_links s)) in H.
      rewrite ledger_get_record in H.
      destruct (String.eqb sl (rc_link src) && String.eqb tl (rc_link rc)) eqn:E.
      * apply andb_true_iff in E. destruct E as [Es Et].
        apply String.eqb_eq in Et. subst tl. exact I.
      * apply K. eapply F; eassumption.
Qed.

Lemma crawl_link_safe e (crawl : ref -> M unit) source raw :
  (forall child s1, ledger_safe s1 (state_of (crawl child s1))) ->
  forall s, ledger_safe s (state_of (crawl_link e crawl source raw s)).
Proof.
  intros Hcrawl s. unfold crawl_link.
  apply safe_bind; [apply deref_safe|].
  intros src s0 E. apply deref_done in E. destruct E as [-> Hsrc].
  apply safe_bind; [apply ledger_safe_refl|].
  intros s0 s' E. inversion E; subst s0 s'. clear E.
  set (rc := new_rc e raw (linking_level src + 1)).
  destruct (Dict.mem (rc_link rc) (rcs s) || Dict.mem (rc_link rc) (appendix_rcs s))
    eqn:Hmem.
  - apply safe_bind; [apply deref_safe|]. intros found s1 _.
    apply safe_bind; [apply deref_safe|]. intros src1 s2 _.
    apply safe_bind.
    { destruct (_ >? _)%Z; [apply update_safe | apply ledger_safe_refl]. }
    intros [] s3 _.
    apply safe_bind; [apply deref_safe|]. intros src3 s4 _.
    apply update_safe.
  - destruct (negb (Py.mem_str (resource rc) APPENDIX_RESOURCES));
      [apply ledger_safe_refl|].
    apply safe_bind.
    { unfold modify. apply ledger_safe_frame; reflexivity. }
    intros [] s1' E. unfold modify in E. inversion E. subst s1'. clear E.
    set (s1 := with_fetched _ s).
    assert (N1 : stored (rc_link rc) s1 = false) by exact Hmem.
    assert (M2 : Dict.mem (rc_link rc) (appendix_rcs s1) = false).
    { unfold stored in N1. apply orb_false_iff in N1. tauto. }
    apply safe_bind; [apply deref_safe|].
    intros src1 s0 E. apply deref_done in E. destruct E as [E1 Hsrc1]. subst s0.
    pose proof (loader_cases e rc src1 s1 eq_refl eq_refl M2 _ eq_refl) as C.
    unfold bindM at 1.
    destruct C as [(x & ->) | [(s2 & -> & Hs2) | (html & s2 & -> & Th & Hs2)]].
    + apply ledger_safe_refl.
    + change (article rc) with "". cbn [truthy_str String.eqb negb].
      assert (S2 : ledger_safe s1 s2).
      { destruct Hs2 as [ -> | -> ]; [apply ledger_safe_refl | apply add_none_safe]. }
      eapply ledger_safe_trans; [exact S2|].
      apply safe_bind; [apply deref_safe|]. intros a s0 _.
      unfold modify. apply add_none_safe.
    + cbn [article set_article]. rewrite Th. unfold bindM, modify.
      eapply ledger_safe_trans; [|apply Hcrawl].
      eapply insert_safe with (src := src1) (rc := rc); [exact N1 | reflexivity |].
      destruct Hs2 as [ -> | (f & ->) ]; [now left | right; eauto].
Qed.

Lemma crawl_links_safe e (crawl : ref -> M unit) source :
  (forall child s1, ledger_safe s1 (state_of (crawl child s1))) ->
  forall rc_links s, ledger_safe s (state_of (crawl_links e crawl source rc_links s)).
Proof.
  intros Hcrawl rc_links. induction rc_links as [|raw rest IH]; intros s; simpl.
  - apply ledger_safe_refl.
  - apply safe_bind; [now apply crawl_link_safe|]. intros [] s' _. apply IH.
Qed.

Lemma crawl_safe e fuel : forall source s,
  ledger_safe s (state_of (crawl e fuel source s)).
Proof.
  induction fuel as [|n IH]; intros source s; simpl.
  - apply ledger_safe_refl.
  - apply safe_bind; [apply deref_safe|]. intros src s' _.
    destruct (_ >? _)%Z; [apply ledger_safe_refl|].
    apply crawl_links_safe. exact IH.
Qed.

Lemma crawl_ta_tw_deep_linking_safe e source s :
  ledger_safe s (state_of (crawl_ta_tw_deep_linking e source s)).
Proof.
  unfold crawl_ta_tw_deep_linking.
  apply safe_bind; [apply deref_safe|]. intros src s' _. apply crawl_safe.
Qed.

Lemma crawl_all_safe e keys : forall s,
  ledger_safe s (state_of (crawl_all e keys s)).
Proof.
  induction keys as [|k rest IH]; intros s; simpl.
  - apply ledger_safe_refl.
  - apply safe_bind; [apply crawl_ta_tw_deep_linking_safe|]. intros [] s' _. apply IH.
Qed.

Lemma get_appendix_rcs_safe e s :
  ledger_safe s (state_of (get_appendix_rcs e s)).
Proof.
  unfold get_appendix_rcs.
  apply safe_bind; [apply ledger_safe_refl|].
  intros s0 s' E. inversion E. apply crawl_all_safe.
Qed.

End LedgerCrawlFacts.

(** C6: over a crawl the ledger is appended to only.  At the start of a
    build the ledger is empty; the loaders record a fix only for an article
    that they load, and the crawl inserts that article right after, so every
    entry that holds a fix is for a stored target, before and after every
    crawl.  From such a state, after the crawl of one source or of the whole
    primary registry, every entry of the ledger is still there, and its
    value is the one it had, or a fix where it had none.  A recording
    without fix never changes an entry. *)
Theorem C6_ledger_append_only :
  forall (e : env) (s : state),
    fixes_stored s ->
    (forall sl tl v,
        ledger_get sl tl (bad_links s) = Some v ->
        exists v',
          ledger_get sl tl (bad_links (state_of (get_appendix_rcs e s))) = Some v'
          /\ (v' = v \/ (truthy_fix v = false /\ truthy_fix v' = true)))
    /\ (forall source sl tl v,
          ledger_get sl tl (bad_links s) = Some v ->
          exists v',
            ledger_get sl tl
              (bad_links (state_of (crawl_ta_tw_deep_linking e source s)))
            = Some v'
            /\ (v' = v \/ (truthy_fix v = false /\ truthy_fix v' = true)))
    /\ fixes_stored (state_of (get_appendix_rcs e s))
    /\ (forall source,
          fixes_stored (state_of (crawl_ta_tw_deep_linking e source s)))
    /\ (forall src rc sl tl v,
          ledger_get sl tl (bad_links s) = Some v ->
          ledger_get sl tl (bad_links (add_bad_link (Some src) rc None s)) = Some v
          /\ ledger_get sl tl (bad_links (tw_record_missing src rc s)) = Some v).
Proof.
  intros e s F.
  destruct (LedgerCrawlFacts.get_appendix_rcs_safe e s) as [_ A].
  destruct (A F) as [A1 A2].
  split; [exact A1|]. split; [|split; [exact A2|split]].
  - intros source.
    destruct (LedgerCrawlFacts.crawl_ta_tw_deep_linking_safe e source s) as [_ B].
    now apply B.
  - intros source.
    destruct (LedgerCrawlFacts.crawl_ta_tw_deep_linking_safe e source s) as [_ B].
    now apply B.
  - intros src rc sl tl v H.
    destruct (add_bad_link_entry_rule src rc None s sl tl v H) as (G & G' & _).
    split; [|exact G'].
    rewrite G. cbn [truthy_fix]. now rewrite andb_false_r.
Qed.

Lemma C6_ledger_append_only_witness :
  fixes_stored Sample.listed
  /\ ledger_get "rc://en/tn/help/p4" "rc://en/ta/man/figs-abstractnoun"
       (bad_links Sample.listed) = Some None
  /\ exists v',
       ledger_get "rc://en/tn/help/p4" "rc://en/ta/man/figs-abstractnoun"
         (bad_links (state_of (get_appendix_rcs Sample.e_nouns Sample.listed)))
       = Some v'
       /\ (v' = None \/ (truthy_fix None = false /\ truthy_fix v' = true)).
Proof.
  assert (F : fixes_stored Sample.listed).
  { intros sl tl f H T. unfold ledger_get in H. cbn in H.
    destruct (String.eqb sl "rc://en/tn/help/p4"); [|discriminate H].
    cbn in H.
    destruct (String.eqb tl "rc://en/ta/man/figs-abstractnoun"); [|discriminate H].
    inversion H. subst f. discriminate T. }
  split; [exact F|]. split; [reflexivity|].
  apply (proj1 (C6_ledger_append_only Sample.e_nouns Sample.listed F)).
  reflexivity.
Defined.
